(** * Object initialisation routines of PWMAngband (src/server/obj-init.c)

    A shallow embedding of the directive callbacks, the finish phases and the
    cleanup phases of the object data files, with the properties of the
    loader stated and proved over it.

    Conventions of the embedding.
    - A C [int] is a [Z]; a [char *] that may be NULL is an [option string];
      a bit-flag set is a [Z] read bitwise.
    - The parser's private slot ([parser_priv]) points to the head of a singly
      linked list of records, newest first.  It is a Rocq [list]: [[]] is the
      NULL slot, the head of the list is the record under construction and the
      tail is what the node's [next] link reaches.
    - A finished table is a [list] indexed from 0, written with stdpp's
      [<[i:=x]>] and read with [!!].
    - A directive callback returns an [outcome]: the error code it returned
      with the state it left, or the fault it stopped on. *)

From Stdlib Require Import ZArith String Ascii List Lia Bool.
From stdpp Require Import base option list gmap strings.

#[local] Set Default Proof Using "Type".

Local Open Scope string_scope.
Local Open Scope list_scope.
Local Open Scope Z_scope.

(** ** Error codes and outcomes *)

Inductive parser_error : Type :=
| PARSE_ERROR_NONE
| PARSE_ERROR_BAD_EXPRESSION_STRING
| PARSE_ERROR_ELEMENT_NAME_MISMATCH
| PARSE_ERROR_INTERNAL
| PARSE_ERROR_INVALID_ALLOCATION
| PARSE_ERROR_INVALID_COLOR
| PARSE_ERROR_INVALID_DICE
| PARSE_ERROR_INVALID_EXPRESSION
| PARSE_ERROR_INVALID_FLAG
| PARSE_ERROR_INVALID_ITEM_NUMBER
| PARSE_ERROR_INVALID_MESSAGE
| PARSE_ERROR_INVALID_VALUE
| PARSE_ERROR_MISSING_RECORD_HEADER
| PARSE_ERROR_NO_KIND_FOR_EGO_TYPE
| PARSE_ERROR_OUT_OF_BOUNDS
| PARSE_ERROR_UNBOUND_EXPRESSION
| PARSE_ERROR_UNDEFINED_DIRECTIVE
| PARSE_ERROR_UNRECOGNISED_BRAND
| PARSE_ERROR_UNRECOGNISED_CURSE
| PARSE_ERROR_UNRECOGNISED_SLAY
| PARSE_ERROR_UNRECOGNISED_TVAL.

Global Instance parser_error_eq_dec : EqDecision parser_error.
Proof. solve_decision. Defined.

(** What stops a callback before it returns. *)
Inductive fault : Type :=
| AssertFailed   (* my_assert(x) on a false x *)
| NullDeref      (* a field read or written through a NULL pointer *)
| OutOfBounds    (* an array row read or written outside the array *)
| UseAfterFree   (* a read through a pointer to a block already freed *)
| BadFree.       (* mem_free of a block that is not allocated *)

Inductive outcome (S : Type) : Type :=
| Returned (e : parser_error) (s : S)
| Stopped (f : fault).

Arguments Returned {S} e s.
Arguments Stopped {S} f.

(** [streq(a, b)] *)
Definition streq (a b : string) : bool := String.eqb a b.

(** [arr[i] = x] for an [int] index: the loops below only write inside the
    array; an index outside it is left without effect. *)
Definition array_set {A : Type} (arr : list A) (i : Z) (x : A) : list A :=
  if (0 <=? i) && (i <? Z.of_nat (length arr)) then <[Z.to_nat i := x]> arr
  else arr.

(** [arr[i]] for an [int] index. *)
Definition array_get {A : Type} (arr : list A) (i : Z) : option A :=
  if 0 <=? i then arr !! Z.to_nat i else None.

(** struct random, as [parser_getrand] yields it. *)
Record random : Type := mk_random {
  rand_base : Z; rand_dice : Z; rand_sides : Z; rand_m_bonus : Z }.

Definition random_zero : random := mk_random 0 0 0 0.

(** ** The finish phase shared by the list-accumulated record types

    Every [finish_parse_*] below except the object-base one is the same
    two-pass loop: count the nodes, allocate a zeroed array of that many
    rows, then walk the list from its head writing row [count], [count - 1],
    ..., each row patched by the record type's own assignments ([patch max
    count node]). *)
Section finish_list.
Context {R : Type}.
Variable zero : R.                      (* a zeroed row (mem_zalloc) *)
Variable patch : Z -> Z -> R -> R.     (* the assignments after memcpy *)

(** while (node) { max++; node = node->next; } *)
Fixpoint count_entries (l : list R) (max : Z) : Z :=
  match l with
  | [] => max
  | _ :: next => count_entries next (max + 1)
  end.

(** for (node = priv; node; node = next, count--) { memcpy; patch; } *)
Fixpoint copy_entries (max : Z) (l : list R) (count : Z) (arr : list R) : list R :=
  match l with
  | [] => arr
  | node :: next =>
      copy_entries max next (count - 1) (array_set arr count (patch max count node))
  end.

(** The pair (recorded maximum, table). *)
Definition finish_list (priv : list R) : Z * list R :=
  let max := count_entries priv 0 in
  let arr := replicate (Z.to_nat max) zero in
  (max, copy_entries max priv (max - 1) arr).
End finish_list.

(** ** strtok(s, " |")

    The tokens successive [strtok] calls return: the maximal runs of
    characters other than the two delimiters, in order. *)
Definition is_delim (c : ascii) : bool :=
  Ascii.eqb c " "%char || Ascii.eqb c "|"%char.

Fixpoint strtok_from (s : string) (cur : option string) : list string :=
  match s with
  | EmptyString => match cur with Some t => [t] | None => [] end
  | String c rest =>
      if is_delim c then
        match cur with
        | Some t => t :: strtok_from rest None
        | None => strtok_from rest None
        end
      else strtok_from rest (Some (default "" cur +:+ String c ""))
  end.

Definition strtok_all (s : string) : list string := strtok_from s None.


(** ** The world outside obj-init.c

    Tables, constants and helpers the callbacks use whose definitions are in
    other files of the program.  They are the parameters of the development:
    nothing is assumed about them. *)
Section obj_init.
Variable list_element_names : list string.     (* list-elements.h: ELEM_MAX names *)
Variable list_obj_flag_names : list string.    (* list-object-flags.h *)
Variable kind_flags : list string.             (* list-kind-flags.h *)
Variable obj_mods : list string.               (* list-stats.h, list-object-modifiers.h *)
Variable TV_MAX : Z.
Variable KF_INSTA_ART : nat.
Variables EL_INFO_HATES EL_INFO_IGNORE : Z.
Variables ATT_SAVE ATT_DAMAGE ATT_NON_PHYS ATT_RAW : Z.
Variable FLAG_END : Z.
Variable COLOUR_RED : Z.
Variable tval_find_idx : string -> Z.
Variable message_lookup_by_name : string -> Z.
Variable color_text_to_attr : string -> Z.
Variable color_char_to_attr : ascii -> Z.
Variable lookup_flag_r_info : string -> Z.      (* lookup_flag(r_info_flags, .) *)
Variable sscanf_d_to_d : string -> option (Z * Z). (* sscanf(tmp, "%d to %d", ..) == 2 *)
Variables ELEM_BASE_MIN ELEM_HIGH_MIN : nat.

(** ** Projections (projection.txt) *)

Record projection : Type := mk_projection {
  proj_index : Z;
  proj_name : option string;
  proj_type : option string;
  proj_desc : option string;
  proj_blind_desc : option string;
  proj_lash_desc : option string;
  proj_numerator : Z;
  proj_denominator : random;
  proj_divisor : Z;
  proj_damage_cap : Z;
  proj_msgt : Z;
  proj_obvious : bool;
  proj_color : Z;
  proj_flags : Z;
  proj_threat : option string;
  proj_threat_flag : Z }.

(** mem_zalloc(sizeof(struct projection)) *)
Definition projection_zero : projection :=
  mk_projection 0 None None None None None 0 random_zero 0 0 0 false 0 0 None 0.

Definition set_proj_index (v : Z) (r : projection) : projection :=
  mk_projection v (proj_name r) (proj_type r) (proj_desc r) (proj_blind_desc r)
    (proj_lash_desc r) (proj_numerator r) (proj_denominator r) (proj_divisor r)
    (proj_damage_cap r) (proj_msgt r) (proj_obvious r) (proj_color r)
    (proj_flags r) (proj_threat r) (proj_threat_flag r).
Definition set_proj_name (v : option string) (r : projection) : projection :=
  mk_projection (proj_index r) v (proj_type r) (proj_desc r) (proj_blind_desc r)
    (proj_lash_desc r) (proj_numerator r) (proj_denominator r) (proj_divisor r)
    (proj_damage_cap r) (proj_msgt r) (proj_obvious r) (proj_color r)
    (proj_flags r) (proj_threat r) (proj_threat_flag r).
Definition set_proj_type (v : option string) (r : projection) : projection :=
  mk_projection (proj_index r) (proj_name r) v (proj_desc r) (proj_blind_desc r)
    (proj_lash_desc r) (proj_numerator r) (proj_denominator r) (proj_divisor r)
    (proj_damage_cap r) (proj_msgt r) (proj_obvious r) (proj_color r)
    (proj_flags r) (proj_threat r) (proj_threat_flag r).
Definition set_proj_desc (v : option string) (r : projection) : projection :=
  mk_projection (proj_index r) (proj_name r) (proj_type r) v (proj_blind_desc r)
    (proj_lash_desc r) (proj_numerator r) (proj_denominator r) (proj_divisor r)
    (proj_damage_cap r) (proj_msgt r) (proj_obvious r) (proj_color r)
    (proj_flags r) (proj_threat r) (proj_threat_flag r).
Definition set_proj_blind_desc (v : option string) (r : projection) : projection :=
  mk_projection (proj_index r) (proj_name r) (proj_type r) (proj_desc r) v
    (proj_lash_desc r) (proj_numerator r) (proj_denominator r) (proj_divisor r)
    (proj_damage_cap r) (proj_msgt r) (proj_obvious r) (proj_color r)
    (proj_flags r) (proj_threat r) (proj_threat_flag r).
Definition set_proj_lash_desc (v : option string) (r : projection) : projection :=
  mk_projection (proj_index r) (proj_name r) (proj_type r) (proj_desc r)
    (proj_blind_desc r) v (proj_numerator r) (proj_denominator r) (proj_divisor r)
    (proj_damage_cap r) (proj_msgt r) (proj_obvious r) (proj_color r)
    (proj_flags r) (proj_threat r) (proj_threat_flag r).
Definition set_proj_numerator (v : Z) (r : projection) : projection :=
  mk_projection (proj_index r) (proj_name r) (proj_type r) (proj_desc r)
    (proj_blind_desc r) (proj_lash_desc r) v (proj_denominator r) (proj_divisor r)
    (proj_damage_cap r) (proj_msgt r) (proj_obvious r) (proj_color r)
    (proj_flags r) (proj_threat r) (proj_threat_flag r).
Definition set_proj_denominator (v : random) (r : projection) : projection :=
  mk_projection (proj_index r) (proj_name r) (proj_type r) (proj_desc r)
    (proj_blind_desc r) (proj_lash_desc r) (proj_numerator r) v (proj_divisor r)
    (proj_damage_cap r) (proj_msgt r) (proj_obvious r) (proj_color r)
    (proj_flags r) (proj_threat r) (proj_threat_flag r).
Definition set_proj_divisor (v : Z) (r : projection) : projection :=
  mk_projection (proj_index r) (proj_name r) (proj_type r) (proj_desc r)
    (proj_blind_desc r) (proj_lash_desc r) (proj_numerator r) (proj_denominator r) v
    (proj_damage_cap r) (proj_msgt r) (proj_obvious r) (proj_color r)
    (proj_flags r) (proj_threat r) (proj_threat_flag r).
Definition set_proj_damage_cap (v : Z) (r : projection) : projection :=
  mk_projection (proj_index r) (proj_name r) (proj_type r) (proj_desc r)
    (proj_blind_desc r) (proj_lash_desc r) (proj_numerator r) (proj_denominator r)
    (proj_divisor r) v (proj_msgt r) (proj_obvious r) (proj_color r)
    (proj_flags r) (proj_threat r) (proj_threat_flag r).
Definition set_proj_msgt (v : Z) (r : projection) : projection :=
  mk_projection (proj_index r) (proj_name r) (proj_type r) (proj_desc r)
    (proj_blind_desc r) (proj_lash_desc r) (proj_numerator r) (proj_denominator r)
    (proj_divisor r) (proj_damage_cap r) v (proj_obvious r) (proj_color r)
    (proj_flags r) (proj_threat r) (proj_threat_flag r).
Definition set_proj_obvious (v : bool) (r : projection) : projection :=
  mk_projection (proj_index r) (proj_name r) (proj_type r) (proj_desc r)
    (proj_blind_desc r) (proj_lash_desc r) (proj_numerator r) (proj_denominator r)
    (proj_divisor r) (proj_damage_cap r) (proj_msgt r) v (proj_color r)
    (proj_flags r) (proj_threat r) (proj_threat_flag r).
Definition set_proj_color (v : Z) (r : projection) : projection :=
  mk_projection (proj_index r) (proj_name r) (proj_type r) (proj_desc r)
    (proj_blind_desc r) (proj_lash_desc r) (proj_numerator r) (proj_denominator r)
    (proj_divisor r) (proj_damage_cap r) (proj_msgt r) (proj_obvious r) v
    (proj_flags r) (proj_threat r) (proj_threat_flag r).
Definition set_proj_flags (v : Z) (r : projection) : projection :=
  mk_projection (proj_index r) (proj_name r) (proj_type r) (proj_desc r)
    (proj_blind_desc r) (proj_lash_desc r) (proj_numerator r) (proj_denominator r)
    (proj_divisor r) (proj_damage_cap r) (proj_msgt r) (proj_obvious r)
    (proj_color r) v (proj_threat r) (proj_threat_flag r).
Definition set_proj_threat (v : option string) (r : projection) : projection :=
  mk_projection (proj_index r) (proj_name r) (proj_type r) (proj_desc r)
    (proj_blind_desc r) (proj_lash_desc r) (proj_numerator r) (proj_denominator r)
    (proj_divisor r) (proj_damage_cap r) (proj_msgt r) (proj_obvious r)
    (proj_color r) (proj_flags r) v (proj_threat_flag r).
Definition set_proj_threat_flag (v : Z) (r : projection) : projection :=
  mk_projection (proj_index r) (proj_name r) (proj_type r) (proj_desc r)
    (proj_blind_desc r) (proj_lash_desc r) (proj_numerator r) (proj_denominator r)
    (proj_divisor r) (proj_damage_cap r) (proj_msgt r) (proj_obvious r)
    (proj_color r) (proj_flags r) (proj_threat r) v.

Definition ELEM_MAX : Z := Z.of_nat (length list_element_names).

(** color[0] *)
Definition first_char (s : string) : ascii :=
  match s with
  | EmptyString => Ascii.zero
  | String c _ => c
  end.

(** strlen(color) > 1 ? color_text_to_attr(color) : color_char_to_attr(color[0]) *)
Definition color_attr (color : string) : Z :=
  if 1 <? Z.of_nat (String.length color) then color_text_to_attr color
  else color_char_to_attr (first_char color).

Definition parse_projection_code (code : string) (priv : list projection)
  : outcome (list projection) :=
  let index := match priv with
               | h :: _ => proj_index h + 1
               | [] => 0
               end in
  let proj := set_proj_index index projection_zero in
  let priv' := proj :: priv in
  if (index <? ELEM_MAX)
     && negb (streq code (default "" (array_get list_element_names index)))
  then Returned PARSE_ERROR_ELEMENT_NAME_MISMATCH priv'
  else Returned PARSE_ERROR_NONE priv'.

Definition parse_projection_name (name : string) (priv : list projection)
  : outcome (list projection) :=
  match priv with
  | [] => Returned PARSE_ERROR_MISSING_RECORD_HEADER priv
  | proj :: next =>
      Returned PARSE_ERROR_NONE (set_proj_name (Some name) proj :: next)
  end.

Definition parse_projection_type (type : string) (priv : list projection)
  : outcome (list projection) :=
  match priv with
  | [] => Returned PARSE_ERROR_MISSING_RECORD_HEADER priv
  | proj :: next =>
      Returned PARSE_ERROR_NONE (set_proj_type (Some type) proj :: next)
  end.

Definition parse_projection_desc (desc : string) (priv : list projection)
  : outcome (list projection) :=
  match priv with
  | [] => Returned PARSE_ERROR_MISSING_RECORD_HEADER priv
  | proj :: next =>
      Returned PARSE_ERROR_NONE (set_proj_desc (Some desc) proj :: next)
  end.

Definition parse_projection_blind_desc (desc : string) (priv : list projection)
  : outcome (list projection) :=
  match priv with
  | [] => Returned PARSE_ERROR_MISSING_RECORD_HEADER priv
  | proj :: next =>
      Returned PARSE_ERROR_NONE (set_proj_blind_desc (Some desc) proj :: next)
  end.

Definition parse_projection_lash_desc (desc : string) (priv : list projection)
  : outcome (list projection) :=
  match priv with
  | [] => Returned PARSE_ERROR_MISSING_RECORD_HEADER priv
  | proj :: next =>
      Returned PARSE_ERROR_NONE (set_proj_lash_desc (Some desc) proj :: next)
  end.

Definition parse_projection_numerator (num : Z) (priv : list projection)
  : outcome (list projection) :=
  match priv with
  | [] => Returned PARSE_ERROR_MISSING_RECORD_HEADER priv
  | proj :: next =>
      Returned PARSE_ERROR_NONE (set_proj_numerator num proj :: next)
  end.

Definition parse_projection_denominator (denom : random) (priv : list projection)
  : outcome (list projection) :=
  match priv with
  | [] => Returned PARSE_ERROR_MISSING_RECORD_HEADER priv
  | proj :: next =>
      Returned PARSE_ERROR_NONE (set_proj_denominator denom proj :: next)
  end.

Definition parse_projection_divisor (div : Z) (priv : list projection)
  : outcome (list projection) :=
  match priv with
  | [] => Returned PARSE_ERROR_MISSING_RECORD_HEADER priv
  | proj :: next =>
      Returned PARSE_ERROR_NONE (set_proj_divisor div proj :: next)
  end.

Definition parse_projection_damage_cap (cap : Z) (priv : list projection)
  : outcome (list projection) :=
  match priv with
  | [] => Returned PARSE_ERROR_MISSING_RECORD_HEADER priv
  | proj :: next =>
      Returned PARSE_ERROR_NONE (set_proj_damage_cap cap proj :: next)
  end.

Definition parse_projection_message_type (type : string) (priv : list projection)
  : outcome (list projection) :=
  match priv with
  | [] => Stopped AssertFailed
  | proj :: next =>
      let msg_index := message_lookup_by_name type in
      if msg_index <? 0 then Returned PARSE_ERROR_INVALID_MESSAGE priv
      else Returned PARSE_ERROR_NONE (set_proj_msgt msg_index proj :: next)
  end.

Definition parse_projection_obvious (answer : Z) (priv : list projection)
  : outcome (list projection) :=
  let obvious := answer in
  match priv with
  | [] => Returned PARSE_ERROR_MISSING_RECORD_HEADER priv
  | proj :: next =>
      Returned PARSE_ERROR_NONE
        (set_proj_obvious (if obvious =? 1 then true else false) proj :: next)
  end.

Definition parse_projection_color (color : string) (priv : list projection)
  : outcome (list projection) :=
  match priv with
  | [] => Stopped AssertFailed
  | proj :: next =>
      let attr := color_attr color in
      if attr <? 0 then Returned PARSE_ERROR_INVALID_COLOR priv
      else Returned PARSE_ERROR_NONE (set_proj_color attr proj :: next)
  end.

(** The [while (s)] loop of parse_projection_pvp_flags over the tokens. *)
Fixpoint pvp_flags_loop (toks : list string) (proj : projection)
  : parser_error * projection :=
  match toks with
  | [] => (PARSE_ERROR_NONE, proj)
  | s :: rest =>
      if streq s "SAVE" then
        pvp_flags_loop rest (set_proj_flags (Z.lor (proj_flags proj) ATT_SAVE) proj)
      else if streq s "DAMAGE" then
        pvp_flags_loop rest (set_proj_flags (Z.lor (proj_flags proj) ATT_DAMAGE) proj)
      else if streq s "NON_PHYS" then
        pvp_flags_loop rest (set_proj_flags (Z.lor (proj_flags proj) ATT_NON_PHYS) proj)
      else if streq s "RAW" then
        pvp_flags_loop rest (set_proj_flags (Z.lor (proj_flags proj) ATT_RAW) proj)
      else (PARSE_ERROR_INVALID_FLAG, proj)
  end.

Definition parse_projection_pvp_flags (flags : option string) (priv : list projection)
  : outcome (list projection) :=
  match priv with
  | [] => Returned PARSE_ERROR_MISSING_RECORD_HEADER priv
  | proj :: next =>
      match flags with
      | None => Returned PARSE_ERROR_NONE priv
      | Some flags =>
          let '(e, proj') := pvp_flags_loop (strtok_all flags) proj in
          Returned e (proj' :: next)
      end
  end.

Definition parse_projection_threat (threat : string) (priv : list projection)
  : outcome (list projection) :=
  match priv with
  | [] => Returned PARSE_ERROR_MISSING_RECORD_HEADER priv
  | proj :: next =>
      Returned PARSE_ERROR_NONE (set_proj_threat (Some threat) proj :: next)
  end.

Definition parse_projection_threat_flag (flag_name : string) (priv : list projection)
  : outcome (list projection) :=
  match priv with
  | [] => Returned PARSE_ERROR_MISSING_RECORD_HEADER priv
  | proj :: next =>
      let flag := lookup_flag_r_info flag_name in
      if flag =? FLAG_END then Returned PARSE_ERROR_INVALID_FLAG priv
      else Returned PARSE_ERROR_NONE (set_proj_threat_flag flag proj :: next)
  end.

(** A line of projection.txt as the grammar of init_parse_projection reads
    it: the directive with its coerced arguments. *)
Inductive projection_line : Type :=
| PL_code (code : string)
| PL_name (name : string)
| PL_type (type : string)
| PL_desc (desc : string)
| PL_blind_desc (desc : string)
| PL_lash_desc (desc : string)
| PL_numerator (num : Z)
| PL_denominator (denom : random)
| PL_divisor (div : Z)
| PL_damage_cap (cap : Z)
| PL_msgt (type : string)
| PL_obvious (answer : Z)
| PL_color (color : string)
| PL_pvp_flags (flags : option string)
| PL_threat (threat : string)
| PL_threat_flag (flag : string).

(** The callback init_parse_projection registers for each directive. *)
Definition projection_callback (l : projection_line)
  : list projection -> outcome (list projection) :=
  match l with
  | PL_code code => parse_projection_code code
  | PL_name name => parse_projection_name name
  | PL_type type => parse_projection_type type
  | PL_desc desc => parse_projection_desc desc
  | PL_blind_desc desc => parse_projection_blind_desc desc
  | PL_lash_desc desc => parse_projection_lash_desc desc
  | PL_numerator num => parse_projection_numerator num
  | PL_denominator denom => parse_projection_denominator denom
  | PL_divisor div => parse_projection_divisor div
  | PL_damage_cap cap => parse_projection_damage_cap cap
  | PL_msgt type => parse_projection_message_type type
  | PL_obvious answer => parse_projection_obvious answer
  | PL_color color => parse_projection_color color
  | PL_pvp_flags flags => parse_projection_pvp_flags flags
  | PL_threat threat => parse_projection_threat threat
  | PL_threat_flag flag => parse_projection_threat_flag flag
  end.

(** ** Running a file

    The line source hands the lines to the registered callbacks one after the
    other; the first callback that does not return PARSE_ERROR_NONE ends the
    file with its error (or its fault). *)
Section run_file.
Context {L S : Type}.
Variable callback : L -> S -> outcome S.

Fixpoint run_lines (lines : list L) (priv : S) : outcome S :=
  match lines with
  | [] => Returned PARSE_ERROR_NONE priv
  | l :: rest =>
      match callback l priv with
      | Returned PARSE_ERROR_NONE priv' => run_lines rest priv'
      | other => other
      end
  end.
End run_file.

(** finish_parse_projection: the table keeps no [next] link
    ([projections[count].next = NULL]), so a row is the node as parsed. *)
Definition finish_parse_projection (priv : list projection) : Z * list projection :=
  finish_list projection_zero (fun _ _ node => node) priv.

(** ** Flag sets, element information and the token loops *)

(** flag_on / kf_on: set one bit of a flag set. *)
Definition flag_on (flags : Z) (flag : nat) : Z :=
  Z.lor flags (Z.shiftl 1 (Z.of_nat flag)).

(** flag_has / kf_has *)
Definition flag_has (flags : Z) (flag : nat) : bool :=
  Z.testbit flags (Z.of_nat flag).

(** kf_union(a, b): a |= b *)
Definition kf_union (a b : Z) : Z := Z.lor a b.

(** Position of the first entry of a name table equal to [name]. *)
Fixpoint name_index (names : list string) (name : string) : option nat :=
  match names with
  | [] => None
  | n :: rest =>
      if streq n name then Some 0%nat
      else S <$> name_index rest name
  end.

(** Modelled from the spec: grab_flag (with lookup_flag) is not under src/.
    Section 4.4: a plain flag name is matched against a named flag table and a
    match sets a bit in the flag set given; here the bit is the position of
    the name in the table.  [None] is the non-zero return (no match, flag set
    untouched), [Some flags'] the zero return. *)
Definition grab_flag (flags : Z) (flag_table : list string) (flag_name : string)
  : option Z :=
  match name_index flag_table flag_name with
  | Some flag => Some (flag_on flags flag)
  | None => None
  end.

(** struct element_info *)
Record element_info : Type := mk_element_info {
  res_level : Z;
  el_flags : Z }.

Definition element_info_zero : element_info := mk_element_info 0 0.

(** info[i].flags |= bits *)
Definition el_flags_or (bits : Z) (e : element_info) : element_info :=
  mk_element_info (res_level e) (Z.lor (el_flags e) bits).

(** info[i].res_level = value *)
Definition set_res_level (value : Z) (e : element_info) : element_info :=
  mk_element_info value (el_flags e).

(** The two conversions of sscanf(flag_name, "%[^_]_%s", prefix, suffix).
    [%[^_]] reads the longest run of characters other than the underscore and
    fails on an empty run; [_] must then be the next character; [%s] skips
    white space and reads the longest run of characters that are not white
    space, failing on an empty one.  The result is [Some (prefix, suffix)]
    when sscanf returns 2.  (The C buffers hold 19 characters each; strings
    are unbounded here.) *)
Definition is_space (c : ascii) : bool :=
  let n := nat_of_ascii c in
  Nat.eqb n 32 || (Nat.leb 9 n && Nat.leb n 13).

Fixpoint scan_not_underscore (s : string) : string * string :=
  match s with
  | EmptyString => (EmptyString, EmptyString)
  | String c rest =>
      if Ascii.eqb c "_"%char then (EmptyString, s)
      else let '(m, r) := scan_not_underscore rest in (String c m, r)
  end.

Fixpoint skip_spaces (s : string) : string :=
  match s with
  | EmptyString => EmptyString
  | String c rest => if is_space c then skip_spaces rest else s
  end.

Fixpoint scan_word (s : string) : string :=
  match s with
  | EmptyString => EmptyString
  | String c rest => if is_space c then EmptyString else String c (scan_word rest)
  end.

Definition sscanf_prefix_suffix (flag_name : string) : option (string * string) :=
  let '(prefix, rest) := scan_not_underscore flag_name in
  match prefix, rest with
  | EmptyString, _ => None
  | _, EmptyString => None
  | _, String _ after =>
      match scan_word (skip_spaces after) with
      | EmptyString => None
      | suffix => Some (prefix, suffix)
      end
  end.

(** The [for (i = 0; i < ELEM_MAX; i++)] loop of grab_element_flag, from
    element [i] on. *)
Fixpoint grab_element_loop (names : list string) (i : nat) (prefix suffix : string)
  (info : list element_info) : option (list element_info) :=
  match names with
  | [] => None
  | n :: rest =>
      if streq suffix n then
        if streq prefix "IGNORE" then Some (alter (el_flags_or EL_INFO_IGNORE) i info)
        else if streq prefix "HATES" then Some (alter (el_flags_or EL_INFO_HATES) i info)
        else grab_element_loop rest (S i) prefix suffix info
      else grab_element_loop rest (S i) prefix suffix info
  end.

(** grab_element_flag: [Some info'] is [true], [None] is [false]. *)
Definition grab_element_flag (info : list element_info) (flag_name : string)
  : option (list element_info) :=
  match sscanf_prefix_suffix flag_name with
  | None => None
  | Some (prefix, suffix) =>
      grab_element_loop list_element_names 0%nat prefix suffix info
  end.

(** The token loop every flags and values callback runs:

      t = strtok(s, " |");
      while (t) {
          bool found = false;
          if (<matcher 1 takes t>) found = true;
          ...
          if (!found) break;
          t = strtok(NULL, " |");
      }
      return (t? <error>: PARSE_ERROR_NONE);

    A matcher takes the token and the record and answers [Some] of the record
    it wrote to when it recognised the token, [None] (nothing written) when it
    did not. *)
Section token_loop.
Context {R : Type}.

Definition matcher : Type := string -> R -> option R.

(** The [if] lines of one pass, in order. *)
Fixpoint try_matchers (ms : list matcher) (t : string) (found : bool) (r : R)
  : bool * R :=
  match ms with
  | [] => (found, r)
  | m :: rest =>
      match m t r with
      | Some r' => try_matchers rest t true r'
      | None => try_matchers rest t found r
      end
  end.

(** The loop; the first component is [t] on exit (NULL when every token was
    taken). *)
Fixpoint token_loop (ms : list matcher) (toks : list string) (r : R)
  : option string * R :=
  match toks with
  | [] => (None, r)
  | t :: rest =>
      let '(found, r') := try_matchers ms t false r in
      if found then token_loop ms rest r' else (Some t, r')
  end.
End token_loop.

(** return (t? error: PARSE_ERROR_NONE); *)
Definition error_if_token (t : option string) (error : parser_error) : parser_error :=
  match t with
  | Some _ => error
  | None => PARSE_ERROR_NONE
  end.

(** ** Records

    The struct declarations are in headers outside obj-init.c; a record lists
    the fields the callbacks and phases embedded below read or write.  The
    [next] link of a list node is the tail of the Rocq list; a record has a
    [next] field where the finish phase links the rows of the table, and it
    then holds the index of the row pointed to. *)

(** Dice and expressions are handled through z-dice.c and z-expression.c. *)
Variable dice_t : Type.
Variable expression_t : Type.
Variable expression_base_value_f : Type.
Variable dice_new : option dice_t.
Variable dice_parse_string : dice_t -> string -> option dice_t.
Variable expression_new : option expression_t.
Variable spell_value_base_by_name : string -> expression_base_value_f.
Variable power_calculation_by_name : string -> expression_base_value_f.
Variable expression_set_base_value :
  expression_t -> expression_base_value_f -> expression_t.
Variable expression_add_operations_string : expression_t -> string -> Z * expression_t.
Variable dice_bind_expression : dice_t -> string -> expression_t -> Z * dice_t.

(** struct object_base *)
Record object_base : Type := mk_object_base {
  kb_name : option string;
  kb_tval : Z;
  kb_attr : Z;
  kb_flags : Z;
  kb_kind_flags : Z;
  kb_el_info : list element_info;
  kb_break_perc : Z;
  kb_max_stack : Z;
  kb_num_svals : Z }.

Definition set_kb_name (v : option string) (r : object_base) : object_base :=
  mk_object_base v (kb_tval r) (kb_attr r) (kb_flags r) (kb_kind_flags r)
    (kb_el_info r) (kb_break_perc r) (kb_max_stack r) (kb_num_svals r).
Definition set_kb_tval (v : Z) (r : object_base) : object_base :=
  mk_object_base (kb_name r) v (kb_attr r) (kb_flags r) (kb_kind_flags r)
    (kb_el_info r) (kb_break_perc r) (kb_max_stack r) (kb_num_svals r).
Definition set_kb_flags (v : Z) (r : object_base) : object_base :=
  mk_object_base (kb_name r) (kb_tval r) (kb_attr r) v (kb_kind_flags r)
    (kb_el_info r) (kb_break_perc r) (kb_max_stack r) (kb_num_svals r).
Definition set_kb_kind_flags (v : Z) (r : object_base) : object_base :=
  mk_object_base (kb_name r) (kb_tval r) (kb_attr r) (kb_flags r) v
    (kb_el_info r) (kb_break_perc r) (kb_max_stack r) (kb_num_svals r).
Definition set_kb_el_info (v : list element_info) (r : object_base) : object_base :=
  mk_object_base (kb_name r) (kb_tval r) (kb_attr r) (kb_flags r)
    (kb_kind_flags r) v (kb_break_perc r) (kb_max_stack r) (kb_num_svals r).
Definition set_kb_break_perc (v : Z) (r : object_base) : object_base :=
  mk_object_base (kb_name r) (kb_tval r) (kb_attr r) (kb_flags r)
    (kb_kind_flags r) (kb_el_info r) v (kb_max_stack r) (kb_num_svals r).
Definition set_kb_max_stack (v : Z) (r : object_base) : object_base :=
  mk_object_base (kb_name r) (kb_tval r) (kb_attr r) (kb_flags r)
    (kb_kind_flags r) (kb_el_info r) (kb_break_perc r) v (kb_num_svals r).
Definition set_kb_num_svals (v : Z) (r : object_base) : object_base :=
  mk_object_base (kb_name r) (kb_tval r) (kb_attr r) (kb_flags r)
    (kb_kind_flags r) (kb_el_info r) (kb_break_perc r) (kb_max_stack r) v.

(** struct effect *)
Record effect : Type := mk_effect {
  eff_dice : option dice_t;
  eff_y : Z;
  eff_x : Z }.

Definition set_eff_dice (v : option dice_t) (r : effect) : effect :=
  mk_effect v (eff_y r) (eff_x r).

(** struct object, as a curse carries one *)
Record object : Type := mk_object {
  obj_flags : Z;
  obj_el_info : list element_info;
  obj_modifiers : list Z;
  obj_effect : list effect }.

Definition set_obj_effect (v : list effect) (r : object) : object :=
  mk_object (obj_flags r) (obj_el_info r) (obj_modifiers r) v.

(** struct curse *)
Record curse : Type := mk_curse {
  curse_name : option string;
  curse_obj : object;
  curse_poss : list bool;
  curse_conflict_flags : Z }.

Definition set_curse_obj (v : object) (r : curse) : curse :=
  mk_curse (curse_name r) v (curse_poss r) (curse_conflict_flags r).

(** struct activation *)
Record activation : Type := mk_activation {
  act_name : option string;
  act_index : Z;
  act_effect : list effect;
  act_next : option Z }.

Definition set_act_index (v : Z) (r : activation) : activation :=
  mk_activation (act_name r) v (act_effect r) (act_next r).
Definition set_act_effect (v : list effect) (r : activation) : activation :=
  mk_activation (act_name r) (act_index r) v (act_next r).
Definition set_act_next (v : option Z) (r : activation) : activation :=
  mk_activation (act_name r) (act_index r) (act_effect r) v.

(** struct power_calc *)
Record power_calc : Type := mk_power_calc {
  calc_name : option string;
  calc_dice : option dice_t }.

Definition set_calc_dice (v : option dice_t) (r : power_calc) : power_calc :=
  mk_power_calc (calc_name r) v.

(** struct slay; [code] is set by the directive that creates the record *)
Record slay : Type := mk_slay {
  slay_code : string;
  slay_name : option string;
  slay_multiplier : Z;
  slay_power : Z }.

Definition set_slay_multiplier (v : Z) (r : slay) : slay :=
  mk_slay (slay_code r) (slay_name r) v (slay_power r).
Definition set_slay_power (v : Z) (r : slay) : slay :=
  mk_slay (slay_code r) (slay_name r) (slay_multiplier r) v.

(** struct brand; [code] is set by the directive that creates the record *)
Record brand : Type := mk_brand {
  brand_code : string;
  brand_name : option string;
  brand_multiplier : Z;
  brand_power : Z }.

Definition set_brand_multiplier (v : Z) (r : brand) : brand :=
  mk_brand (brand_code r) (brand_name r) v (brand_power r).
Definition set_brand_power (v : Z) (r : brand) : brand :=
  mk_brand (brand_code r) (brand_name r) (brand_multiplier r) v.

(** struct object_kind *)
Record object_kind : Type := mk_object_kind {
  k_name : option string;
  k_text : option string;
  k_tval : Z;
  k_sval : Z;
  k_kidx : Z;
  k_level : Z;
  k_weight : Z;
  k_d_char : ascii;
  k_d_attr : Z;
  k_time : random;
  k_flags : Z;
  k_kind_flags : Z;
  k_el_info : list element_info;
  k_modifiers : list random;
  k_effect : list effect;
  k_slays : option (list bool);
  k_brands : option (list bool);
  k_curses : option (list Z);
  k_next : option Z }.

Definition set_k_name (v : option string) (r : object_kind) : object_kind :=
  mk_object_kind v (k_text r) (k_tval r) (k_sval r) (k_kidx r) (k_level r)
    (k_weight r) (k_d_char r) (k_d_attr r) (k_time r) (k_flags r)
    (k_kind_flags r) (k_el_info r) (k_modifiers r) (k_effect r) (k_slays r)
    (k_brands r) (k_curses r) (k_next r).
Definition set_k_text (v : option string) (r : object_kind) : object_kind :=
  mk_object_kind (k_name r) v (k_tval r) (k_sval r) (k_kidx r) (k_level r)
    (k_weight r) (k_d_char r) (k_d_attr r) (k_time r) (k_flags r)
    (k_kind_flags r) (k_el_info r) (k_modifiers r) (k_effect r) (k_slays r)
    (k_brands r) (k_curses r) (k_next r).
Definition set_k_tval (v : Z) (r : object_kind) : object_kind :=
  mk_object_kind (k_name r) (k_text r) v (k_sval r) (k_kidx r) (k_level r)
    (k_weight r) (k_d_char r) (k_d_attr r) (k_time r) (k_flags r)
    (k_kind_flags r) (k_el_info r) (k_modifiers r) (k_effect r) (k_slays r)
    (k_brands r) (k_curses r) (k_next r).
Definition set_k_sval (v : Z) (r : object_kind) : object_kind :=
  mk_object_kind (k_name r) (k_text r) (k_tval r) v (k_kidx r) (k_level r)
    (k_weight r) (k_d_char r) (k_d_attr r) (k_time r) (k_flags r)
    (k_kind_flags r) (k_el_info r) (k_modifiers r) (k_effect r) (k_slays r)
    (k_brands r) (k_curses r) (k_next r).
Definition set_k_kidx (v : Z) (r : object_kind) : object_kind :=
  mk_object_kind (k_name r) (k_text r) (k_tval r) (k_sval r) v (k_level r)
    (k_weight r) (k_d_char r) (k_d_attr r) (k_time r) (k_flags r)
    (k_kind_flags r) (k_el_info r) (k_modifiers r) (k_effect r) (k_slays r)
    (k_brands r) (k_curses r) (k_next r).
Definition set_k_level (v : Z) (r : object_kind) : object_kind :=
  mk_object_kind (k_name r) (k_text r) (k_tval r) (k_sval r) (k_kidx r) v
    (k_weight r) (k_d_char r) (k_d_attr r) (k_time r) (k_flags r)
    (k_kind_flags r) (k_el_info r) (k_modifiers r) (k_effect r) (k_slays r)
    (k_brands r) (k_curses r) (k_next r).
Definition set_k_weight (v : Z) (r : object_kind) : object_kind :=
  mk_object_kind (k_name r) (k_text r) (k_tval r) (k_sval r) (k_kidx r)
    (k_level r) v (k_d_char r) (k_d_attr r) (k_time r) (k_flags r)
    (k_kind_flags r) (k_el_info r) (k_modifiers r) (k_effect r) (k_slays r)
    (k_brands r) (k_curses r) (k_next r).
Definition set_k_d_char (v : ascii) (r : object_kind) : object_kind :=
  mk_object_kind (k_name r) (k_text r) (k_tval r) (k_sval r) (k_kidx r)
    (k_level r) (k_weight r) v (k_d_attr r) (k_time r) (k_flags r)
    (k_kind_flags r) (k_el_info r) (k_modifiers r) (k_effect r) (k_slays r)
    (k_brands r) (k_curses r) (k_next r).
Definition set_k_d_attr (v : Z) (r : object_kind) : object_kind :=
  mk_object_kind (k_name r) (k_text r) (k_tval r) (k_sval r) (k_kidx r)
    (k_level r) (k_weight r) (k_d_char r) v (k_time r) (k_flags r)
    (k_kind_flags r) (k_el_info r) (k_modifiers r) (k_effect r) (k_slays r)
    (k_brands r) (k_curses r) (k_next r).
Definition set_k_time (v : random) (r : object_kind) : object_kind :=
  mk_object_kind (k_name r) (k_text r) (k_tval r) (k_sval r) (k_kidx r)
    (k_level r) (k_weight r) (k_d_char r) (k_d_attr r) v (k_flags r)
    (k_kind_flags r) (k_el_info r) (k_modifiers r) (k_effect r) (k_slays r)
    (k_brands r) (k_curses r) (k_next r).
Definition set_k_flags (v : Z) (r : object_kind) : object_kind :=
  mk_object_kind (k_name r) (k_text r) (k_tval r) (k_sval r) (k_kidx r)
    (k_level r) (k_weight r) (k_d_char r) (k_d_attr r) (k_time r) v
    (k_kind_flags r) (k_el_info r) (k_modifiers r) (k_effect r) (k_slays r)
    (k_brands r) (k_curses r) (k_next r).
Definition set_k_kind_flags (v : Z) (r : object_kind) : object_kind :=
  mk_object_kind (k_name r) (k_text r) (k_tval r) (k_sval r) (k_kidx r)
    (k_level r) (k_weight r) (k_d_char r) (k_d_attr r) (k_time r) (k_flags r)
    v (k_el_info r) (k_modifiers r) (k_effect r) (k_slays r) (k_brands r)
    (k_curses r) (k_next r).
Definition set_k_el_info (v : list element_info) (r : object_kind) : object_kind :=
  mk_object_kind (k_name r) (k_text r) (k_tval r) (k_sval r) (k_kidx r)
    (k_level r) (k_weight r) (k_d_char r) (k_d_attr r) (k_time r) (k_flags r)
    (k_kind_flags r) v (k_modifiers r) (k_effect r) (k_slays r) (k_brands r)
    (k_curses r) (k_next r).
Definition set_k_modifiers (v : list random) (r : object_kind) : object_kind :=
  mk_object_kind (k_name r) (k_text r) (k_tval r) (k_sval r) (k_kidx r)
    (k_level r) (k_weight r) (k_d_char r) (k_d_attr r) (k_time r) (k_flags r)
    (k_kind_flags r) (k_el_info r) v (k_effect r) (k_slays r) (k_brands r)
    (k_curses r) (k_next r).
Definition set_k_effect (v : list effect) (r : object_kind) : object_kind :=
  mk_object_kind (k_name r) (k_text r) (k_tval r) (k_sval r) (k_kidx r)
    (k_level r) (k_weight r) (k_d_char r) (k_d_attr r) (k_time r) (k_flags r)
    (k_kind_flags r) (k_el_info r) (k_modifiers r) v (k_slays r) (k_brands r)
    (k_curses r) (k_next r).
Definition set_k_slays (v : option (list bool)) (r : object_kind) : object_kind :=
  mk_object_kind (k_name r) (k_text r) (k_tval r) (k_sval r) (k_kidx r)
    (k_level r) (k_weight r) (k_d_char r) (k_d_attr r) (k_time r) (k_flags r)
    (k_kind_flags r) (k_el_info r) (k_modifiers r) (k_effect r) v (k_brands r)
    (k_curses r) (k_next r).
Definition set_k_brands (v : option (list bool)) (r : object_kind) : object_kind :=
  mk_object_kind (k_name r) (k_text r) (k_tval r) (k_sval r) (k_kidx r)
    (k_level r) (k_weight r) (k_d_char r) (k_d_attr r) (k_time r) (k_flags r)
    (k_kind_flags r) (k_el_info r) (k_modifiers r) (k_effect r) (k_slays r) v
    (k_curses r) (k_next r).
Definition set_k_curses (v : option (list Z)) (r : object_kind) : object_kind :=
  mk_object_kind (k_name r) (k_text r) (k_tval r) (k_sval r) (k_kidx r)
    (k_level r) (k_weight r) (k_d_char r) (k_d_attr r) (k_time r) (k_flags r)
    (k_kind_flags r) (k_el_info r) (k_modifiers r) (k_effect r) (k_slays r)
    (k_brands r) v (k_next r).
Definition set_k_next (v : option Z) (r : object_kind) : object_kind :=
  mk_object_kind (k_name r) (k_text r) (k_tval r) (k_sval r) (k_kidx r)
    (k_level r) (k_weight r) (k_d_char r) (k_d_attr r) (k_time r) (k_flags r)
    (k_kind_flags r) (k_el_info r) (k_modifiers r) (k_effect r) (k_slays r)
    (k_brands r) (k_curses r) v.

(** struct ego_item; [poss_items] is the list of the kidx of its poss_item nodes, newest first *)
Record ego_item : Type := mk_ego_item {
  e_name : option string;
  e_text : option string;
  e_eidx : Z;
  e_rating : Z;
  e_alloc_prob : Z;
  e_alloc_min : Z;
  e_alloc_max : Z;
  e_poss_items : list Z;
  e_time : random;
  e_slays : option (list bool);
  e_brands : option (list bool);
  e_curses : option (list Z);
  e_next : option Z }.

Definition set_e_name (v : option string) (r : ego_item) : ego_item :=
  mk_ego_item v (e_text r) (e_eidx r) (e_rating r) (e_alloc_prob r)
    (e_alloc_min r) (e_alloc_max r) (e_poss_items r) (e_time r) (e_slays r)
    (e_brands r) (e_curses r) (e_next r).
Definition set_e_eidx (v : Z) (r : ego_item) : ego_item :=
  mk_ego_item (e_name r) (e_text r) v (e_rating r) (e_alloc_prob r)
    (e_alloc_min r) (e_alloc_max r) (e_poss_items r) (e_time r) (e_slays r)
    (e_brands r) (e_curses r) (e_next r).
Definition set_e_alloc_prob (v : Z) (r : ego_item) : ego_item :=
  mk_ego_item (e_name r) (e_text r) (e_eidx r) (e_rating r) v (e_alloc_min r)
    (e_alloc_max r) (e_poss_items r) (e_time r) (e_slays r) (e_brands r)
    (e_curses r) (e_next r).
Definition set_e_alloc_min (v : Z) (r : ego_item) : ego_item :=
  mk_ego_item (e_name r) (e_text r) (e_eidx r) (e_rating r) (e_alloc_prob r) v
    (e_alloc_max r) (e_poss_items r) (e_time r) (e_slays r) (e_brands r)
    (e_curses r) (e_next r).
Definition set_e_alloc_max (v : Z) (r : ego_item) : ego_item :=
  mk_ego_item (e_name r) (e_text r) (e_eidx r) (e_rating r) (e_alloc_prob r)
    (e_alloc_min r) v (e_poss_items r) (e_time r) (e_slays r) (e_brands r)
    (e_curses r) (e_next r).
Definition set_e_poss_items (v : list Z) (r : ego_item) : ego_item :=
  mk_ego_item (e_name r) (e_text r) (e_eidx r) (e_rating r) (e_alloc_prob r)
    (e_alloc_min r) (e_alloc_max r) v (e_time r) (e_slays r) (e_brands r)
    (e_curses r) (e_next r).
Definition set_e_slays (v : option (list bool)) (r : ego_item) : ego_item :=
  mk_ego_item (e_name r) (e_text r) (e_eidx r) (e_rating r) (e_alloc_prob r)
    (e_alloc_min r) (e_alloc_max r) (e_poss_items r) (e_time r) v (e_brands r)
    (e_curses r) (e_next r).
Definition set_e_brands (v : option (list bool)) (r : ego_item) : ego_item :=
  mk_ego_item (e_name r) (e_text r) (e_eidx r) (e_rating r) (e_alloc_prob r)
    (e_alloc_min r) (e_alloc_max r) (e_poss_items r) (e_time r) (e_slays r) v
    (e_curses r) (e_next r).
Definition set_e_next (v : option Z) (r : ego_item) : ego_item :=
  mk_ego_item (e_name r) (e_text r) (e_eidx r) (e_rating r) (e_alloc_prob r)
    (e_alloc_min r) (e_alloc_max r) (e_poss_items r) (e_time r) (e_slays r)
    (e_brands r) (e_curses r) v.

(** struct artifact *)
Record artifact : Type := mk_artifact {
  a_name : option string;
  a_text : option string;
  a_aidx : Z;
  a_tval : Z;
  a_sval : Z;
  a_level : Z;
  a_weight : Z;
  a_el_info : list element_info;
  a_slays : option (list bool);
  a_brands : option (list bool);
  a_curses : option (list Z);
  a_next : option Z }.

Definition set_a_name (v : option string) (r : artifact) : artifact :=
  mk_artifact v (a_text r) (a_aidx r) (a_tval r) (a_sval r) (a_level r)
    (a_weight r) (a_el_info r) (a_slays r) (a_brands r) (a_curses r)
    (a_next r).
Definition set_a_aidx (v : Z) (r : artifact) : artifact :=
  mk_artifact (a_name r) (a_text r) v (a_tval r) (a_sval r) (a_level r)
    (a_weight r) (a_el_info r) (a_slays r) (a_brands r) (a_curses r)
    (a_next r).
Definition set_a_tval (v : Z) (r : artifact) : artifact :=
  mk_artifact (a_name r) (a_text r) (a_aidx r) v (a_sval r) (a_level r)
    (a_weight r) (a_el_info r) (a_slays r) (a_brands r) (a_curses r)
    (a_next r).
Definition set_a_sval (v : Z) (r : artifact) : artifact :=
  mk_artifact (a_name r) (a_text r) (a_aidx r) (a_tval r) v (a_level r)
    (a_weight r) (a_el_info r) (a_slays r) (a_brands r) (a_curses r)
    (a_next r).
Definition set_a_level (v : Z) (r : artifact) : artifact :=
  mk_artifact (a_name r) (a_text r) (a_aidx r) (a_tval r) (a_sval r) v
    (a_weight r) (a_el_info r) (a_slays r) (a_brands r) (a_curses r)
    (a_next r).
Definition set_a_weight (v : Z) (r : artifact) : artifact :=
  mk_artifact (a_name r) (a_text r) (a_aidx r) (a_tval r) (a_sval r)
    (a_level r) v (a_el_info r) (a_slays r) (a_brands r) (a_curses r)
    (a_next r).
Definition set_a_el_info (v : list element_info) (r : artifact) : artifact :=
  mk_artifact (a_name r) (a_text r) (a_aidx r) (a_tval r) (a_sval r)
    (a_level r) (a_weight r) v (a_slays r) (a_brands r) (a_curses r)
    (a_next r).
Definition set_a_slays (v : option (list bool)) (r : artifact) : artifact :=
  mk_artifact (a_name r) (a_text r) (a_aidx r) (a_tval r) (a_sval r)
    (a_level r) (a_weight r) (a_el_info r) v (a_brands r) (a_curses r)
    (a_next r).
Definition set_a_brands (v : option (list bool)) (r : artifact) : artifact :=
  mk_artifact (a_name r) (a_text r) (a_aidx r) (a_tval r) (a_sval r)
    (a_level r) (a_weight r) (a_el_info r) (a_slays r) v (a_curses r)
    (a_next r).
Definition set_a_next (v : option Z) (r : artifact) : artifact :=
  mk_artifact (a_name r) (a_text r) (a_aidx r) (a_tval r) (a_sval r)
    (a_level r) (a_weight r) (a_el_info r) (a_slays r) (a_brands r)
    (a_curses r) v.

(** ** Object bases (object_base.txt) *)

(** struct element_info el_info[ELEM_MAX], zeroed *)
Definition el_info_zero : list element_info :=
  replicate (length list_element_names) element_info_zero.

Definition object_base_zero : object_base :=
  mk_object_base None 0 0 0 0 el_info_zero 0 0 0.

Record kb_parsedata : Type := mk_kb_parsedata {
  defaults : object_base;
  kb : list object_base }.

(** init_parse_object_base: d = mem_zalloc(sizeof *d) *)
Definition init_parse_object_base : kb_parsedata :=
  mk_kb_parsedata object_base_zero [].

Definition parse_object_base_defaults (label : string) (value : Z) (d : kb_parsedata)
  : outcome kb_parsedata :=
  if streq label "break-chance" then
    Returned PARSE_ERROR_NONE
      (mk_kb_parsedata (set_kb_break_perc value (defaults d)) (kb d))
  else if streq label "max-stack" then
    Returned PARSE_ERROR_NONE
      (mk_kb_parsedata (set_kb_max_stack value (defaults d)) (kb d))
  else Returned PARSE_ERROR_UNDEFINED_DIRECTIVE d.

Definition parse_object_base_name (tval : string) (name : option string)
  (d : kb_parsedata) : outcome kb_parsedata :=
  let kb0 := set_kb_tval (tval_find_idx tval) (defaults d) in
  if kb_tval kb0 =? -1 then
    Returned PARSE_ERROR_UNRECOGNISED_TVAL (mk_kb_parsedata (defaults d) (kb0 :: kb d))
  else
    let kb1 := match name with
               | Some n => set_kb_name (Some n) kb0
               | None => kb0
               end in
    Returned PARSE_ERROR_NONE
      (mk_kb_parsedata (defaults d) (set_kb_num_svals 0 kb1 :: kb d)).




(** The three [if] lines of parse_object_base_flags. *)
Definition object_base_flag_matchers : list (@matcher object_base) :=
  [ (fun t kb0 => (fun f => set_kb_flags f kb0)
                    <$> grab_flag (kb_flags kb0) list_obj_flag_names t);
    (fun t kb0 => (fun f => set_kb_kind_flags f kb0)
                    <$> grab_flag (kb_kind_flags kb0) kind_flags t);
    (fun t kb0 => (fun i => set_kb_el_info i kb0)
                    <$> grab_element_flag (kb_el_info kb0) t) ].

Definition parse_object_base_flags (flags : string) (d : kb_parsedata)
  : outcome kb_parsedata :=
  match kb d with
  | [] => Stopped AssertFailed
  | kb0 :: next =>
      let '(t, kb1) := token_loop object_base_flag_matchers (strtok_all flags) kb0 in
      Returned (error_if_token t PARSE_ERROR_INVALID_FLAG)
        (mk_kb_parsedata (defaults d) (kb1 :: next))
  end.



(** What a loop that may not end comes to. *)
Inductive loop_result (A : Type) : Type :=
| Finished (a : A)
| Diverges.

Arguments Finished {A} a.
Arguments Diverges {A}.

(** The loop of finish_parse_object_base:

      for (kb = d->kb; kb; kb = next) {
          if (kb->tval >= TV_MAX) continue;
          memcpy(&kb_info[kb->tval], kb, sizeof *kb);
          kb_info[kb->tval].next = NULL;
          next = kb->next;
          mem_free(kb);
      }

    [continue] leaves [next] as the last copied node set it: NULL before any
    node was copied ([next_is_null]), so the loop ends there; the node itself
    afterwards, so the loop comes back to the same node for ever. *)
Fixpoint kb_copy_loop (l : list object_base) (next_is_null : bool)
  (kb_info : list object_base) : loop_result (list object_base) :=
  match l with
  | [] => Finished kb_info
  | kb0 :: next =>
      if TV_MAX <=? kb_tval kb0 then
        if next_is_null then Finished kb_info else Diverges
      else kb_copy_loop next false (array_set kb_info (kb_tval kb0) kb0)
  end.

(** finish_parse_object_base: kb_info = mem_zalloc(TV_MAX * sizeof *kb_info) *)
Definition finish_parse_object_base (d : kb_parsedata)
  : loop_result (list object_base) :=
  kb_copy_loop (kb d) true (replicate (Z.to_nat TV_MAX) object_base_zero).

(** ** Object kinds (object.txt) *)

(** Helpers of other files that read the tables. *)
Variable grab_rand_value : list random -> list string -> string -> option (list random).
Variable grab_int_value : list Z -> list string -> string -> option (list Z).
(** grab_index_and_int(&value, &index, names, prefix, t): [Some (value, index)]
    is the zero return. *)
Variable grab_index_and_int : list string -> string -> string -> option (Z * Z).
(** lookup_sval and lookup_sval_silent read z_info->k_max and k_info. *)
Variable lookup_sval : Z -> list object_kind -> Z -> string -> Z.
Variable lookup_sval_silent : Z -> list object_kind -> Z -> string -> Z.

Definition modifiers_zero : list random :=
  replicate (length obj_mods) random_zero.

(** mem_zalloc(sizeof(struct object_kind)) *)
Definition object_kind_zero : object_kind :=
  mk_object_kind None None 0 0 0 0 0 Ascii.zero 0 random_zero 0 0 el_info_zero
    modifiers_zero [] None None None None.

(** string_append(s1, s2) of z-virt.c, for a non-NULL s2. *)
Definition string_append (s1 : option string) (s2 : string) : option string :=
  Some (default "" s1 +:+ s2).

(** info[index].res_level = value *)
Definition set_res_level_at (info : list element_info) (index value : Z)
  : list element_info :=
  if 0 <=? index then alter (set_res_level value) (Z.to_nat index) info else info.

(** The rows of a finished table are counted by z_info->..._max. *)
Definition table_max {A : Type} (rows : list A) : Z := Z.of_nat (length rows).

(** for (i = 0; i < max; i++) { if (streq(s, rows[i].code)) break; }
    over the rows from [i] on; the result is [i] after the loop. *)
Fixpoint find_code {A : Type} (code : A -> string) (rows : list A) (s : string) (i : Z)
  : Z :=
  match rows with
  | [] => i
  | r :: rest => if streq s (code r) then i else find_code code rest s (i + 1)
  end.

(** Modelled from the spec: lookup_curse is not under src/.  Section 4.3: a
    linear search by name over the finished curse table; the three callers
    below take the answer z_info->curse_max to mean that no curse has the
    name. *)
Fixpoint lookup_curse_from (curses : list curse) (name : string) (i : Z) : Z :=
  match curses with
  | [] => i
  | c :: rest =>
      if match curse_name c with
         | Some n => streq name n
         | None => false
         end
      then i
      else lookup_curse_from rest name (i + 1)
  end.

Definition lookup_curse (curses : list curse) (name : string) : Z :=
  lookup_curse_from curses name 0.

(** Modelled from the spec: lookup_kind is not under src/.  Section 4.3: a
    linear search over the object-kind table, here for the first of the
    z_info->k_max rows with the tval and sval given; the answer is the index
    of the row ([&k_info[k]]), or [None] for NULL when no row has them. *)
Fixpoint lookup_kind_from (rows : list object_kind) (tval sval : Z) (k : Z) : option Z :=
  match rows with
  | [] => None
  | kind :: rest =>
      if (k_tval kind =? tval) && (k_sval kind =? sval) then Some k
      else lookup_kind_from rest tval sval (k + 1)
  end.

Definition lookup_kind (k_max : Z) (k_info : list object_kind) (tval sval : Z)
  : option Z :=
  lookup_kind_from (take (Z.to_nat k_max) k_info) tval sval 0.

Definition parse_object_name (name : string) (priv : list object_kind)
  : outcome (list object_kind) :=
  Returned PARSE_ERROR_NONE (set_k_name (Some name) object_kind_zero :: priv).

(** parse_object_type writes to the object base of the tval as well: the
    state is the pair of kb_info and the parser's list. *)
Definition parse_object_type (tval_name : string)
  (st : list object_base * list object_kind)
  : outcome (list object_base * list object_kind) :=
  let '(kb_info, priv) := st in
  match priv with
  | [] => Stopped AssertFailed
  | k :: next =>
      let tval := tval_find_idx tval_name in
      if tval <? 0 then Returned PARSE_ERROR_UNRECOGNISED_TVAL st
      else
        match array_get kb_info tval with
        | None => Stopped OutOfBounds
        | Some base =>
            let base' := set_kb_num_svals (kb_num_svals base + 1) base in
            Returned PARSE_ERROR_NONE
              (array_set kb_info tval base',
               set_k_sval (kb_num_svals base') (set_k_tval tval k) :: next)
        end
  end.

Definition parse_object_level (level : Z) (priv : list object_kind)
  : outcome (list object_kind) :=
  match priv with
  | [] => Stopped AssertFailed
  | k :: next => Returned PARSE_ERROR_NONE (set_k_level level k :: next)
  end.

Definition parse_object_weight (weight : Z) (priv : list object_kind)
  : outcome (list object_kind) :=
  match priv with
  | [] => Stopped AssertFailed
  | k :: next => Returned PARSE_ERROR_NONE (set_k_weight weight k :: next)
  end.

Definition parse_object_time (time : random) (priv : list object_kind)
  : outcome (list object_kind) :=
  match priv with
  | [] => Stopped AssertFailed
  | k :: next => Returned PARSE_ERROR_NONE (set_k_time time k :: next)
  end.

Definition parse_object_desc (text : string) (priv : list object_kind)
  : outcome (list object_kind) :=
  match priv with
  | [] => Stopped AssertFailed
  | k :: next =>
      Returned PARSE_ERROR_NONE (set_k_text (string_append (k_text k) text) k :: next)
  end.

(** The three [if] lines of parse_object_flags. *)
Definition object_flag_matchers : list (@matcher object_kind) :=
  [ (fun t k => (fun f => set_k_flags f k)
                  <$> grab_flag (k_flags k) list_obj_flag_names t);
    (fun t k => (fun f => set_k_kind_flags f k)
                  <$> grab_flag (k_kind_flags k) kind_flags t);
    (fun t k => (fun i => set_k_el_info i k)
                  <$> grab_element_flag (k_el_info k) t) ].

Definition parse_object_flags (flags : string) (priv : list object_kind)
  : outcome (list object_kind) :=
  match priv with
  | [] => Stopped AssertFailed
  | k :: next =>
      let '(t, k') := token_loop object_flag_matchers (strtok_all flags) k in
      Returned (error_if_token t PARSE_ERROR_INVALID_FLAG) (k' :: next)
  end.

(** The two [if] lines of parse_object_values. *)
Definition object_value_matchers : list (@matcher object_kind) :=
  [ (fun t k => (fun m => set_k_modifiers m k)
                  <$> grab_rand_value (k_modifiers k) obj_mods t);
    (fun t k => (fun '(value, index) =>
                   set_k_el_info (set_res_level_at (k_el_info k) index value) k)
                  <$> grab_index_and_int list_element_names "RES_" t) ].

Definition parse_object_values (values : string) (priv : list object_kind)
  : outcome (list object_kind) :=
  match priv with
  | [] => Stopped AssertFailed
  | k :: next =>
      let '(t, k') := token_loop object_value_matchers (strtok_all values) k in
      Returned (error_if_token t PARSE_ERROR_INVALID_VALUE) (k' :: next)
  end.

Definition parse_object_dice (string : string) (priv : list object_kind)
  : outcome (list object_kind) :=
  match priv with
  | [] => Returned PARSE_ERROR_MISSING_RECORD_HEADER priv
  | k :: next =>
      match k_effect k with
      | [] => Returned PARSE_ERROR_NONE priv
      | effect0 :: effects =>
          match dice_new with
          | None => Returned PARSE_ERROR_INVALID_DICE priv
          | Some dice =>
              match dice_parse_string dice string with
              | Some dice' =>
                  Returned PARSE_ERROR_NONE
                    (set_k_effect (set_eff_dice (Some dice') effect0 :: effects) k :: next)
              | None => Returned PARSE_ERROR_INVALID_DICE priv
              end
          end
      end
  end.

(** The tail shared by the expr callbacks once the dice to bind to are at
    hand: build the expression and bind it.  The answer is the error with
    the dice as dice_bind_expression left them ([None]: not reached). *)
Definition bind_expression (by_name : string -> expression_base_value_f)
  (dice : dice_t) (name base expr : string) : parser_error * option dice_t :=
  match expression_new with
  | None => (PARSE_ERROR_INVALID_EXPRESSION, None)
  | Some expression =>
      let function := by_name base in
      let expression := expression_set_base_value expression function in
      let '(r, expression) := expression_add_operations_string expression expr in
      if r <? 0 then (PARSE_ERROR_BAD_EXPRESSION_STRING, None)
      else
        let '(r, dice') := dice_bind_expression dice name expression in
        if r <? 0 then (PARSE_ERROR_UNBOUND_EXPRESSION, Some dice')
        else (PARSE_ERROR_NONE, Some dice')
  end.

Definition parse_object_expr (name base expr : string) (priv : list object_kind)
  : outcome (list object_kind) :=
  match priv with
  | [] => Returned PARSE_ERROR_MISSING_RECORD_HEADER priv
  | k :: next =>
      match k_effect k with
      | [] => Returned PARSE_ERROR_NONE priv
      | effect0 :: effects =>
          match eff_dice effect0 with
          | None => Returned PARSE_ERROR_NONE priv
          | Some dice =>
              match bind_expression spell_value_base_by_name dice name base expr with
              | (e, None) => Returned e priv
              | (e, Some dice') =>
                  Returned e
                    (set_k_effect (set_eff_dice (Some dice') effect0 :: effects) k :: next)
              end
          end
      end
  end.

Definition parse_object_slay (s : string) (slays : list slay) (priv : list object_kind)
  : outcome (list object_kind) :=
  match priv with
  | [] => Stopped AssertFailed
  | k :: next =>
      let i := find_code slay_code slays s 0 in
      if i =? table_max slays then Returned PARSE_ERROR_UNRECOGNISED_SLAY priv
      else
        let arr := default (replicate (length slays) false) (k_slays k) in
        Returned PARSE_ERROR_NONE (set_k_slays (Some (array_set arr i true)) k :: next)
  end.

Definition parse_object_brand (s : string) (brands : list brand) (priv : list object_kind)
  : outcome (list object_kind) :=
  match priv with
  | [] => Stopped AssertFailed
  | k :: next =>
      let i := find_code brand_code brands s 0 in
      if i =? table_max brands then Returned PARSE_ERROR_UNRECOGNISED_BRAND priv
      else
        let arr := default (replicate (length brands) false) (k_brands k) in
        Returned PARSE_ERROR_NONE (set_k_brands (Some (array_set arr i true)) k :: next)
  end.

Definition parse_object_curse (s : string) (power : Z) (curses : list curse)
  (priv : list object_kind) : outcome (list object_kind) :=
  match priv with
  | [] => Stopped AssertFailed
  | k :: next =>
      let i := lookup_curse curses s in
      if i =? table_max curses then Returned PARSE_ERROR_UNRECOGNISED_CURSE priv
      else
        let arr := default (replicate (length curses) 0) (k_curses k) in
        Returned PARSE_ERROR_NONE (set_k_curses (Some (array_set arr i power)) k :: next)
  end.

(** kb_info[k->tval] is inside kb_info. *)
Definition tval_in_table (kb_info : list object_base) (k : object_kind) : bool :=
  (0 <=? k_tval k) && (k_tval k <? table_max kb_info).

(** The assignments of finish_parse_object after the memcpy of a node to row
    [kidx]. *)
Definition finish_object_row (kb_info : list object_base) (k_max kidx : Z)
  (k : object_kind) : object_kind :=
  let base := default object_base_zero (array_get kb_info (k_tval k)) in
  set_k_next (if kidx <? k_max - 1 then Some (kidx + 1) else None)
    (set_k_kind_flags (kf_union (k_kind_flags k) (kb_kind_flags base))
       (set_k_kidx kidx k)).

(** finish_parse_object: the pair of z_info->k_max and k_info; a read of
    kb_info outside its rows is the fault. *)
Definition finish_parse_object (kb_info : list object_base) (priv : list object_kind)
  : outcome (Z * list object_kind) :=
  if forallb (tval_in_table kb_info) priv then
    Returned PARSE_ERROR_NONE
      (finish_list object_kind_zero (finish_object_row kb_info) priv)
  else Stopped OutOfBounds.

(** ** Ego items (ego_item.txt) *)

(** mem_zalloc(sizeof(struct ego_item)) *)
Definition ego_item_zero : ego_item :=
  mk_ego_item None None 0 0 0 0 0 [] random_zero None None None None.

Definition parse_ego_name (name : string) (priv : list ego_item)
  : outcome (list ego_item) :=
  Returned PARSE_ERROR_NONE (set_e_name (Some name) ego_item_zero :: priv).


(** parse_ego_alloc writes e->alloc_prob with no test of e. *)
Definition parse_ego_alloc (common : Z) (minmax : string) (priv : list ego_item)
  : outcome (list ego_item) :=
  match priv with
  | [] => Stopped NullDeref
  | e :: next =>
      let e1 := set_e_alloc_prob common e in
      match sscanf_d_to_d minmax with
      | None => Returned PARSE_ERROR_INVALID_ALLOCATION (e1 :: next)
      | Some (amin, amax) =>
          if (255 <? amin) || (255 <? amax) || (amin <? 0) || (amax <? 0) then
            Returned PARSE_ERROR_OUT_OF_BOUNDS (e1 :: next)
          else
            Returned PARSE_ERROR_NONE
              (set_e_alloc_max amax (set_e_alloc_min amin e1) :: next)
      end
  end.

(** The loop of parse_ego_type over the rows of k_info from row [i] on: a
    poss_item is pushed for every kind of the tval. *)
Fixpoint ego_type_loop (rows : list object_kind) (tval : Z) (i : Z)
  (poss_items : list Z) (found_one_kind : bool) : list Z * bool :=
  match rows with
  | [] => (poss_items, found_one_kind)
  | kind :: rest =>
      if k_tval kind =? tval then ego_type_loop rest tval (i + 1) (i :: poss_items) true
      else ego_type_loop rest tval (i + 1) poss_items found_one_kind
  end.

Definition parse_ego_type (tval_name : string) (k_max : Z) (k_info : list object_kind)
  (priv : list ego_item) : outcome (list ego_item) :=
  match priv with
  | [] => Returned PARSE_ERROR_MISSING_RECORD_HEADER priv
  | e :: next =>
      let tval := tval_find_idx tval_name in
      if tval <? 0 then Returned PARSE_ERROR_UNRECOGNISED_TVAL priv
      else
        let '(poss_items, found_one_kind) :=
          ego_type_loop (take (Z.to_nat k_max) k_info) tval 0 (e_poss_items e) false in
        Returned (if found_one_kind then PARSE_ERROR_NONE
                  else PARSE_ERROR_NO_KIND_FOR_EGO_TYPE)
          (set_e_poss_items poss_items e :: next)
  end.

(** parse_ego_item reads [lookup_kind(tval, sval)->kidx] with no test of the
    pointer, and tests the kidx after the poss_item is linked in. *)
Definition parse_ego_item (tval_name sval_name : string) (k_max : Z)
  (k_info : list object_kind) (priv : list ego_item) : outcome (list ego_item) :=
  match priv with
  | [] => Returned PARSE_ERROR_MISSING_RECORD_HEADER priv
  | e :: next =>
      let tval := tval_find_idx tval_name in
      if tval <? 0 then Returned PARSE_ERROR_UNRECOGNISED_TVAL priv
      else
        let sval := lookup_sval k_max k_info tval sval_name in
        match lookup_kind k_max k_info tval sval with
        | None => Stopped NullDeref
        | Some row =>
            match array_get k_info row with
            | None => Stopped OutOfBounds
            | Some kind =>
                let kidx := k_kidx kind in
                let priv' := set_e_poss_items (kidx :: e_poss_items e) e :: next in
                if kidx <=? 0 then Returned PARSE_ERROR_INVALID_ITEM_NUMBER priv'
                else Returned PARSE_ERROR_NONE priv'
            end
        end
  end.

Definition parse_ego_slay (s : string) (slays : list slay) (priv : list ego_item)
  : outcome (list ego_item) :=
  match priv with
  | [] => Returned PARSE_ERROR_MISSING_RECORD_HEADER priv
  | e :: next =>
      let i := find_code slay_code slays s 0 in
      if i =? table_max slays then Returned PARSE_ERROR_UNRECOGNISED_SLAY priv
      else
        let arr := default (replicate (length slays) false) (e_slays e) in
        Returned PARSE_ERROR_NONE (set_e_slays (Some (array_set arr i true)) e :: next)
  end.

Definition parse_ego_brand (s : string) (brands : list brand) (priv : list ego_item)
  : outcome (list ego_item) :=
  match priv with
  | [] => Returned PARSE_ERROR_MISSING_RECORD_HEADER priv
  | e :: next =>
      let i := find_code brand_code brands s 0 in
      if i =? table_max brands then Returned PARSE_ERROR_UNRECOGNISED_BRAND priv
      else
        let arr := default (replicate (length brands) false) (e_brands e) in
        Returned PARSE_ERROR_NONE (set_e_brands (Some (array_set arr i true)) e :: next)
  end.




(** The assignments of finish_parse_ego after the memcpy to row [eidx]. *)
Definition finish_ego_row (e_max eidx : Z) (e : ego_item) : ego_item :=
  set_e_next (if eidx <? e_max - 1 then Some (eidx + 1) else None)
    (set_e_eidx eidx e).

Definition finish_parse_ego (priv : list ego_item) : Z * list ego_item :=
  finish_list ego_item_zero finish_ego_row priv.

(** ** Artifacts (artifact.txt)

    The artifact callbacks write to the object-kind table and to the object
    bases: the state holds them beside the parser's list. *)
Record artifact_state : Type := mk_artifact_state {
  st_k_max : Z;                      (* z_info->k_max *)
  st_k_info : list object_kind;
  st_kb_info : list object_base;
  st_priv : list artifact }.

(** mem_zalloc(sizeof(struct artifact)) *)
Definition artifact_zero : artifact :=
  mk_artifact None None 0 0 0 0 0 el_info_zero None None None None.

(** for (i = ELEM_BASE_MIN; i < ELEM_HIGH_MIN; i++)
      a->el_info[i].flags |= EL_INFO_IGNORE; *)
Definition ignore_base_elements (info : list element_info) : list element_info :=
  foldl (fun info i => alter (el_flags_or EL_INFO_IGNORE) i info) info
    (seq ELEM_BASE_MIN (ELEM_HIGH_MIN - ELEM_BASE_MIN)).

Definition parse_artifact_name (name : string) (st : artifact_state)
  : outcome artifact_state :=
  let a := set_a_name (Some name) artifact_zero in
  let a := set_a_el_info (ignore_base_elements (a_el_info a)) a in
  Returned PARSE_ERROR_NONE
    (mk_artifact_state (st_k_max st) (st_k_info st) (st_kb_info st) (a :: st_priv st)).

(** The loop of write_dummy_object_record over kb_info from row [i] on:
    [Some (i, n)] when row [i] is the first whose tval is the dummy's, [n]
    being its sval count raised by one; [None] when the loop reaches TV_MAX. *)
Fixpoint dummy_sval_loop (rows : list object_base) (tval : Z) (i : nat)
  : option (nat * Z) :=
  match rows with
  | [] => None
  | base :: rest =>
      if kb_tval base =? tval then Some (i, kb_num_svals base + 1)
      else dummy_sval_loop rest tval (S i)
  end.

(** "& name~" *)
Definition dummy_name (name : string) : string := "& " +:+ name +:+ "~".

(** write_dummy_object_record(art, name), [art] being the head of the list.
    [realloc_ok] says whether mem_realloc gave a block.  k_info has
    z_info->k_max rows when the artifacts are read (finish_parse_object and
    this function leave it so): the block of one row more is k_info with the
    dummy as its last row. *)
Definition write_dummy_object_record (realloc_ok : bool) (name : string)
  (st : artifact_state) (art : artifact) (next : list artifact)
  : outcome artifact_state :=
  let k_max := st_k_max st + 1 in
  if negb realloc_ok then
    Returned PARSE_ERROR_INTERNAL
      (mk_artifact_state k_max (st_k_info st) (st_kb_info st) (art :: next))
  else
    let dummy := set_k_tval (a_tval art) object_kind_zero in
    let dummy := set_k_name (Some (dummy_name name)) dummy in
    let dummy := set_k_kidx (k_max - 1) dummy in
    match dummy_sval_loop (take (Z.to_nat TV_MAX) (st_kb_info st)) (k_tval dummy) 0 with
    | None =>
        Returned PARSE_ERROR_INTERNAL
          (mk_artifact_state k_max (st_k_info st ++ [dummy]) (st_kb_info st)
             (art :: next))
    | Some (i, num_svals) =>
        let kb_info := alter (set_kb_num_svals num_svals) i (st_kb_info st) in
        let dummy := set_k_sval num_svals dummy in
        let art := set_a_sval (k_sval dummy) art in
        let dummy := set_k_d_char "*"%char dummy in
        let dummy := set_k_d_attr COLOUR_RED dummy in
        let dummy := set_k_level (-1) dummy in
        let dummy := set_k_weight (-1) dummy in
        let dummy := set_k_kind_flags (flag_on (k_kind_flags dummy) KF_INSTA_ART) dummy in
        Returned PARSE_ERROR_NONE
          (mk_artifact_state k_max (st_k_info st ++ [dummy]) kb_info (art :: next))
    end.

Definition parse_artifact_base_object (realloc_ok : bool) (tval_name sval_name : string)
  (st : artifact_state) : outcome artifact_state :=
  match st_priv st with
  | [] => Stopped AssertFailed
  | a :: next =>
      let tval := tval_find_idx tval_name in
      if tval <? 0 then Returned PARSE_ERROR_UNRECOGNISED_TVAL st
      else
        let a := set_a_tval tval a in
        let sval := lookup_sval_silent (st_k_max st) (st_k_info st) (a_tval a) sval_name in
        if sval <? 0 then write_dummy_object_record realloc_ok sval_name st a next
        else
          Returned PARSE_ERROR_NONE
            (mk_artifact_state (st_k_max st) (st_k_info st) (st_kb_info st)
               (set_a_sval sval a :: next))
  end.

(** k->level = v through the pointer lookup_kind gave *)
Definition alter_kind (f : object_kind -> object_kind) (row : Z)
  (k_info : list object_kind) : list object_kind :=
  if 0 <=? row then alter f (Z.to_nat row) k_info else k_info.

Definition parse_artifact_level (level : Z) (st : artifact_state)
  : outcome artifact_state :=
  match st_priv st with
  | [] => Stopped AssertFailed
  | a :: next =>
      match lookup_kind (st_k_max st) (st_k_info st) (a_tval a) (a_sval a) with
      | None => Stopped AssertFailed
      | Some row =>
          match array_get (st_k_info st) row with
          | None => Stopped OutOfBounds
          | Some k =>
              let a := set_a_level level a in
              let k_info :=
                if k_level k =? -1
                then alter_kind (set_k_level (a_level a)) row (st_k_info st)
                else st_k_info st in
              Returned PARSE_ERROR_NONE
                (mk_artifact_state (st_k_max st) k_info (st_kb_info st) (a :: next))
          end
      end
  end.

Definition parse_artifact_weight (weight : Z) (st : artifact_state)
  : outcome artifact_state :=
  match st_priv st with
  | [] => Stopped AssertFailed
  | a :: next =>
      match lookup_kind (st_k_max st) (st_k_info st) (a_tval a) (a_sval a) with
      | None => Stopped AssertFailed
      | Some row =>
          match array_get (st_k_info st) row with
          | None => Stopped OutOfBounds
          | Some k =>
              let a := set_a_weight weight a in
              let k_info :=
                if k_weight k =? -1
                then alter_kind (set_k_weight (a_weight a)) row (st_k_info st)
                else st_k_info st in
              Returned PARSE_ERROR_NONE
                (mk_artifact_state (st_k_max st) k_info (st_kb_info st) (a :: next))
          end
      end
  end.


Definition parse_artifact_slay (s : string) (slays : list slay) (priv : list artifact)
  : outcome (list artifact) :=
  match priv with
  | [] => Stopped AssertFailed
  | a :: next =>
      let i := find_code slay_code slays s 0 in
      if i =? table_max slays then Returned PARSE_ERROR_UNRECOGNISED_SLAY priv
      else
        let arr := default (replicate (length slays) false) (a_slays a) in
        Returned PARSE_ERROR_NONE (set_a_slays (Some (array_set arr i true)) a :: next)
  end.

Definition parse_artifact_brand (s : string) (brands : list brand) (priv : list artifact)
  : outcome (list artifact) :=
  match priv with
  | [] => Stopped AssertFailed
  | a :: next =>
      let i := find_code brand_code brands s 0 in
      if i =? table_max brands then Returned PARSE_ERROR_UNRECOGNISED_BRAND priv
      else
        let arr := default (replicate (length brands) false) (a_brands a) in
        Returned PARSE_ERROR_NONE (set_a_brands (Some (array_set arr i true)) a :: next)
  end.


(** ** Curses, activations and power calculations: flags, values, dice, expr *)

(** object_new(): a zeroed struct object *)
Definition object_new : object :=
  mk_object 0 el_info_zero (replicate (length obj_mods) 0) [].









(** curse->obj->effect = effects *)
Definition set_curse_effect (effects : list effect) (c : curse) : curse :=
  set_curse_obj (set_obj_effect effects (curse_obj c)) c.

Definition parse_curse_dice (string : string) (priv : list curse)
  : outcome (list curse) :=
  match priv with
  | [] => Returned PARSE_ERROR_MISSING_RECORD_HEADER priv
  | c :: next =>
      match obj_effect (curse_obj c) with
      | [] => Returned PARSE_ERROR_NONE priv
      | effect0 :: effects =>
          match dice_new with
          | None => Returned PARSE_ERROR_INVALID_DICE priv
          | Some dice =>
              match dice_parse_string dice string with
              | Some dice' =>
                  Returned PARSE_ERROR_NONE
                    (set_curse_effect (set_eff_dice (Some dice') effect0 :: effects) c
                       :: next)
              | None => Returned PARSE_ERROR_INVALID_DICE priv
              end
          end
      end
  end.

Definition parse_curse_expr (name base expr : string) (priv : list curse)
  : outcome (list curse) :=
  match priv with
  | [] => Returned PARSE_ERROR_MISSING_RECORD_HEADER priv
  | c :: next =>
      match obj_effect (curse_obj c) with
      | [] => Returned PARSE_ERROR_NONE priv
      | effect0 :: effects =>
          match eff_dice effect0 with
          | None => Returned PARSE_ERROR_NONE priv
          | Some dice =>
              match bind_expression spell_value_base_by_name dice name base expr with
              | (e, None) => Returned e priv
              | (e, Some dice') =>
                  Returned e
                    (set_curse_effect (set_eff_dice (Some dice') effect0 :: effects) c
                       :: next)
              end
          end
      end
  end.

(** mem_zalloc(sizeof(struct activation)) *)
Definition activation_zero : activation := mk_activation None 0 [] None.

Definition parse_act_name (name : string) (priv : list activation)
  : outcome (list activation) :=
  Returned PARSE_ERROR_NONE (mk_activation (Some name) 0 [] None :: priv).

Definition parse_act_dice (string : string) (priv : list activation)
  : outcome (list activation) :=
  match priv with
  | [] => Returned PARSE_ERROR_MISSING_RECORD_HEADER priv
  | act :: next =>
      match act_effect act with
      | [] => Returned PARSE_ERROR_NONE priv
      | effect0 :: effects =>
          match dice_new with
          | None => Returned PARSE_ERROR_INVALID_DICE priv
          | Some dice =>
              match dice_parse_string dice string with
              | Some dice' =>
                  Returned PARSE_ERROR_NONE
                    (set_act_effect (set_eff_dice (Some dice') effect0 :: effects) act
                       :: next)
              | None => Returned PARSE_ERROR_INVALID_DICE priv
              end
          end
      end
  end.

Definition parse_act_expr (name base expr : string) (priv : list activation)
  : outcome (list activation) :=
  match priv with
  | [] => Returned PARSE_ERROR_MISSING_RECORD_HEADER priv
  | act :: next =>
      match act_effect act with
      | [] => Returned PARSE_ERROR_NONE priv
      | effect0 :: effects =>
          match eff_dice effect0 with
          | None => Returned PARSE_ERROR_NONE priv
          | Some dice =>
              match bind_expression spell_value_base_by_name dice name base expr with
              | (e, None) => Returned e priv
              | (e, Some dice') =>
                  Returned e
                    (set_act_effect (set_eff_dice (Some dice') effect0 :: effects) act
                       :: next)
              end
          end
      end
  end.

(** The assignments of finish_parse_act after the memcpy to row [count]. *)
Definition finish_act_row (act_max count : Z) (act : activation) : activation :=
  set_act_next (if count <? act_max - 1 then Some (count + 1) else None)
    (set_act_index count act).

Definition finish_parse_act (priv : list activation) : Z * list activation :=
  finish_list activation_zero finish_act_row priv.


Definition parse_object_power_expr (name base expr : string) (priv : list power_calc)
  : outcome (list power_calc) :=
  match priv with
  | [] => Returned PARSE_ERROR_MISSING_RECORD_HEADER priv
  | c :: next =>
      match calc_dice c with
      | None => Returned PARSE_ERROR_NONE priv
      | Some dice =>
          match bind_expression power_calculation_by_name dice name base expr with
          | (e, None) => Returned e priv
          | (e, Some dice') => Returned e (set_calc_dice (Some dice') c :: next)
          end
      end
  end.

(** Slays and brands: the directive that creates a record, and [name]. *)
Definition parse_slay_code (code : string) (priv : list slay) : outcome (list slay) :=
  Returned PARSE_ERROR_NONE (mk_slay code None 0 0 :: priv).


Definition parse_brand_code (code : string) (priv : list brand)
  : outcome (list brand) :=
  Returned PARSE_ERROR_NONE (mk_brand code None 0 0 :: priv).






(** The assignments of finish_parse_artifact after the memcpy to row [aidx];
    the table has nine rows more than z_info->a_max, row [i] of them with
    aidx [i].  (The object-like kinds the function then looks up and
    write_curse_kinds write to other globals, not to the table.) *)
Definition finish_artifact_row (a_max aidx : Z) (a : artifact) : artifact :=
  set_a_next (if aidx <? a_max - 1 then Some (aidx + 1) else None)
    (set_a_aidx aidx a).

Definition finish_parse_artifact (priv : list artifact) : Z * list artifact :=
  let a_max := count_entries priv 0 in
  let a_info := replicate (Z.to_nat (a_max + 9)) artifact_zero in
  let a_info := copy_entries finish_artifact_row a_max priv (a_max - 1) a_info in
  (a_max,
   foldl (fun a_info i => alter (set_a_aidx (Z.of_nat i)) i a_info) a_info
     (seq (Z.to_nat a_max) 9)).

(** ** The heap and the cleanup phases

    A cleanup function reads its table through the global pointer and frees
    the blocks the rows own, then the table.  The heap maps the address of
    every allocated block to what the cleanup can find in it: a table holds
    rows of pointers, any other block holds no pointer.  [mem_free(p)] is a
    call: it takes the block away and cannot change the pointer the caller
    holds. *)
Definition loc : Type := positive.

Inductive block (R : Type) : Type :=
| BData                   (* a string, an array of scalars, a node of a chain *)
| BTable (rows : list R). (* the rows of a table, as the pointers they own *)

Arguments BData {R}.
Arguments BTable {R} rows.

Inductive heap_result (H : Type) : Type :=
| HeapOk (h : H)
| HeapFault (f : fault).

Arguments HeapOk {H} h.
Arguments HeapFault {H} f.

Section cleanup.
Context {R : Type}.
(** The pointers a row owns, in the order the cleanup function frees them. *)
Variable owned : R -> list (option loc).

(** mem_free(p) and string_free(p): nothing for NULL. *)
Definition mem_free (p : option loc) (h : gmap loc (block R))
  : heap_result (gmap loc (block R)) :=
  match p with
  | None => HeapOk h
  | Some l =>
      match h !! l with
      | Some _ => HeapOk (delete l h)
      | None => HeapFault BadFree
      end
  end.

(** The frees of one row, one after the other. *)
Fixpoint free_all (ps : list (option loc)) (h : gmap loc (block R))
  : heap_result (gmap loc (block R)) :=
  match ps with
  | [] => HeapOk h
  | p :: rest =>
      match mem_free p h with
      | HeapOk h' => free_all rest h'
      | HeapFault f => HeapFault f
      end
  end.

(** for (idx = 0; idx < max; idx++) { <free what table[idx] owns> }
    with [n] passes to go; every pass reads the row through [table]. *)
Fixpoint cleanup_rows (table : loc) (n : nat) (idx : nat) (h : gmap loc (block R))
  : heap_result (gmap loc (block R)) :=
  match n with
  | O => HeapOk h
  | S n' =>
      match h !! table with
      | None => HeapFault UseAfterFree
      | Some BData => HeapFault OutOfBounds
      | Some (BTable rows) =>
          match rows !! idx with
          | None => HeapFault OutOfBounds
          | Some r =>
              match free_all (owned r) h with
              | HeapOk h' => cleanup_rows table n' (S idx) h'
              | HeapFault f => HeapFault f
              end
          end
      end
  end.

(** if (!table) return; <the loop>; mem_free(table);
    The global pointer and the recorded maximum are what they were. *)
Definition cleanup_table (table : option loc) (max : Z) (h : gmap loc (block R))
  : heap_result (gmap loc (block R)) :=
  match table with
  | None => HeapOk h
  | Some l =>
      match cleanup_rows l (Z.to_nat max) 0 h with
      | HeapOk h' => mem_free (Some l) h'
      | HeapFault f => HeapFault f
      end
  end.
End cleanup.

(** The pointers of a row of projections. *)
Record projection_ptrs : Type := mk_projection_ptrs {
  pp_name : option loc;
  pp_type : option loc;
  pp_desc : option loc;
  pp_blind_desc : option loc;
  pp_lash_desc : option loc;
  pp_threat : option loc }.

(** cleanup_projection(): [projections] and z_info->projection_max are the
    first two arguments. *)
Definition cleanup_projection (projections : option loc) (projection_max : Z)
  (h : gmap loc (block projection_ptrs))
  : heap_result (gmap loc (block projection_ptrs)) :=
  cleanup_table
    (fun r => [pp_name r; pp_type r; pp_desc r; pp_blind_desc r; pp_lash_desc r;
               pp_threat r])
    projections projection_max h.

(** The pointers of a row of kb_info. *)
Record object_base_ptrs : Type := mk_object_base_ptrs {
  kbp_name : option loc }.

(** cleanup_object_base(): the loop runs over the TV_MAX rows. *)
Definition cleanup_object_base (kb_info : option loc)
  (h : gmap loc (block object_base_ptrs))
  : heap_result (gmap loc (block object_base_ptrs)) :=
  cleanup_table (fun r => [kbp_name r]) kb_info TV_MAX h.

(** The pointers of a row of k_info.
    Modelled from the spec: free_effect is not under src/.  Section 2, cleanup
    phase: every sub-allocation reachable from the table is released;
    [kp_effect] lists the blocks of the effect chain of the kind in the order
    free_effect releases them (none for a NULL chain). *)
Record object_kind_ptrs : Type := mk_object_kind_ptrs {
  kp_name : option loc;
  kp_text : option loc;
  kp_brands : option loc;
  kp_slays : option loc;
  kp_curses : option loc;
  kp_effect : list loc }.

(** cleanup_object() *)
Definition cleanup_object (k_info : option loc) (k_max : Z)
  (h : gmap loc (block object_kind_ptrs))
  : heap_result (gmap loc (block object_kind_ptrs)) :=
  cleanup_table
    (fun kind => [kp_name kind; kp_text kind; kp_brands kind; kp_slays kind;
                  kp_curses kind] ++ (Some <$> kp_effect kind))
    k_info k_max h.

(** The pointers of a row of slays. *)
Record slay_ptrs : Type := mk_slay_ptrs {
  sp_code : option loc;
  sp_name : option loc;
  sp_base : option loc;
  sp_melee_verb : option loc;
  sp_range_verb : option loc }.

(** cleanup_slay() *)
Definition cleanup_slay (slays : option loc) (slay_max : Z)
  (h : gmap loc (block slay_ptrs)) : heap_result (gmap loc (block slay_ptrs)) :=
  cleanup_table
    (fun r => [sp_code r; sp_name r; sp_base r; sp_melee_verb r; sp_range_verb r])
    slays slay_max h.

(** The pointers of a row of brands. *)
Record brand_ptrs : Type := mk_brand_ptrs {
  bp_code : option loc;
  bp_name : option loc;
  bp_verb : option loc;
  bp_active_verb : option loc;
  bp_active_verb_plural : option loc;
  bp_desc_adjective : option loc }.

(** cleanup_brand() *)
Definition cleanup_brand (brands : option loc) (brand_max : Z)
  (h : gmap loc (block brand_ptrs)) : heap_result (gmap loc (block brand_ptrs)) :=
  cleanup_table
    (fun r => [bp_code r; bp_name r; bp_verb r; bp_active_verb r;
               bp_active_verb_plural r; bp_desc_adjective r])
    brands brand_max h.

(** The pointers of a row of a_info. *)
Record artifact_ptrs : Type := mk_artifact_ptrs {
  ap_name : option loc;
  ap_alt_msg : option loc;
  ap_text : option loc;
  ap_brands : option loc;
  ap_slays : option loc;
  ap_curses : option loc }.

(** cleanup_artifact() *)
Definition cleanup_artifact (a_info : option loc) (a_max : Z)
  (h : gmap loc (block artifact_ptrs)) : heap_result (gmap loc (block artifact_ptrs)) :=
  cleanup_table
    (fun art => [ap_name art; ap_alt_msg art; ap_text art; ap_brands art;
                 ap_slays art; ap_curses art])
    a_info a_max h.

(** ** A projection file read as records

    What the lines of a file say, independently of the callbacks: the records
    are introduced by the [code] directives, in order, and a record's block is
    made of the lines up to the next [code] directive. *)

(** One more line: the records read so far are kept newest first. *)
Definition add_line (acc : list (string * list projection_line)) (l : projection_line)
  : list (string * list projection_line) :=
  match l with
  | PL_code code => (code, []) :: acc
  | _ =>
      match acc with
      | (code, blk) :: older => (code, blk ++ [l]) :: older
      | [] => []
      end
  end.

(** The records of a file in the order of their [code] directives, each with
    the argument of the directive and its block. *)
Definition projection_records (file : list projection_line)
  : list (string * list projection_line) :=
  reverse (fold_left add_line file []).

(** The value the last line of a block that sets a field gives it, [sel]
    telling what a line sets the field to. *)
Fixpoint last_set {L A : Type} (sel : L -> option A) (blk : list L) : option A :=
  match blk with
  | [] => None
  | l :: rest =>
      match last_set sel rest with
      | Some v => Some v
      | None => sel l
      end
  end.





(** A finish phase leaves the records in file order: the recorded maximum is
    the number of nodes, and row [i] is the node created [i]-th (the list is
    newest first, so that is row [i] of the reversed list) after the
    assignments [patch] of the record type. *)
Definition in_file_order {R : Type} (patch : Z -> Z -> R -> R) (priv : list R)
  (res : Z * list R) : Prop :=
  fst res = Z.of_nat (length priv)
  /\ forall i : nat,
       (i < length priv)%nat ->
       snd res !! i = patch (fst res) (Z.of_nat i) <$> reverse priv !! i.




(** The blocks the rows of a table own, in the order the cleanup frees them,
    and the heap without a list of blocks. *)
Definition owned_blocks {R : Type} (owned : R -> list (option loc)) (rows : list R)
  : list loc :=
  omap id (rows ≫= owned).

Definition without {R : Type} (ps : list loc) (h : gmap loc (block R))
  : gmap loc (block R) :=
  foldl (fun h p => delete p h) h ps.

(** A finished table in the heap: the table block holds the rows, and the
    blocks the rows own are allocated, distinct from each other and from the
    table. *)
Definition table_in_heap {R : Type} (owned : R -> list (option loc)) (table : loc)
  (rows : list R) (h : gmap loc (block R)) : Prop :=
  h !! table = Some (BTable rows)
  /\ NoDup (owned_blocks owned rows ++ [table])
  /\ forall p, p ∈ owned_blocks owned rows -> is_Some (h !! p).

(** ** Further callbacks and helpers of obj-init.c *)

(** A string [%s] of sscanf reads whole: it is not empty and holds no white
    space. *)
Fixpoint no_space (s : string) : bool :=
  match s with
  | EmptyString => true
  | String c rest => negb (is_space c) && no_space rest
  end.

Definition is_word (s : string) : bool :=
  negb (String.eqb s "") && no_space s.

(** The element information [info'] holds what [info] holds and more: as
    many entries, the same resistance levels, and every flag bit of [info]. *)
Definition el_info_grows (info info' : list element_info) : Prop :=
  length info' = length info
  /\ forall (j : nat) (e : element_info),
       info !! j = Some e ->
       exists e', info' !! j = Some e'
                  /\ res_level e' = res_level e
                  /\ forall b, Z.testbit (el_flags e) b = true ->
                               Z.testbit (el_flags e') b = true.

(** The flag set [flags'] holds every flag of [flags]. *)
Definition flags_grow (flags flags' : Z) : Prop :=
  forall i : nat, flag_has flags i = true -> flag_has flags' i = true.

(** What a flags directive may do to an object kind, and to an object base. *)
Definition object_flags_step (k k' : object_kind) : Prop :=
  k' = set_k_el_info (k_el_info k')
         (set_k_kind_flags (k_kind_flags k') (set_k_flags (k_flags k') k))
  /\ flags_grow (k_flags k) (k_flags k')
  /\ flags_grow (k_kind_flags k) (k_kind_flags k')
  /\ el_info_grows (k_el_info k) (k_el_info k').

Definition object_base_flags_step (kb0 kb1 : object_base) : Prop :=
  kb1 = set_kb_el_info (kb_el_info kb1)
          (set_kb_kind_flags (kb_kind_flags kb1) (set_kb_flags (kb_flags kb1) kb0))
  /\ flags_grow (kb_flags kb0) (kb_flags kb1)
  /\ flags_grow (kb_kind_flags kb0) (kb_kind_flags kb1)
  /\ el_info_grows (kb_el_info kb0) (kb_el_info kb1).

(** ** The object file, line by line

    A line of object.txt, for the directives of init_parse_object embedded
    here, and the callback registered for it.  The state is the pair of
    kb_info and the parser's list: [type] writes to both.  The finished slay,
    brand and curse tables are read only. *)
Inductive object_line : Type :=
| OL_name (name : string)
| OL_type (tval : string)
| OL_level (level : Z)
| OL_weight (weight : Z)
| OL_flags (flags : string)
| OL_dice (dice : string)
| OL_expr (name base expr : string)
| OL_time (time : random)
| OL_values (values : string)
| OL_desc (text : string)
| OL_slay (code : string)
| OL_brand (code : string)
| OL_curse (name : string) (power : Z).

(** A callback that reads and writes the parser's list only. *)
Definition on_priv {A S : Type} (f : S -> outcome S) (st : A * S) : outcome (A * S) :=
  match f (snd st) with
  | Returned e s => Returned e (fst st, s)
  | Stopped flt => Stopped flt
  end.

Definition object_callback (slays : list slay) (brands : list brand)
  (curses : list curse) (l : object_line)
  : list object_base * list object_kind
    -> outcome (list object_base * list object_kind) :=
  match l with
  | OL_name name => on_priv (parse_object_name name)
  | OL_type tval => parse_object_type tval
  | OL_level level => on_priv (parse_object_level level)
  | OL_weight weight => on_priv (parse_object_weight weight)
  | OL_flags flags => on_priv (parse_object_flags flags)
  | OL_dice dice => on_priv (parse_object_dice dice)
  | OL_expr name base expr => on_priv (parse_object_expr name base expr)
  | OL_time time => on_priv (parse_object_time time)
  | OL_values values => on_priv (parse_object_values values)
  | OL_desc text => on_priv (parse_object_desc text)
  | OL_slay code => on_priv (parse_object_slay code slays)
  | OL_brand code => on_priv (parse_object_brand code brands)
  | OL_curse name power => on_priv (parse_object_curse name power curses)
  end.

(** The tokens of a flags string fit the 20-byte buffers grab_element_flag
    reads them into. *)
Definition tokens_fit (s : string) : Prop :=
  Forall (fun t => (String.length t < 20)%nat) (strtok_all s).

Definition object_line_fits (l : object_line) : Prop :=
  match l with
  | OL_flags flags => tokens_fit flags
  | _ => True
  end.

(** The tval and sval of an object kind. *)
Definition kind_key (k : object_kind) : Z * Z := (k_tval k, k_sval k).

(** The svals are numbered per tval: no object base counts a negative number
    of svals, the sval of a kind is at most the count of its tval, and two
    kinds with the same tval and the same sval have sval 0 (neither was given
    a type). *)
Definition svals_numbered (kb_info : list object_base) (keys : list (Z * Z)) : Prop :=
  Forall (fun base => 0 <= kb_num_svals base) kb_info
  /\ (forall t s base,
        (t, s) ∈ keys -> array_get kb_info t = Some base ->
        0 <= s <= kb_num_svals base)
  /\ (forall (i j : nat) t s,
        i <> j -> keys !! i = Some (t, s) -> keys !! j = Some (t, s) -> s = 0).

(** The rows of an object-kind table that have the tval given, by index from
    [i] on, in the order of the table. *)
Fixpoint kinds_of_tval (rows : list object_kind) (tval : Z) (i : Z) : list Z :=
  match rows with
  | [] => []
  | kind :: rest =>
      if k_tval kind =? tval then i :: kinds_of_tval rest tval (i + 1)
      else kinds_of_tval rest tval (i + 1)
  end.

(** The code [s] stands first in row [i] of a table. *)
Definition first_with_code {A : Type} (code : A -> string) (rows : list A)
  (s : string) (i : nat) : Prop :=
  (exists row, rows !! i = Some row /\ code row = s)
  /\ forall (j : nat) (row : A), (j < i)%nat -> rows !! j = Some row -> code row <> s.



(** findact(act_name):

      struct activation *act = activations;
      while (act) {
          if (streq(act->name, act_name)) break;
          act = act->next;
      }
      return act;

    over the finished table, a pointer to an activation being the index of
    its row ([None]: NULL).  [act] is where the walk is; every row read costs
    one unit of fuel.  The answer is the pointer returned, or the fault of
    reading outside the table or of comparing a NULL name; [None] when the
    fuel runs out first. *)
Fixpoint findact_from (fuel : nat) (activations : list activation) (act : option Z)
  (name : string) : option (fault + option Z) :=
  match act with
  | None => Some (inr None)
  | Some row =>
      match fuel with
      | O => None
      | S fuel' =>
          match array_get activations row with
          | None => Some (inl OutOfBounds)
          | Some a =>
              match act_name a with
              | None => Some (inl NullDeref)
              | Some n =>
                  if streq n name then Some (inr (Some row))
                  else findact_from fuel' activations (act_next a) name
              end
          end
      end
  end.

(** The first row from [i] on whose name is [name]. *)
Fixpoint find_named (rows : list activation) (name : string) (i : Z) : option Z :=
  match rows with
  | [] => None
  | a :: rest =>
      if bool_decide (act_name a = Some name) then Some i
      else find_named rest name (i + 1)
  end.

(** The object bases stand in the row of their tval: a row of kb_info holds
    an object base of the tval that is the index of the row, or is a zeroed
    row (tval 0). *)
Definition bases_by_tval (kb_info : list object_base) : Prop :=
  forall (i : nat) (base : object_base),
    kb_info !! i = Some base -> kb_tval base = Z.of_nat i \/ kb_tval base = 0.

(** ** Object properties (object_property.txt)

    struct obj_property, for the fields the callbacks embedded here write:
    the callbacks of [type], [subtype], [id-type] and [code] are left out. *)
Record obj_property : Type := mk_obj_property {
  prop_name : option string;
  prop_power : Z;
  prop_mult : Z;
  prop_type_mult : list Z;              (* int type_mult[TV_MAX] *)
  prop_adjective : option string;
  prop_neg_adj : option string;
  prop_msg : option string;
  prop_desc : option string;
  prop_short_desc : option string }.

(** mem_zalloc(sizeof(struct obj_property)) *)
Definition obj_property_zero : obj_property :=
  mk_obj_property None 0 0 (replicate (Z.to_nat TV_MAX) 0) None None None None None.

Definition set_prop_type_mult (v : list Z) (r : obj_property) : obj_property :=
  mk_obj_property (prop_name r) (prop_power r) (prop_mult r) v (prop_adjective r)
    (prop_neg_adj r) (prop_msg r) (prop_desc r) (prop_short_desc r).

(** for (i = 0; i < TV_MAX; i++) prop->type_mult[i] = 1; *)
Definition parse_object_property_name (name : string) (priv : list obj_property)
  : outcome (list obj_property) :=
  let prop := mk_obj_property (Some name) 0 0 (replicate (Z.to_nat TV_MAX) 0)
                None None None None None in
  let type_mult :=
    foldl (fun type_mult i => <[i := 1]> type_mult) (prop_type_mult prop)
      (seq 0 (Z.to_nat TV_MAX)) in
  Returned PARSE_ERROR_NONE (set_prop_type_mult type_mult prop :: priv).

Definition parse_object_property_power (power : Z) (priv : list obj_property)
  : outcome (list obj_property) :=
  match priv with
  | [] => Returned PARSE_ERROR_MISSING_RECORD_HEADER priv
  | prop :: next =>
      Returned PARSE_ERROR_NONE
        (mk_obj_property (prop_name prop) power (prop_mult prop) (prop_type_mult prop)
           (prop_adjective prop) (prop_neg_adj prop) (prop_msg prop) (prop_desc prop)
           (prop_short_desc prop) :: next)
  end.

Definition parse_object_property_mult (mult : Z) (priv : list obj_property)
  : outcome (list obj_property) :=
  match priv with
  | [] => Returned PARSE_ERROR_MISSING_RECORD_HEADER priv
  | prop :: next =>
      Returned PARSE_ERROR_NONE
        (mk_obj_property (prop_name prop) (prop_power prop) mult (prop_type_mult prop)
           (prop_adjective prop) (prop_neg_adj prop) (prop_msg prop) (prop_desc prop)
           (prop_short_desc prop) :: next)
  end.

(** parse_object_property_type_mult: the tval is tested against 0, not
    against TV_MAX, before [prop->type_mult[tval] = mult]. *)
Definition parse_object_property_type_mult (type : string) (mult : Z)
  (priv : list obj_property) : outcome (list obj_property) :=
  match priv with
  | [] => Returned PARSE_ERROR_MISSING_RECORD_HEADER priv
  | prop :: next =>
      let tval := tval_find_idx type in
      if tval <? 0 then Returned PARSE_ERROR_UNRECOGNISED_TVAL priv
      else
        match array_get (prop_type_mult prop) tval with
        | None => Stopped OutOfBounds
        | Some _ =>
            Returned PARSE_ERROR_NONE
              (set_prop_type_mult (array_set (prop_type_mult prop) tval mult) prop
               :: next)
        end
  end.

Definition parse_object_property_adjective (adj : string) (priv : list obj_property)
  : outcome (list obj_property) :=
  match priv with
  | [] => Returned PARSE_ERROR_MISSING_RECORD_HEADER priv
  | prop :: next =>
      Returned PARSE_ERROR_NONE
        (mk_obj_property (prop_name prop) (prop_power prop) (prop_mult prop)
           (prop_type_mult prop) (Some adj) (prop_neg_adj prop) (prop_msg prop)
           (prop_desc prop) (prop_short_desc prop) :: next)
  end.

Definition parse_object_property_neg_adj (neg_adj : string) (priv : list obj_property)
  : outcome (list obj_property) :=
  match priv with
  | [] => Returned PARSE_ERROR_MISSING_RECORD_HEADER priv
  | prop :: next =>
      Returned PARSE_ERROR_NONE
        (mk_obj_property (prop_name prop) (prop_power prop) (prop_mult prop)
           (prop_type_mult prop) (prop_adjective prop) (Some neg_adj) (prop_msg prop)
           (prop_desc prop) (prop_short_desc prop) :: next)
  end.

Definition parse_object_property_msg (msg : string) (priv : list obj_property)
  : outcome (list obj_property) :=
  match priv with
  | [] => Returned PARSE_ERROR_MISSING_RECORD_HEADER priv
  | prop :: next =>
      Returned PARSE_ERROR_NONE
        (mk_obj_property (prop_name prop) (prop_power prop) (prop_mult prop)
           (prop_type_mult prop) (prop_adjective prop) (prop_neg_adj prop) (Some msg)
           (prop_desc prop) (prop_short_desc prop) :: next)
  end.

Definition parse_object_property_desc (desc : string) (priv : list obj_property)
  : outcome (list obj_property) :=
  match priv with
  | [] => Returned PARSE_ERROR_MISSING_RECORD_HEADER priv
  | prop :: next =>
      Returned PARSE_ERROR_NONE
        (mk_obj_property (prop_name prop) (prop_power prop) (prop_mult prop)
           (prop_type_mult prop) (prop_adjective prop) (prop_neg_adj prop)
           (prop_msg prop) (Some desc) (prop_short_desc prop) :: next)
  end.

Definition parse_object_property_short_desc (desc : string) (priv : list obj_property)
  : outcome (list obj_property) :=
  match priv with
  | [] => Returned PARSE_ERROR_MISSING_RECORD_HEADER priv
  | prop :: next =>
      Returned PARSE_ERROR_NONE
        (mk_obj_property (prop_name prop) (prop_power prop) (prop_mult prop)
           (prop_type_mult prop) (prop_adjective prop) (prop_neg_adj prop)
           (prop_msg prop) (prop_desc prop) (Some desc) :: next)
  end.

(** A line of object_property.txt, for the directives embedded here. *)
Inductive object_property_line : Type :=
| OPL_name (name : string)
| OPL_power (power : Z)
| OPL_mult (mult : Z)
| OPL_type_mult (type : string) (mult : Z)
| OPL_adjective (adj : string)
| OPL_neg_adjective (neg_adj : string)
| OPL_msg (msg : string)
| OPL_desc (desc : string)
| OPL_short_desc (desc : string).

Definition object_property_callback (l : object_property_line)
  : list obj_property -> outcome (list obj_property) :=
  match l with
  | OPL_name name => parse_object_property_name name
  | OPL_power power => parse_object_property_power power
  | OPL_mult mult => parse_object_property_mult mult
  | OPL_type_mult type mult => parse_object_property_type_mult type mult
  | OPL_adjective adj => parse_object_property_adjective adj
  | OPL_neg_adjective neg_adj => parse_object_property_neg_adj neg_adj
  | OPL_msg msg => parse_object_property_msg msg
  | OPL_desc desc => parse_object_property_desc desc
  | OPL_short_desc desc => parse_object_property_short_desc desc
  end.

(** What a line sets the type multiplier of the tval [t] to; a field line of
    a block: not a [name] line, and with a known tval below TV_MAX when it is
    a [type-mult] line. *)
Definition says_type_mult (t : Z) (l : object_property_line) : option Z :=
  match l with
  | OPL_type_mult type mult => if tval_find_idx type =? t then Some mult else None
  | _ => None
  end.

Definition property_field_line (l : object_property_line) : Prop :=
  match l with
  | OPL_name _ => False
  | OPL_type_mult type _ => 0 <= tval_find_idx type < TV_MAX
  | _ => True
  end.

(** * Properties *)

Lemma streq_true (a b : string) : streq a b = true <-> a = b.
Proof. apply String.eqb_eq. Qed.

Lemma streq_false (a b : string) : streq a b = false <-> a <> b.
Proof. apply String.eqb_neq. Qed.

(** ** The finish phase *)
Section finish_list_facts.
Context {R : Type}.
Variable zero : R.
Variable patch : Z -> Z -> R -> R.

Lemma count_entries_length (l : list R) (max : Z) :
  count_entries l max = max + Z.of_nat (length l).
Proof.
  revert max. induction l as [|x l IH]; intros max; simpl.
  - lia.
  - rewrite IH. lia.
Qed.

(** The rows the copy loop writes: the nodes in file order, row [i] patched
    for index [i]. *)
Definition patched (max : Z) (l : list R) : list R :=
  imap (fun i node => patch max (Z.of_nat i) node) (reverse l).

Lemma patched_cons (max : Z) (x : R) (l : list R) :
  patched max (x :: l)
  = patched max l ++ [patch max (Z.of_nat (length l)) x].
Proof.
  unfold patched. rewrite reverse_cons, imap_app. simpl.
  rewrite length_reverse, Nat.add_0_r. reflexivity.
Qed.

Lemma copy_entries_spec (max : Z) (l arr : list R) :
  (length l <= length arr)%nat ->
  copy_entries patch max l (Z.of_nat (length l) - 1) arr
  = patched max l ++ drop (length l) arr.
Proof.
  revert arr. induction l as [|x l IH]; intros arr Hlen.
  - simpl. rewrite drop_0. reflexivity.
  - cbn [copy_entries length] in *.
    replace (Z.of_nat (S (length l)) - 1) with (Z.of_nat (length l)) by lia.
    unfold array_set.
    replace ((0 <=? Z.of_nat (length l)) && (Z.of_nat (length l) <? Z.of_nat (length arr)))
      with true by (symmetry; apply andb_true_intro; split; [apply Z.leb_le|apply Z.ltb_lt]; lia).
    rewrite Nat2Z.id, IH by (rewrite length_insert; lia).
    rewrite patched_cons, <- app_assoc. f_equal. simpl.
    rewrite drop_insert_ge by lia. rewrite Nat.sub_diag.
    destruct (drop (length l) arr) as [|y rest] eqn:Hd.
    + apply (f_equal length) in Hd. rewrite length_drop in Hd. simpl in Hd. lia.
    + simpl. f_equal.
      replace (S (length l)) with (length l + 1)%nat by lia.
      rewrite <- drop_drop, Hd. reflexivity.
Qed.

Lemma finish_list_spec (priv : list R) :
  finish_list zero patch priv
  = (Z.of_nat (length priv), patched (Z.of_nat (length priv)) priv).
Proof.
  unfold finish_list. rewrite count_entries_length, Z.add_0_l.
  cbv zeta. rewrite Nat2Z.id. f_equal.
  rewrite copy_entries_spec by (rewrite length_replicate; lia).
  rewrite drop_ge by (rewrite length_replicate; lia).
  apply app_nil_r.
Qed.

Lemma patched_length (max : Z) (l : list R) : length (patched max l) = length l.
Proof. unfold patched. rewrite length_imap, length_reverse. reflexivity. Qed.

Lemma patched_lookup (max : Z) (l : list R) (i : nat) :
  patched max l !! i = patch max (Z.of_nat i) <$> (reverse l !! i).
Proof. unfold patched. rewrite list_lookup_imap. reflexivity. Qed.
End finish_list_facts.

(** ** Running a file *)

Lemma run_lines_app {L S : Type} (cb : L -> S -> outcome S) (a b : list L) (s : S) :
  run_lines cb (a ++ b) s
  = match run_lines cb a s with
    | Returned PARSE_ERROR_NONE s1 => run_lines cb b s1
    | other => other
    end.
Proof.
  revert s. induction a as [|l a IH]; intros s; simpl.
  - reflexivity.
  - destruct (cb l s) as [[] s1|f]; try reflexivity. apply IH.
Qed.

Lemma run_lines_snoc {L S : Type} (cb : L -> S -> outcome S) (a : list L) (l : L)
  (s s' : S) :
  run_lines cb (a ++ [l]) s = Returned PARSE_ERROR_NONE s' ->
  exists s1, run_lines cb a s = Returned PARSE_ERROR_NONE s1
             /\ cb l s1 = Returned PARSE_ERROR_NONE s'.
Proof.
  rewrite run_lines_app.
  destruct (run_lines cb a s) as [[] s1|f]; try discriminate.
  simpl. intros H. exists s1. split; [reflexivity|].
  destruct (cb l s1) as [[] s2|f]; try discriminate. exact H.
Qed.


(** ** Projections *)

(** The token loop of pvp-flags writes to [flags] only. *)
Lemma pvp_flags_loop_frame (toks : list string) (r : projection) :
  let r' := snd (pvp_flags_loop toks r) in
  proj_index r' = proj_index r /\ proj_name r' = proj_name r
  /\ proj_type r' = proj_type r /\ proj_desc r' = proj_desc r
  /\ proj_blind_desc r' = proj_blind_desc r /\ proj_lash_desc r' = proj_lash_desc r
  /\ proj_numerator r' = proj_numerator r /\ proj_denominator r' = proj_denominator r
  /\ proj_divisor r' = proj_divisor r /\ proj_damage_cap r' = proj_damage_cap r
  /\ proj_msgt r' = proj_msgt r /\ proj_obvious r' = proj_obvious r
  /\ proj_color r' = proj_color r /\ proj_threat r' = proj_threat r
  /\ proj_threat_flag r' = proj_threat_flag r.
Proof.
  revert r. induction toks as [|s toks IH]; intros r; cbn [pvp_flags_loop].
  - simpl. repeat split.
  - repeat match goal with
           | |- context [if streq ?a ?b then _ else _] => destruct (streq a b)
           end;
      try (specialize (IH (set_proj_flags (Z.lor (proj_flags r) ATT_SAVE) r)); exact IH);
      try (specialize (IH (set_proj_flags (Z.lor (proj_flags r) ATT_DAMAGE) r)); exact IH);
      try (specialize (IH (set_proj_flags (Z.lor (proj_flags r) ATT_NON_PHYS) r)); exact IH);
      try (specialize (IH (set_proj_flags (Z.lor (proj_flags r) ATT_RAW) r)); exact IH).
    simpl. repeat split.
Qed.

(** A field directive with no record to take it does not return
    PARSE_ERROR_NONE. *)
Lemma projection_callback_no_record (l : projection_line) (priv' : list projection) :
  (forall code, l <> PL_code code) ->
  projection_callback l [] <> Returned PARSE_ERROR_NONE priv'.
Proof.
  intros Hl. destruct l; simpl; try discriminate.
  exfalso. eapply Hl. reflexivity.
Qed.

(** A field directive leaves the older records alone. *)
Lemma projection_callback_head (l : projection_line) (r : projection)
  (next priv' : list projection) :
  (forall code, l <> PL_code code) ->
  projection_callback l (r :: next) = Returned PARSE_ERROR_NONE priv' ->
  exists r', priv' = r' :: next /\ proj_index r' = proj_index r.
Proof.
  intros Hl.
  destruct l; simpl;
    try (intros H; injection H as <-; eexists; split; reflexivity).
  - exfalso. eapply Hl. reflexivity.
  - unfold parse_projection_message_type.
    destruct (_ <? 0); intros H; inversion H; subst. eexists; split; reflexivity.
  - unfold parse_projection_color.
    destruct (_ <? 0); intros H; inversion H; subst. eexists; split; reflexivity.
  - unfold parse_projection_pvp_flags. destruct flags as [flags|].
    + pose proof (pvp_flags_loop_frame (strtok_all flags) r) as Hf.
      destruct (pvp_flags_loop (strtok_all flags) r) as [e r'].
      intros H; inversion H; subst. eexists; split; [reflexivity|].
      simpl in Hf. apply Hf.
    + intros H; inversion H; subst. eexists; split; reflexivity.
  - unfold parse_projection_threat_flag.
    destruct (_ =? FLAG_END); intros H; inversion H; subst.
    eexists; split; reflexivity.
Qed.

Lemma projection_line_cases (l : projection_line) :
  (exists code, l = PL_code code) \/ (forall code, l <> PL_code code).
Proof. destruct l; try (right; discriminate). left. eexists. reflexivity. Qed.

Lemma add_line_field (l : projection_line) (code : string)
  (blk : list projection_line) (older : list (string * list projection_line)) :
  (forall c, l <> PL_code c) ->
  add_line ((code, blk) :: older) l = (code, blk ++ [l]) :: older.
Proof. intros Hl. destruct l; try reflexivity. exfalso. eapply Hl. reflexivity. Qed.

Lemma parse_projection_code_pushes (code : string) (priv priv' : list projection)
  (e : parser_error) :
  parse_projection_code code priv = Returned e priv' ->
  priv' = set_proj_index (match priv with
                          | h :: _ => proj_index h + 1
                          | [] => 0
                          end) projection_zero :: priv.
Proof.
  unfold parse_projection_code.
  destruct (_ && _); intros H; inversion H; reflexivity.
Qed.

(** What one field of the records holds after a file was read. *)
Section projection_field.
Context {A : Type}.
Variable f : projection -> A.
Variable sel : projection_line -> option A.
Hypothesis f_line : forall l r next r',
  projection_callback l (r :: next) = Returned PARSE_ERROR_NONE (r' :: next) ->
  (forall code, l <> PL_code code) ->
  f r' = default (f r) (sel l).
Hypothesis f_index : forall i, f (set_proj_index i projection_zero) = f projection_zero.

End projection_field.



(** The index of a record is its position in the file. *)
Lemma index_after_run (file : list projection_line) (priv : list projection) :
  run_lines projection_callback file [] = Returned PARSE_ERROR_NONE priv ->
  forall (j : nat) (r : projection),
    priv !! j = Some r ->
    proj_index r = Z.of_nat (length priv) - 1 - Z.of_nat j.
Proof.
  revert priv. induction file as [|l file IH] using rev_ind; intros priv Hrun j r Hj.
  - simpl in Hrun. inversion Hrun; subst. discriminate.
  - apply run_lines_snoc in Hrun as (s1 & Hrun & Hcb).
    specialize (IH s1 Hrun).
    destruct (projection_line_cases l) as [[code ->]|Hl].
    + simpl in Hcb. apply parse_projection_code_pushes in Hcb. subst priv.
      destruct j as [|j]; simpl in Hj.
      * inversion Hj; subst r. simpl.
        destruct s1 as [|h s1]; [reflexivity|].
        rewrite (IH 0%nat h eq_refl). simpl length. lia.
      * rewrite (IH j r Hj). simpl length. lia.
    + destruct s1 as [|r0 next].
      { exfalso. eapply projection_callback_no_record; eassumption. }
      destruct (projection_callback_head l r0 next priv Hl Hcb) as (r' & -> & Hidx).
      destruct j as [|j]; simpl in Hj.
      * inversion Hj; subst r. rewrite Hidx. apply (IH 0%nat r0 eq_refl).
      * apply (IH (S j) r Hj).
Qed.

(** The code of a record among the first ELEM_MAX is the element name of its
    index. *)
Lemma code_after_run (file : list projection_line) (priv : list projection) :
  run_lines projection_callback file [] = Returned PARSE_ERROR_NONE priv ->
  Forall2 (fun r cb =>
             proj_index r < ELEM_MAX ->
             list_element_names !! Z.to_nat (proj_index r) = Some (fst cb))
    priv (fold_left add_line file []).
Proof.
  revert priv. induction file as [|l file IH] using rev_ind; intros priv Hrun.
  - simpl in Hrun. inversion Hrun. constructor.
  - apply run_lines_snoc in Hrun as (s1 & Hrun & Hcb).
    pose proof (index_after_run file s1 Hrun) as Hidx.
    specialize (IH s1 Hrun). rewrite fold_left_app. simpl.
    destruct (projection_line_cases l) as [[code ->]|Hl].
    + simpl in Hcb. pose proof Hcb as Hpush.
      apply parse_projection_code_pushes in Hpush. subst priv.
      constructor; [|exact IH]. simpl.
      unfold parse_projection_code in Hcb.
      set (index := match s1 with h :: _ => proj_index h + 1 | [] => 0 end) in *.
      assert (Hge : 0 <= index).
      { subst index. destruct s1 as [|h s1]; [lia|].
        rewrite (Hidx 0%nat h eq_refl). simpl length. lia. }
      intros Hlt.
      destruct ((index <? ELEM_MAX)
                && negb (streq code (default "" (array_get list_element_names index))))
        eqn:Hc; [discriminate|].
      apply andb_false_iff in Hc as [Hc|Hc]; [apply Z.ltb_ge in Hc; lia|].
      apply negb_false_iff, streq_true in Hc.
      unfold array_get in Hc. replace (0 <=? index) with true in Hc
        by (symmetry; apply Z.leb_le; exact Hge).
      destruct (list_element_names !! Z.to_nat index) as [n|] eqn:Hn.
      * simpl in Hc. subst. reflexivity.
      * apply lookup_ge_None in Hn. unfold ELEM_MAX in Hlt. lia.
    + destruct s1 as [|r0 next].
      { exfalso. eapply projection_callback_no_record; eassumption. }
      inversion IH as [|r1 cb next0 older Hr Hrest]; subst.
      destruct cb as [code blk]. rewrite add_line_field by assumption.
      destruct (projection_callback_head l r0 next priv Hl Hcb) as (r' & -> & Hi).
      constructor; [|exact Hrest]. simpl in *. rewrite Hi. exact Hr.
Qed.

(** ** Tables *)

Lemma patched_plain {R : Type} (max : Z) (l : list R) :
  patched (fun _ _ node => node) max l = reverse l.
Proof.
  apply list_eq. intros i. rewrite patched_lookup.
  destruct (reverse l !! i); reflexivity.
Qed.

Lemma finish_plain {R : Type} (zero : R) (priv : list R) :
  finish_list zero (fun _ _ node => node) priv
  = (Z.of_nat (length priv), reverse priv).
Proof. rewrite finish_list_spec, patched_plain. reflexivity. Qed.

(** Writing row [t] of an array. *)
Lemma array_set_lookup {A : Type} (arr : list A) (i : Z) (x : A) (t : nat) :
  0 <= i < Z.of_nat (length arr) ->
  array_set arr i x !! t = if decide (Z.to_nat i = t) then Some x else arr !! t.
Proof.
  intros Hi. unfold array_set.
  replace ((0 <=? i) && (i <? Z.of_nat (length arr))) with true
    by (symmetry; apply andb_true_intro; split; [apply Z.leb_le|apply Z.ltb_lt]; lia).
  destruct (decide (Z.to_nat i = t)) as [<-|Hne].
  - apply list_lookup_insert_eq. lia.
  - apply list_lookup_insert_ne. exact Hne.
Qed.

Lemma array_set_length {A : Type} (arr : list A) (i : Z) (x : A) :
  length (array_set arr i x) = length arr.
Proof.
  unfold array_set. destruct (_ && _); [apply length_insert|reflexivity].
Qed.



Lemma foldl_alter_seq_lookup {A : Type} (f : nat -> A -> A) (n start : nat)
  (l : list A) (j : nat) :
  foldl (fun l i => alter (f i) i l) l (seq start n) !! j
  = if decide (start <= j < start + n)%nat then f j <$> l !! j else l !! j.
Proof.
  revert start l. induction n as [|n IH]; intros start l; simpl.
  - destruct (decide _); [lia|reflexivity].
  - rewrite IH.
    destruct (decide (S start <= j < S start + n)%nat) as [Hin|Hout].
    + rewrite list_lookup_alter_ne by lia.
      destruct (decide _); [reflexivity|lia].
    + destruct (decide (start = j)) as [->|Hne].
      * rewrite list_lookup_alter_eq. destruct (decide _); [reflexivity|lia].
      * rewrite list_lookup_alter_ne by exact Hne.
        destruct (decide _); [lia|reflexivity].
Qed.

Lemma foldl_alter_seq_length {A : Type} (f : nat -> A -> A) (n start : nat)
  (l : list A) :
  length (foldl (fun l i => alter (f i) i l) l (seq start n)) = length l.
Proof.
  revert start l. induction n as [|n IH]; intros start l; simpl.
  - reflexivity.
  - rewrite IH. apply length_alter.
Qed.

(** The artifact table: the records in file order, then nine empty rows. *)
Lemma finish_parse_artifact_spec (priv : list artifact) :
  in_file_order finish_artifact_row priv (finish_parse_artifact priv)
  /\ length (snd (finish_parse_artifact priv)) = (length priv + 9)%nat
  /\ forall i : nat,
       (length priv <= i < length priv + 9)%nat ->
       snd (finish_parse_artifact priv) !! i
       = Some (set_a_aidx (Z.of_nat i) artifact_zero).
Proof.
  unfold finish_parse_artifact, in_file_order.
  rewrite count_entries_length, Z.add_0_l. cbv zeta. cbn [fst snd].
  replace (Z.to_nat (Z.of_nat (length priv) + 9)) with (length priv + 9)%nat by lia.
  rewrite Nat2Z.id.
  rewrite copy_entries_spec by (rewrite length_replicate; lia).
  rewrite replicate_add, drop_app_length' by (symmetry; apply length_replicate).
  split; [split; [reflexivity|]|split].
  - intros i Hi. rewrite foldl_alter_seq_lookup.
    destruct (decide _); [lia|].
    rewrite lookup_app_l by (rewrite patched_length; exact Hi).
    apply patched_lookup.
  - rewrite foldl_alter_seq_length, length_app, patched_length, length_replicate.
    reflexivity.
  - intros i Hi. rewrite foldl_alter_seq_lookup.
    destruct (decide _); [|lia].
    rewrite lookup_app_r by (rewrite patched_length; lia).
    rewrite patched_length, lookup_replicate_2 by lia. reflexivity.
Qed.

(** ** Artifacts and the dummy object kind *)

Lemma flag_on_has (flags : Z) (flag : nat) : flag_has (flag_on flags flag) flag = true.
Proof.
  unfold flag_has, flag_on.
  rewrite Z.lor_spec, Z.shiftl_spec by lia.
  rewrite Z.sub_diag. simpl. apply orb_true_r.
Qed.

(** The loop over kb_info finds the first base of the tval. *)
Lemma dummy_sval_loop_found (rows : list object_base) (tval : Z) (start : nat) :
  (exists j base, rows !! j = Some base /\ kb_tval base = tval) ->
  exists j0 base0,
    rows !! j0 = Some base0 /\ kb_tval base0 = tval
    /\ (forall j b, (j < j0)%nat -> rows !! j = Some b -> kb_tval b <> tval)
    /\ dummy_sval_loop rows tval start = Some ((start + j0)%nat, kb_num_svals base0 + 1).
Proof.
  revert start. induction rows as [|b rows IH]; intros start (j & base & Hj & Ht).
  - discriminate.
  - cbn [dummy_sval_loop]. destruct (kb_tval b =? tval) eqn:Hb.
    + apply Z.eqb_eq in Hb. exists 0%nat, b.
      split; [reflexivity|]. split; [exact Hb|]. split; [intros; lia|].
      rewrite Nat.add_0_r. reflexivity.
    + apply Z.eqb_neq in Hb. destruct j as [|j]; simpl in Hj.
      { inversion Hj; subst. contradiction. }
      destruct (IH (S start)) as (j0 & base0 & H0 & Ht0 & Hfirst & Hloop).
      { exists j, base. split; assumption. }
      exists (S j0), base0. split; [exact H0|]. split; [exact Ht0|]. split.
      * intros j' b' Hlt Hb'. destruct j' as [|j']; simpl in Hb'.
        -- inversion Hb'; subst. exact Hb.
        -- apply (Hfirst j' b'); [lia|exact Hb'].
      * rewrite Hloop. f_equal. f_equal. lia.
Qed.

(** lookup_kind finds the first row with the tval and sval. *)
Lemma lookup_kind_from_skip (older : list object_kind) (rest : list object_kind)
  (tval sval k : Z) :
  Forall (fun kind => ~ (k_tval kind = tval /\ k_sval kind = sval)) older ->
  lookup_kind_from (older ++ rest) tval sval k
  = lookup_kind_from rest tval sval (k + Z.of_nat (length older)).
Proof.
  intros Hold. revert k. induction Hold as [|kind older Hk Hold IH]; intros k.
  - simpl. f_equal. lia.
  - cbn [app lookup_kind_from length].
    replace ((k_tval kind =? tval) && (k_sval kind =? sval)) with false.
    + rewrite IH. f_equal. lia.
    + symmetry. apply andb_false_iff.
      destruct (Z.eq_dec (k_tval kind) tval) as [Ht|Ht];
        [right|left]; apply Z.eqb_neq; [|exact Ht].
      intros Hs. apply Hk. split; assumption.
Qed.

Lemma lookup_kind_from_Some (rows : list object_kind) (tval sval k row : Z) :
  lookup_kind_from rows tval sval k = Some row ->
  exists (j : nat) (kind : object_kind),
    row = k + Z.of_nat j /\ rows !! j = Some kind
    /\ k_tval kind = tval /\ k_sval kind = sval.
Proof.
  revert k. induction rows as [|kind rows IH]; intros k H; [discriminate|].
  cbn [lookup_kind_from] in H.
  destruct ((k_tval kind =? tval) && (k_sval kind =? sval)) eqn:Hm.
  - inversion H; subst. apply andb_true_iff in Hm as [Ht Hs].
    apply Z.eqb_eq in Ht, Hs. exists 0%nat, kind.
    split; [lia|]. split; [reflexivity|]. split; assumption.
  - destruct (IH _ H) as (j & kind' & -> & Hj & Ht & Hs).
    exists (S j), kind'. split; [lia|]. split; [exact Hj|]. split; assumption.
Qed.

(** What a [base-object] directive with an unknown sval name does. *)
Lemma dummy_created (tval_name sval_name : string) (st : artifact_state)
  (a : artifact) (next : list artifact) :
  st_priv st = a :: next ->
  0 <= tval_find_idx tval_name ->
  lookup_sval_silent (st_k_max st) (st_k_info st) (tval_find_idx tval_name) sval_name < 0 ->
  st_k_max st = table_max (st_k_info st) ->
  (exists j base, take (Z.to_nat TV_MAX) (st_kb_info st) !! j = Some base
                  /\ kb_tval base = tval_find_idx tval_name) ->
  exists (st' : artifact_state) (dummy : object_kind) (a' : artifact)
         (j0 : nat) (base0 : object_base),
    parse_artifact_base_object true tval_name sval_name st
    = Returned PARSE_ERROR_NONE st'
    /\ st_k_info st' = st_k_info st ++ [dummy]
    /\ st_k_max st' = st_k_max st + 1
    /\ st_k_max st' = table_max (st_k_info st')
    /\ k_kidx dummy = table_max (st_k_info st)
    /\ flag_has (k_kind_flags dummy) KF_INSTA_ART = true
    /\ k_tval dummy = tval_find_idx tval_name
    /\ k_level dummy = -1
    /\ k_weight dummy = -1
    /\ st_kb_info st !! j0 = Some base0
    /\ kb_tval base0 = tval_find_idx tval_name
    /\ k_sval dummy = kb_num_svals base0 + 1
    /\ st_kb_info st' !! j0 = Some (set_kb_num_svals (kb_num_svals base0 + 1) base0)
    /\ st_priv st' = a' :: next
    /\ a_tval a' = k_tval dummy
    /\ a_sval a' = k_sval dummy.
Proof.
  intros Hpriv Htval Hsval Hmax Hbase.
  unfold parse_artifact_base_object. rewrite Hpriv.
  replace (tval_find_idx tval_name <? 0) with false by (symmetry; apply Z.ltb_ge; lia).
  cbn [a_tval set_a_tval].
  replace (_ <? 0) with true by (symmetry; apply Z.ltb_lt; exact Hsval).
  unfold write_dummy_object_record. cbn [negb].
  cbn [k_tval set_k_tval set_k_name set_k_kidx a_tval set_a_tval object_kind_zero].
  destruct (dummy_sval_loop_found _ _ 0%nat Hbase)
    as (j0 & base0 & Hj0 & Ht0 & _ & Hloop).
  rewrite Hloop. cbn [Nat.add].
  assert (Hkb : st_kb_info st !! j0 = Some base0).
  { rewrite lookup_take_Some in Hj0. apply Hj0. }
  eexists _, _, _, j0, base0.
  split; [reflexivity|]. unfold table_max in *.
  repeat split; simpl; try reflexivity; try assumption.
  - rewrite length_app. simpl. lia.
  - lia.
  - apply flag_on_has.
  - rewrite list_lookup_alter_eq, Hkb. reflexivity.
Qed.

Lemma array_get_alter_kind (f : object_kind -> object_kind) (row j : Z)
  (k_info : list object_kind) :
  array_get (alter_kind f row k_info) j
  = if decide (row = j) then f <$> array_get k_info j else array_get k_info j.
Proof.
  unfold alter_kind, array_get.
  destruct (decide (row = j)) as [->|Hne].
  - destruct (0 <=? j); [apply list_lookup_alter_eq|reflexivity].
  - destruct (0 <=? row) eqn:Hrow; [|reflexivity].
    destruct (0 <=? j) eqn:Hj; [|reflexivity].
    apply Z.leb_le in Hrow, Hj. apply list_lookup_alter_ne. lia.
Qed.

(** What a [level] directive does, given the kind lookup_kind finds. *)
Lemma artifact_level_spec (v : Z) (st : artifact_state) (a : artifact)
  (next : list artifact) (row : Z) (k : object_kind) :
  st_priv st = a :: next ->
  lookup_kind (st_k_max st) (st_k_info st) (a_tval a) (a_sval a) = Some row ->
  array_get (st_k_info st) row = Some k ->
  exists st',
    parse_artifact_level v st = Returned PARSE_ERROR_NONE st'
    /\ st_priv st' = set_a_level v a :: next
    /\ st_k_max st' = st_k_max st /\ st_kb_info st' = st_kb_info st
    /\ (k_level k = -1 ->
        array_get (st_k_info st') row = Some (set_k_level v k)
        /\ forall j, j <> row ->
             array_get (st_k_info st') j = array_get (st_k_info st) j)
    /\ (k_level k <> -1 -> st_k_info st' = st_k_info st).
Proof.
  intros Hpriv Hrow Hk. unfold parse_artifact_level.
  rewrite Hpriv, Hrow, Hk. eexists. split; [reflexivity|].
  cbn [st_priv st_k_max st_kb_info st_k_info].
  split; [reflexivity|]. split; [reflexivity|]. split; [reflexivity|]. split.
  - intros Hs. replace (k_level k =? -1) with true by (symmetry; apply Z.eqb_eq; exact Hs).
    split.
    + rewrite array_get_alter_kind, Hk.
      destruct (decide (row = row)); [reflexivity|contradiction].
    + intros j Hj. rewrite array_get_alter_kind.
      destruct (decide (row = j)); [congruence|reflexivity].
  - intros Hne. apply Z.eqb_neq in Hne. rewrite Hne. reflexivity.
Qed.

Lemma artifact_weight_spec (v : Z) (st : artifact_state) (a : artifact)
  (next : list artifact) (row : Z) (k : object_kind) :
  st_priv st = a :: next ->
  lookup_kind (st_k_max st) (st_k_info st) (a_tval a) (a_sval a) = Some row ->
  array_get (st_k_info st) row = Some k ->
  exists st',
    parse_artifact_weight v st = Returned PARSE_ERROR_NONE st'
    /\ st_priv st' = set_a_weight v a :: next
    /\ st_k_max st' = st_k_max st /\ st_kb_info st' = st_kb_info st
    /\ (k_weight k = -1 ->
        array_get (st_k_info st') row = Some (set_k_weight v k)
        /\ forall j, j <> row ->
             array_get (st_k_info st') j = array_get (st_k_info st) j)
    /\ (k_weight k <> -1 -> st_k_info st' = st_k_info st).
Proof.
  intros Hpriv Hrow Hk. unfold parse_artifact_weight.
  rewrite Hpriv, Hrow, Hk. eexists. split; [reflexivity|].
  cbn [st_priv st_k_max st_kb_info st_k_info].
  split; [reflexivity|]. split; [reflexivity|]. split; [reflexivity|]. split.
  - intros Hs. replace (k_weight k =? -1) with true by (symmetry; apply Z.eqb_eq; exact Hs).
    split.
    + rewrite array_get_alter_kind, Hk.
      destruct (decide (row = row)); [reflexivity|contradiction].
    + intros j Hj. rewrite array_get_alter_kind.
      destruct (decide (row = j)); [congruence|reflexivity].
  - intros Hne. apply Z.eqb_neq in Hne. rewrite Hne. reflexivity.
Qed.

(** After the dummy kind was created, lookup_kind gives it for the artifact:
    no older kind of the tval has an sval above the sval count of the tval. *)
Lemma dummy_found (tval_name sval_name : string) (st : artifact_state)
  (a : artifact) (next : list artifact) :
  st_priv st = a :: next ->
  0 <= tval_find_idx tval_name ->
  lookup_sval_silent (st_k_max st) (st_k_info st) (tval_find_idx tval_name) sval_name < 0 ->
  st_k_max st = table_max (st_k_info st) ->
  (exists j base, take (Z.to_nat TV_MAX) (st_kb_info st) !! j = Some base
                  /\ kb_tval base = tval_find_idx tval_name) ->
  (forall kind j base,
     kind ∈ st_k_info st -> k_tval kind = tval_find_idx tval_name ->
     st_kb_info st !! j = Some base -> kb_tval base = tval_find_idx tval_name ->
     k_sval kind <= kb_num_svals base) ->
  exists (st' : artifact_state) (dummy : object_kind) (a' : artifact),
    parse_artifact_base_object true tval_name sval_name st
    = Returned PARSE_ERROR_NONE st'
    /\ st_priv st' = a' :: next
    /\ lookup_kind (st_k_max st') (st_k_info st') (a_tval a') (a_sval a')
       = Some (table_max (st_k_info st))
    /\ array_get (st_k_info st') (table_max (st_k_info st)) = Some dummy
    /\ k_level dummy = -1 /\ k_weight dummy = -1
    /\ flag_has (k_kind_flags dummy) KF_INSTA_ART = true.
Proof.
  intros Hpriv Htval Hsval Hmax Hbase Hsvals.
  destruct (dummy_created tval_name sval_name st a next Hpriv Htval Hsval Hmax Hbase)
    as (st' & dummy & a' & j0 & base0 & Hrun & Hinfo & Hmax' & Hmax'' & Hkidx & Hflag
        & Hdt & Hlevel & Hweight & Hj0 & Hbt & Hds & _ & Hpriv' & Hat & Has).
  exists st', dummy, a'. split; [exact Hrun|]. split; [exact Hpriv'|].
  unfold table_max in *. split; [|split; [|auto]].
  - unfold lookup_kind. rewrite Hmax'', Nat2Z.id, firstn_all, Hinfo.
    rewrite lookup_kind_from_skip.
    + cbn [lookup_kind_from]. rewrite Hat, Has, !Z.eqb_refl. simpl. f_equal.
    + apply Forall_forall. intros kind Hkind [Ht Hs].
      rewrite Hat, Hdt in Ht. rewrite Has, Hds in Hs.
      pose proof (Hsvals kind j0 base0 Hkind Ht Hj0 Hbt). lia.
  - unfold array_get.
    replace (0 <=? Z.of_nat (length (st_k_info st))) with true
      by (symmetry; apply Z.leb_le; lia).
    rewrite Nat2Z.id, Hinfo. apply list_lookup_middle. reflexivity.
Qed.

(** ** References into the finished tables *)




(** ** The token loops *)
Section token_loop_facts.
Context {R : Type}.





(** A relation every matcher respects holds between the record before the
    loop and the record after it. *)
Section respected.
Variable Q : R -> R -> Prop.
Hypothesis Q_refl : forall r, Q r r.
Hypothesis Q_trans : forall r1 r2 r3, Q r1 r2 -> Q r2 r3 -> Q r1 r3.

Lemma try_matchers_respects (ms : list (@matcher R)) (t : string) (found : bool)
  (r : R) :
  (forall m r1 r2, m ∈ ms -> m t r1 = Some r2 -> Q r1 r2) ->
  Q r (snd (try_matchers ms t found r)).
Proof using Type Q_refl Q_trans.
  revert found r. induction ms as [|m ms IH]; intros found r Hms; simpl.
  - apply Q_refl.
  - assert (Hms' : forall m' r1 r2, m' ∈ ms -> m' t r1 = Some r2 -> Q r1 r2).
    { intros m' r1 r2 Hm'. apply Hms. apply list_elem_of_further, Hm'. }
    destruct (m t r) as [r'|] eqn:Hm.
    + eapply Q_trans; [|apply IH, Hms'].
      eapply Hms; [apply list_elem_of_here|exact Hm].
    + apply IH, Hms'.
Qed.

Lemma token_loop_respects (ms : list (@matcher R)) (toks : list string) (r : R) :
  (forall m t r1 r2, m ∈ ms -> m t r1 = Some r2 -> Q r1 r2) ->
  Q r (snd (token_loop ms toks r)).
Proof using Type Q_refl Q_trans.
  intros Hms. revert r. induction toks as [|t toks IH]; intros r; simpl.
  - apply Q_refl.
  - pose proof (try_matchers_respects ms t false r (fun m => Hms m t)) as Hq.
    destruct (try_matchers ms t false r) as [found r']. simpl in Hq.
    destruct found; [|exact Hq].
    eapply Q_trans; [exact Hq|apply IH].
Qed.
End respected.
End token_loop_facts.

Lemma flag_on_keeps (flags : Z) (flag i : nat) :
  flag_has flags i = true -> flag_has (flag_on flags flag) i = true.
Proof.
  unfold flag_has, flag_on. intros H. rewrite Z.lor_spec, H. reflexivity.
Qed.


Lemma grab_flag_Some (flags flags' : Z) (table : list string) (t : string) :
  grab_flag flags table t = Some flags' ->
  exists flag, name_index table t = Some flag /\ flags' = flag_on flags flag.
Proof.
  unfold grab_flag. destruct (name_index table t) as [flag|]; [|discriminate].
  intros H. inversion H. exists flag. split; reflexivity.
Qed.

(** The bits a loop set stay set: the flag a valid token names in the table
    of the first matcher is in the flag set when the loop is over. *)
Section bits_stay.
Context {R : Type}.
Variable bits : R -> Z.
Variable table : list string.
Variable ms : list (@matcher R).
Hypothesis first_sets : forall t r flag,
  name_index table t = Some flag ->
  exists r1, hd (fun _ _ => None) ms t r = Some r1 /\ flag_has (bits r1) flag = true.
Hypothesis all_keep : forall m t r1 r2 i,
  m ∈ ms -> m t r1 = Some r2 -> flag_has (bits r1) i = true ->
  flag_has (bits r2) i = true.


End bits_stay.






(** ** Cleanup *)
Section cleanup_facts.
Context {R : Type}.
Variable owned : R -> list (option loc).

Lemma without_lookup_other (ps : list loc) (h : gmap loc (block R)) (p : loc) :
  p ∉ ps -> without ps h !! p = h !! p.
Proof.
  unfold without. revert h. induction ps as [|q ps IH]; intros h Hp; simpl.
  - reflexivity.
  - apply not_elem_of_cons in Hp as [Hne Hp].
    rewrite IH by exact Hp. apply lookup_delete_ne. congruence.
Qed.

Lemma without_app (ps qs : list loc) (h : gmap loc (block R)) :
  without (ps ++ qs) h = without qs (without ps h).
Proof. unfold without. apply foldl_app. Qed.

Lemma free_all_ok (ps : list (option loc)) (h : gmap loc (block R)) :
  NoDup (omap id ps) ->
  (forall p, p ∈ omap id ps -> is_Some (h !! p)) ->
  free_all ps h = HeapOk (without (omap id ps) h).
Proof.
  revert h. induction ps as [|[l|] ps IH]; intros h Hnd Hlive.
  - reflexivity.
  - cbn [omap list_omap id] in *. cbn [free_all mem_free].
    apply NoDup_cons in Hnd as [Hl Hnd].
    destruct (Hlive l) as [b Hb]; [apply list_elem_of_here|].
    rewrite Hb. rewrite IH; [reflexivity|exact Hnd|].
    intros p Hp. rewrite lookup_delete_ne by (intros ->; contradiction).
    apply Hlive. apply list_elem_of_further, Hp.
  - cbn [omap list_omap id] in *. cbn [free_all mem_free]. apply IH; assumption.
Qed.

Lemma cleanup_rows_ok (table : loc) (rows : list R) (n idx : nat)
  (h : gmap loc (block R)) :
  h !! table = Some (BTable rows) ->
  (idx + n = length rows)%nat ->
  NoDup (owned_blocks owned (drop idx rows)) ->
  table ∉ owned_blocks owned (drop idx rows) ->
  (forall p, p ∈ owned_blocks owned (drop idx rows) -> is_Some (h !! p)) ->
  cleanup_rows owned table n idx h
  = HeapOk (without (owned_blocks owned (drop idx rows)) h).
Proof.
  revert idx h. induction n as [|n IH]; intros idx h Htable Hlen Hnd Hnot Hlive.
  - rewrite drop_ge by lia. reflexivity.
  - cbn [cleanup_rows]. rewrite Htable.
    destruct (rows !! idx) as [r|] eqn:Hr.
    2:{ apply lookup_ge_None in Hr. lia. }
    rewrite (drop_S _ _ _ Hr) in *.
    unfold owned_blocks in *. cbn [mbind list_bind] in *.
    rewrite omap_app in *.
    apply NoDup_app in Hnd as (Hnd1 & Hdisj & Hnd2).
    apply not_elem_of_app in Hnot as [Hnot1 Hnot2].
    rewrite free_all_ok; [|exact Hnd1|].
    2:{ intros p Hp. apply Hlive. apply elem_of_app. left. exact Hp. }
    rewrite IH.
    + rewrite without_app. reflexivity.
    + rewrite without_lookup_other by exact Hnot1. exact Htable.
    + lia.
    + exact Hnd2.
    + exact Hnot2.
    + intros p Hp. rewrite without_lookup_other.
      * apply Hlive. apply elem_of_app. right. exact Hp.
      * intros Hp1. apply (Hdisj p Hp1 Hp).
Qed.

Lemma cleanup_table_ok (table : loc) (rows : list R) (h : gmap loc (block R)) :
  table_in_heap owned table rows h ->
  cleanup_table owned (Some table) (Z.of_nat (length rows)) h
  = HeapOk (without (owned_blocks owned rows ++ [table]) h).
Proof.
  intros (Htable & Hnd & Hlive).
  apply NoDup_app in Hnd as (Hnd & Hdisj & _).
  assert (Hnot : table ∉ owned_blocks owned rows).
  { intros Hin. apply (Hdisj table Hin). apply list_elem_of_here. }
  unfold cleanup_table. rewrite Nat2Z.id.
  rewrite (cleanup_rows_ok table rows (length rows) 0 h Htable);
    rewrite ?drop_0; auto.
  cbn [mem_free]. rewrite without_lookup_other by exact Hnot.
  rewrite Htable, without_app. reflexivity.
Qed.

Lemma cleanup_table_null (max : Z) (h : gmap loc (block R)) :
  cleanup_table owned None max h = HeapOk h.
Proof. reflexivity. Qed.

(** A cleanup that went through took the table block away; the pointer still
    holds its address, and the next cleanup stops on it. *)
Lemma cleanup_table_again (table : loc) (max : Z) (h h' : gmap loc (block R)) :
  cleanup_table owned (Some table) max h = HeapOk h' ->
  h' !! table = None
  /\ (cleanup_table owned (Some table) max h' = HeapFault UseAfterFree
      \/ cleanup_table owned (Some table) max h' = HeapFault BadFree).
Proof.
  unfold cleanup_table.
  destruct (cleanup_rows owned table (Z.to_nat max) 0 h) as [h1|f]; [|discriminate].
  cbn [mem_free]. destruct (h1 !! table) eqn:H1; [|discriminate].
  intros H. inversion H; subst h'. clear H.
  assert (Hgone : delete table h1 !! table = None) by apply lookup_delete_eq.
  split; [exact Hgone|].
  destruct (Z.to_nat max) as [|n].
  - right. simpl. rewrite Hgone. reflexivity.
  - left. simpl. rewrite Hgone. reflexivity.
Qed.
End cleanup_facts.

(** * Further properties of the loader *)

(** ** grab_element_flag *)

Lemma skip_spaces_word (s : string) : is_word s = true -> skip_spaces s = s.
Proof.
  unfold is_word. destruct s as [|c s]; [discriminate|]. simpl.
  destruct (is_space c); [discriminate|reflexivity].
Qed.

Lemma scan_word_no_space (s : string) : no_space s = true -> scan_word s = s.
Proof.
  induction s as [|c s IH]; simpl; [reflexivity|].
  destruct (is_space c); [discriminate|]. simpl. intros H. rewrite IH by exact H.
  reflexivity.
Qed.

Lemma scan_word_word (s : string) : is_word s = true -> scan_word s = s.
Proof.
  unfold is_word. intros H. apply andb_true_iff in H as [_ H].
  apply scan_word_no_space, H.
Qed.

Lemma grab_element_loop_first (names : list string) (start i : nat)
  (prefix suffix : string) (bits : Z) (info : list element_info) :
  name_index names suffix = Some i ->
  (prefix = "IGNORE" /\ bits = EL_INFO_IGNORE
   \/ prefix = "HATES" /\ bits = EL_INFO_HATES) ->
  grab_element_loop names start prefix suffix info
  = Some (alter (el_flags_or bits) (start + i)%nat info).
Proof.
  intros Hi Hp. revert start i Hi.
  induction names as [|n names IH]; intros start i Hi; simpl in Hi; [discriminate|].
  simpl. destruct (streq n suffix) eqn:Hn.
  - apply streq_true in Hn. subst n. inversion Hi; subst i.
    replace (streq suffix suffix) with true by (symmetry; apply streq_true; reflexivity).
    rewrite Nat.add_0_r.
    destruct Hp as [[-> ->]|[-> ->]]; reflexivity.
  - replace (streq suffix n) with false.
    2:{ symmetry. apply streq_false. apply streq_false in Hn. congruence. }
    destruct (name_index names suffix) as [i'|] eqn:Hi'; [|discriminate].
    simpl in Hi. inversion Hi; subst i.
    rewrite (IH (S start) i' eq_refl). f_equal. f_equal. lia.
Qed.

Lemma grab_element_loop_Some (names : list string) (start : nat)
  (prefix suffix : string) (info info' : list element_info) :
  grab_element_loop names start prefix suffix info = Some info' ->
  exists (i : nat) (bits : Z),
    (bits = EL_INFO_IGNORE \/ bits = EL_INFO_HATES)
    /\ names !! i = Some suffix
    /\ info' = alter (el_flags_or bits) (start + i)%nat info.
Proof.
  revert start. induction names as [|n names IH]; intros start; simpl; [discriminate|].
  assert (Hrest : grab_element_loop names (S start) prefix suffix info = Some info' ->
                  exists (i : nat) (bits : Z),
                    (bits = EL_INFO_IGNORE \/ bits = EL_INFO_HATES)
                    /\ (n :: names) !! i = Some suffix
                    /\ info' = alter (el_flags_or bits) (start + i)%nat info).
  { intros H. destruct (IH _ H) as (i & bits & Hb & Hn & ->).
    exists (S i), bits. split; [exact Hb|]. split; [exact Hn|].
    f_equal. lia. }
  destruct (streq suffix n) eqn:Hn; [|exact Hrest].
  apply streq_true in Hn. subst n.
  destruct (streq prefix "IGNORE").
  { intros H. inversion H. exists 0%nat, EL_INFO_IGNORE.
    rewrite Nat.add_0_r. auto. }
  destruct (streq prefix "HATES"); [|exact Hrest].
  intros H. inversion H. exists 0%nat, EL_INFO_HATES.
  rewrite Nat.add_0_r. auto.
Qed.

Lemma el_info_grows_refl (info : list element_info) : el_info_grows info info.
Proof. split; [reflexivity|]. intros j e Hj. exists e. auto. Qed.

Lemma el_info_grows_trans (i1 i2 i3 : list element_info) :
  el_info_grows i1 i2 -> el_info_grows i2 i3 -> el_info_grows i1 i3.
Proof.
  intros [Hl1 H1] [Hl2 H2]. split; [congruence|].
  intros j e Hj. destruct (H1 j e Hj) as (e2 & Hj2 & Hr2 & Hb2).
  destruct (H2 j e2 Hj2) as (e3 & Hj3 & Hr3 & Hb3).
  exists e3. split; [exact Hj3|]. split; [congruence|]. auto.
Qed.

Lemma grab_element_flag_grows (info info' : list element_info) (flag_name : string) :
  grab_element_flag info flag_name = Some info' -> el_info_grows info info'.
Proof.
  unfold grab_element_flag.
  destruct (sscanf_prefix_suffix flag_name) as [[prefix suffix]|]; [|discriminate].
  intros H. apply grab_element_loop_Some in H as (i & bits & _ & _ & ->).
  split; [apply length_alter|].
  intros j e Hj. destruct (decide (j = (0 + i)%nat)) as [->|Hji].
  - exists (el_flags_or bits e). rewrite list_lookup_alter_eq, Hj.
    split; [reflexivity|]. split; [reflexivity|].
    intros b Hbit. simpl. rewrite Z.lor_spec, Hbit. reflexivity.
  - exists e. rewrite list_lookup_alter_ne by congruence. auto.
Qed.

Lemma flags_grow_refl (flags : Z) : flags_grow flags flags.
Proof. intros i H. exact H. Qed.

Lemma flags_grow_trans (f1 f2 f3 : Z) :
  flags_grow f1 f2 -> flags_grow f2 f3 -> flags_grow f1 f3.
Proof. intros H1 H2 i H. apply H2, H1, H. Qed.

Lemma grab_flag_grows (flags flags' : Z) (table : list string) (t : string) :
  grab_flag flags table t = Some flags' -> flags_grow flags flags'.
Proof.
  intros H. apply grab_flag_Some in H as (flag & _ & ->).
  intros i Hi. apply flag_on_keeps, Hi.
Qed.

Lemma object_flags_step_refl (k : object_kind) : object_flags_step k k.
Proof.
  split; [destruct k; reflexivity|].
  split; [apply flags_grow_refl|]. split; [apply flags_grow_refl|].
  apply el_info_grows_refl.
Qed.

Lemma object_flags_step_trans (k1 k2 k3 : object_kind) :
  object_flags_step k1 k2 -> object_flags_step k2 k3 -> object_flags_step k1 k3.
Proof.
  intros (E1 & F1 & K1 & I1) (E2 & F2 & K2 & I2).
  split.
  - rewrite E2 at 1. rewrite E1 at 1. destruct k1; reflexivity.
  - split; [eapply flags_grow_trans; eassumption|].
    split; [eapply flags_grow_trans; eassumption|].
    eapply el_info_grows_trans; eassumption.
Qed.

Lemma object_flag_matchers_step (m : @matcher object_kind) (t : string)
  (r1 r2 : object_kind) :
  m ∈ object_flag_matchers -> m t r1 = Some r2 -> object_flags_step r1 r2.
Proof.
  unfold object_flag_matchers. intros Hm Hmt.
  repeat (apply elem_of_cons in Hm as [->|Hm]); [..|inversion Hm].
  - destruct (grab_flag (k_flags r1) list_obj_flag_names t) eqn:Hg; [|discriminate].
    inversion Hmt; subst. apply grab_flag_grows in Hg.
    split; [destruct r1; reflexivity|]. split; [exact Hg|].
    split; [apply flags_grow_refl|apply el_info_grows_refl].
  - destruct (grab_flag (k_kind_flags r1) kind_flags t) eqn:Hg; [|discriminate].
    inversion Hmt; subst. apply grab_flag_grows in Hg.
    split; [destruct r1; reflexivity|]. split; [apply flags_grow_refl|].
    split; [exact Hg|apply el_info_grows_refl].
  - destruct (grab_element_flag (k_el_info r1) t) eqn:Hg; [|discriminate].
    inversion Hmt; subst. apply grab_element_flag_grows in Hg.
    split; [destruct r1; reflexivity|]. split; [apply flags_grow_refl|].
    split; [apply flags_grow_refl|exact Hg].
Qed.

Lemma object_base_flags_step_refl (k : object_base) : object_base_flags_step k k.
Proof.
  split; [destruct k; reflexivity|].
  split; [apply flags_grow_refl|]. split; [apply flags_grow_refl|].
  apply el_info_grows_refl.
Qed.

Lemma object_base_flags_step_trans (k1 k2 k3 : object_base) :
  object_base_flags_step k1 k2 -> object_base_flags_step k2 k3 ->
  object_base_flags_step k1 k3.
Proof.
  intros (E1 & F1 & K1 & I1) (E2 & F2 & K2 & I2).
  split.
  - rewrite E2 at 1. rewrite E1 at 1. destruct k1; reflexivity.
  - split; [eapply flags_grow_trans; eassumption|].
    split; [eapply flags_grow_trans; eassumption|].
    eapply el_info_grows_trans; eassumption.
Qed.

Lemma object_base_flag_matchers_step (m : @matcher object_base) (t : string)
  (r1 r2 : object_base) :
  m ∈ object_base_flag_matchers -> m t r1 = Some r2 -> object_base_flags_step r1 r2.
Proof.
  unfold object_base_flag_matchers. intros Hm Hmt.
  repeat (apply elem_of_cons in Hm as [->|Hm]); [..|inversion Hm].
  - destruct (grab_flag (kb_flags r1) list_obj_flag_names t) eqn:Hg; [|discriminate].
    inversion Hmt; subst. apply grab_flag_grows in Hg.
    split; [destruct r1; reflexivity|]. split; [exact Hg|].
    split; [apply flags_grow_refl|apply el_info_grows_refl].
  - destruct (grab_flag (kb_kind_flags r1) kind_flags t) eqn:Hg; [|discriminate].
    inversion Hmt; subst. apply grab_flag_grows in Hg.
    split; [destruct r1; reflexivity|]. split; [apply flags_grow_refl|].
    split; [exact Hg|apply el_info_grows_refl].
  - destruct (grab_element_flag (kb_el_info r1) t) eqn:Hg; [|discriminate].
    inversion Hmt; subst. apply grab_element_flag_grows in Hg.
    split; [destruct r1; reflexivity|]. split; [apply flags_grow_refl|].
    split; [apply flags_grow_refl|exact Hg].
Qed.

(** ** The svals of the object kinds *)

Lemma array_get_Some {A : Type} (arr : list A) (i : Z) (x : A) :
  array_get arr i = Some x -> 0 <= i < Z.of_nat (length arr) /\ arr !! Z.to_nat i = Some x.
Proof.
  unfold array_get. destruct (0 <=? i) eqn:Hi; [|discriminate].
  apply Z.leb_le in Hi. intros H. split; [|exact H].
  apply lookup_lt_Some in H. lia.
Qed.

Lemma array_get_array_set {A : Type} (arr : list A) (i j : Z) (x : A) :
  0 <= i < Z.of_nat (length arr) ->
  array_get (array_set arr i x) j = if decide (i = j) then Some x else array_get arr j.
Proof.
  intros Hi. unfold array_get. destruct (0 <=? j) eqn:Hj.
  - apply Z.leb_le in Hj. rewrite array_set_lookup by exact Hi.
    destruct (decide (Z.to_nat i = Z.to_nat j)) as [E|E];
      destruct (decide (i = j)) as [E'|E']; try reflexivity; lia.
  - apply Z.leb_gt in Hj. destruct (decide (i = j)); [lia|reflexivity].
Qed.

Lemma svals_numbered_name (kb_info : list object_base) (keys : list (Z * Z)) :
  svals_numbered kb_info keys -> svals_numbered kb_info ((0, 0) :: keys).
Proof.
  intros (Hpos & Hle & Hne). split; [exact Hpos|]. split.
  - intros t s base Hin Hbase. apply elem_of_cons in Hin as [Heq|Hin].
    + inversion Heq; subst. apply array_get_Some in Hbase as [_ Hbase].
      rewrite Forall_forall in Hpos.
      pose proof (Hpos base (list_elem_of_lookup_2 _ _ _ Hbase)). lia.
    + eapply Hle; eassumption.
  - intros i j t s Hij Hi Hj.
    destruct i as [|i], j as [|j]; simpl in Hi, Hj.
    + contradiction.
    + inversion Hi; reflexivity.
    + inversion Hj; reflexivity.
    + apply (Hne i j t s); [congruence|assumption..].
Qed.

Lemma svals_numbered_type (kb_info : list object_base) (keys : list (Z * Z))
  (key0 : Z * Z) (t : Z) (base : object_base) :
  svals_numbered kb_info (key0 :: keys) ->
  array_get kb_info t = Some base ->
  svals_numbered
    (array_set kb_info t (set_kb_num_svals (kb_num_svals base + 1) base))
    ((t, kb_num_svals base + 1) :: keys).
Proof.
  intros (Hpos & Hle & Hne) Hbase.
  pose proof (array_get_Some _ _ _ Hbase) as [Ht Hbase'].
  assert (Hn : 0 <= kb_num_svals base).
  { rewrite Forall_forall in Hpos.
    apply Hpos. eapply list_elem_of_lookup_2. exact Hbase'. }
  split; [|split].
  - unfold array_set.
    replace ((0 <=? t) && (t <? Z.of_nat (length kb_info))) with true
      by (symmetry; apply andb_true_intro; split; [apply Z.leb_le|apply Z.ltb_lt]; lia).
    apply Forall_insert; [exact Hpos|]. simpl. lia.
  - intros t' s b Hin Hb. rewrite array_get_array_set in Hb by exact Ht.
    destruct (decide (t = t')) as [<-|Htt].
    + inversion Hb; subst b. simpl.
      apply elem_of_cons in Hin as [Heq|Hin].
      * inversion Heq; subst. lia.
      * pose proof (Hle t s base (list_elem_of_further _ _ _ Hin) Hbase). lia.
    + apply elem_of_cons in Hin as [Heq|Hin]; [inversion Heq; subst; contradiction|].
      apply (Hle t' s b); [apply list_elem_of_further, Hin|exact Hb].
  - intros i j t' s Hij Hi Hj.
    assert (Hfresh : forall n, keys !! n = Some (t, kb_num_svals base + 1) -> False).
    { intros n Hk.
      pose proof (Hle t _ base
                    (list_elem_of_further _ _ _ (list_elem_of_lookup_2 _ _ _ Hk))
                    Hbase). lia. }
    destruct i as [|i], j as [|j]; simpl in Hi, Hj.
    + contradiction.
    + inversion Hi; subst. exfalso. eapply Hfresh, Hj.
    + inversion Hj; subst. exfalso. eapply Hfresh, Hi.
    + apply (Hne (S i) (S j) t' s); [congruence|assumption..].
Qed.

(** The directives other than [name] and [type] leave kb_info, and the tval
    and sval of every record, as they are. *)
Lemma on_priv_Returned {A S : Type} (f : S -> outcome S) (st st' : A * S)
  (e : parser_error) :
  on_priv f st = Returned e st' ->
  fst st' = fst st /\ f (snd st) = Returned e (snd st').
Proof.
  unfold on_priv. destruct (f (snd st)) as [e' s|flt]; [|discriminate].
  intros H. inversion H; subst. split; reflexivity.
Qed.

Lemma object_value_matchers_key (m : @matcher object_kind) (t : string)
  (r1 r2 : object_kind) :
  m ∈ object_value_matchers -> m t r1 = Some r2 -> kind_key r1 = kind_key r2.
Proof.
  unfold object_value_matchers. intros Hm Hmt.
  repeat (apply elem_of_cons in Hm as [->|Hm]); [..|inversion Hm].
  - destruct (grab_rand_value (k_modifiers r1) obj_mods t); [|discriminate].
    inversion Hmt; subst. reflexivity.
  - destruct (grab_index_and_int list_element_names "RES_" t) as [[value index]|];
      [|discriminate].
    inversion Hmt; subst. reflexivity.
Qed.

Lemma object_field_keys (slays : list slay) (brands : list brand)
  (curses : list curse) (l : object_line)
  (st st' : list object_base * list object_kind) (e : parser_error) :
  (forall name, l <> OL_name name) ->
  (forall tval, l <> OL_type tval) ->
  object_callback slays brands curses l st = Returned e st' ->
  fst st' = fst st /\ kind_key <$> snd st' = kind_key <$> snd st.
Proof.
  intros Hname Htype. destruct st as [kb_info priv], st' as [kb_info' priv'].
  destruct l; simpl; try (exfalso; eapply Hname; reflexivity);
    try (exfalso; eapply Htype; reflexivity);
    intros H; apply on_priv_Returned in H as [Hkb H]; simpl in Hkb, H;
    (split; [exact Hkb|]).
  - unfold parse_object_level in H. destruct priv; inversion H; reflexivity.
  - unfold parse_object_weight in H. destruct priv; inversion H; reflexivity.
  - destruct priv as [|k next]; [discriminate|].
    unfold parse_object_flags in H.
    pose proof (token_loop_respects object_flags_step object_flags_step_refl
                  object_flags_step_trans object_flag_matchers (strtok_all flags) k
                  (fun m t r1 r2 => object_flag_matchers_step m t r1 r2)) as Hq.
    destruct (token_loop object_flag_matchers (strtok_all flags) k) as [t k'].
    inversion H; subst. simpl in Hq. destruct Hq as [-> _]. reflexivity.
  - unfold parse_object_dice in H. destruct priv as [|k next]; [inversion H; reflexivity|].
    destruct (k_effect k); [inversion H; reflexivity|].
    destruct dice_new; [|inversion H; reflexivity].
    destruct (dice_parse_string _ _); inversion H; reflexivity.
  - unfold parse_object_expr in H. destruct priv as [|k next]; [inversion H; reflexivity|].
    destruct (k_effect k) as [|effect0 effects]; [inversion H; reflexivity|].
    destruct (eff_dice effect0); [|inversion H; reflexivity].
    destruct (bind_expression _ _ _ _ _) as [e0 [dice'|]]; inversion H; reflexivity.
  - unfold parse_object_time in H. destruct priv; inversion H; reflexivity.
  - destruct priv as [|k next]; [discriminate|].
    unfold parse_object_values in H.
    pose proof (token_loop_respects (fun r1 r2 => kind_key r1 = kind_key r2)
                  (fun r => eq_refl) (fun r1 r2 r3 H1 H2 => eq_trans H1 H2)
                  object_value_matchers (strtok_all values) k
                  (fun m t r1 r2 => object_value_matchers_key m t r1 r2)) as Hq.
    destruct (token_loop object_value_matchers (strtok_all values) k) as [t k'].
    inversion H; subst. simpl in Hq. simpl. rewrite Hq. reflexivity.
  - unfold parse_object_desc in H. destruct priv; inversion H; reflexivity.
  - unfold parse_object_slay in H. destruct priv as [|k next]; [discriminate|].
    destruct (_ =? _); inversion H; reflexivity.
  - unfold parse_object_brand in H. destruct priv as [|k next]; [discriminate|].
    destruct (_ =? _); inversion H; reflexivity.
  - unfold parse_object_curse in H. destruct priv as [|k next]; [discriminate|].
    destruct (_ =? _); inversion H; reflexivity.
Qed.

Lemma object_callback_numbered (slays : list slay) (brands : list brand)
  (curses : list curse) (l : object_line)
  (st st' : list object_base * list object_kind) (e : parser_error) :
  svals_numbered (fst st) (kind_key <$> snd st) ->
  object_callback slays brands curses l st = Returned e st' ->
  svals_numbered (fst st') (kind_key <$> snd st').
Proof.
  intros Hinv H.
  destruct l;
    try (apply object_field_keys in H as [-> ->]; [exact Hinv|discriminate..]).
  - simpl in H. apply on_priv_Returned in H as [Hkb H]. rewrite Hkb.
    unfold parse_object_name in H. inversion H. simpl.
    apply svals_numbered_name, Hinv.
  - simpl in H. destruct st as [kb_info priv]. unfold parse_object_type in H.
    destruct priv as [|k next]; [discriminate|].
    destruct (tval_find_idx tval <? 0); [inversion H; subst; exact Hinv|].
    destruct (array_get kb_info (tval_find_idx tval)) as [base|] eqn:Hbase;
      [|discriminate].
    inversion H; subst. simpl.
    eapply svals_numbered_type; [exact Hinv|exact Hbase].
Qed.

Lemma object_file_numbered (slays : list slay) (brands : list brand)
  (curses : list curse) (file : list object_line)
  (st st' : list object_base * list object_kind) (e : parser_error) :
  svals_numbered (fst st) (kind_key <$> snd st) ->
  run_lines (object_callback slays brands curses) file st = Returned e st' ->
  svals_numbered (fst st') (kind_key <$> snd st').
Proof.
  revert st. induction file as [|l file IH]; intros st Hinv H; simpl in H.
  - inversion H; subst. exact Hinv.
  - destruct (object_callback slays brands curses l st) as [e1 st1|flt] eqn:Hl;
      [|discriminate].
    pose proof (object_callback_numbered _ _ _ _ _ _ _ Hinv Hl) as Hinv1.
    destruct e1; try (inversion H; subst; exact Hinv1).
    eapply IH; eassumption.
Qed.

(** ** The object bases *)

Lemma kb_copy_loop_oversized (pre rest : list object_base) (kb0 : object_base)
  (b : bool) (arr : list object_base) :
  Forall (fun base => kb_tval base < TV_MAX) pre ->
  TV_MAX <= kb_tval kb0 ->
  kb_copy_loop (pre ++ kb0 :: rest) b arr
  = match pre with
    | [] => if b then Finished arr else Diverges
    | _ :: _ => Diverges
    end.
Proof.
  intros Hpre Hbig. revert b arr.
  induction Hpre as [|base pre Hbase Hpre IH]; intros b arr; simpl.
  - replace (TV_MAX <=? kb_tval kb0) with true by (symmetry; apply Z.leb_le; lia).
    reflexivity.
  - replace (TV_MAX <=? kb_tval base) with false by (symmetry; apply Z.leb_gt; lia).
    rewrite IH. destruct pre; reflexivity.
Qed.

(** ** References to the slay and brand tables *)

Lemma find_code_first {A : Type} (code : A -> string) (rows : list A) (s : string)
  (start : Z) (i : nat) :
  first_with_code code rows s i ->
  find_code code rows s start = start + Z.of_nat i.
Proof.
  revert start i. induction rows as [|r rows IH]; intros start i [(row & Hrow & Hcode) Hbefore].
  - destruct i; discriminate.
  - simpl. destruct i as [|i].
    + simpl in Hrow. inversion Hrow; subst row.
      replace (streq s (code r)) with true by (symmetry; apply streq_true; congruence).
      lia.
    + replace (streq s (code r)) with false.
      2:{ symmetry. apply streq_false. intros Heq.
          apply (Hbefore 0%nat r); [lia|reflexivity|congruence]. }
      rewrite (IH (start + 1) i); [lia|].
      split; [exists row; split; assumption|].
      intros j row' Hj Hrow'. apply (Hbefore (S j) row'); [lia|exact Hrow'].
Qed.

Lemma array_set_insert {A : Type} (arr : list A) (i : nat) (x : A) :
  array_set arr (Z.of_nat i) x = <[i := x]> arr.
Proof.
  unfold array_set. rewrite Nat2Z.id.
  destruct (_ && _) eqn:H; [reflexivity|].
  symmetry. apply list_insert_ge.
  apply andb_false_iff in H as [H|H]; [apply Z.leb_gt in H|apply Z.ltb_ge in H]; lia.
Qed.

Lemma first_with_code_lt {A : Type} (code : A -> string) (rows : list A)
  (s : string) (i : nat) :
  first_with_code code rows s i -> Z.of_nat i <> table_max rows.
Proof.
  intros [(row & Hrow & _) _]. apply lookup_lt_Some in Hrow.
  unfold table_max. lia.
Qed.

(** ** The kinds of an ego item *)

Lemma ego_type_loop_spec (rows : list object_kind) (tval i : Z) (poss : list Z)
  (found : bool) :
  ego_type_loop rows tval i poss found
  = (reverse (kinds_of_tval rows tval i) ++ poss,
     found || negb (bool_decide (kinds_of_tval rows tval i = []))).
Proof.
  revert i poss found. induction rows as [|kind rows IH]; intros i poss found; simpl.
  - rewrite orb_false_r. reflexivity.
  - destruct (k_tval kind =? tval).
    + rewrite IH, reverse_cons, <- app_assoc. simpl. rewrite orb_true_r. reflexivity.
    + apply IH.
Qed.

Lemma kinds_of_tval_elem (rows : list object_kind) (tval i x : Z) :
  x ∈ kinds_of_tval rows tval i
  <-> i <= x /\ exists kind, rows !! Z.to_nat (x - i) = Some kind /\ k_tval kind = tval.
Proof.
  revert i. induction rows as [|kind rows IH]; intros i; simpl.
  - split; [intros H; inversion H|intros (_ & kind & H & _); discriminate].
  - assert (Hrest : x ∈ kinds_of_tval rows tval (i + 1)
                    <-> i < x /\ exists kind',
                          (kind :: rows) !! Z.to_nat (x - i) = Some kind'
                          /\ k_tval kind' = tval).
    { rewrite IH. split.
      - intros (Hx & kind' & Hk & Ht). split; [lia|]. exists kind'.
        split; [|exact Ht].
        replace (Z.to_nat (x - i)) with (S (Z.to_nat (x - (i + 1)))) by lia.
        exact Hk.
      - intros (Hx & kind' & Hk & Ht). split; [lia|]. exists kind'.
        split; [|exact Ht].
        replace (Z.to_nat (x - i)) with (S (Z.to_nat (x - (i + 1)))) in Hk by lia.
        exact Hk. }
    destruct (k_tval kind =? tval) eqn:Hkt.
    + apply Z.eqb_eq in Hkt. rewrite elem_of_cons, Hrest. split.
      * intros [->|(Hx & Hk)].
        -- split; [lia|]. exists kind. rewrite Z.sub_diag. split; [reflexivity|exact Hkt].
        -- split; [lia|exact Hk].
      * intros (Hx & Hk). destruct (decide (x = i)) as [->|Hne]; [left; reflexivity|].
        right. split; [lia|exact Hk].
    + apply Z.eqb_neq in Hkt. rewrite Hrest. split.
      * intros (Hx & Hk). split; [lia|exact Hk].
      * intros (Hx & kind' & Hk & Ht). split; [|exists kind'; split; assumption].
        destruct (decide (x = i)) as [->|Hne]; [|lia].
        rewrite Z.sub_diag in Hk. simpl in Hk. inversion Hk; subst. contradiction.
Qed.

Lemma kinds_of_tval_lower (rows : list object_kind) (tval i x : Z) :
  x ∈ kinds_of_tval rows tval i -> i <= x.
Proof. intros H. apply kinds_of_tval_elem in H as [H _]. exact H. Qed.

Lemma kinds_of_tval_NoDup (rows : list object_kind) (tval i : Z) :
  NoDup (kinds_of_tval rows tval i).
Proof.
  revert i. induction rows as [|kind rows IH]; intros i; simpl.
  - constructor.
  - destruct (k_tval kind =? tval); [|apply IH].
    constructor; [|apply IH].
    intros Hin. apply kinds_of_tval_lower in Hin. lia.
Qed.

(** ** findact *)

Lemma findact_from_linked (table : list activation) (name : string) :
  (forall (i : nat) (a : activation),
     table !! i = Some a ->
     is_Some (act_name a)
     /\ act_next a = if decide (S i < length table)%nat
                     then Some (Z.of_nat (S i)) else None) ->
  forall (k i fuel : nat),
    (i + k = length table)%nat -> (1 <= k <= fuel)%nat ->
    findact_from fuel table (Some (Z.of_nat i)) name
    = Some (inr (find_named (drop i table) name (Z.of_nat i))).
Proof.
  intros Hlinked. induction k as [|k IH]; intros i fuel Hik Hk; [lia|].
  destruct fuel as [|fuel]; [lia|]. cbn [findact_from]. unfold array_get.
  replace (0 <=? Z.of_nat i) with true by (symmetry; apply Z.leb_le; lia).
  rewrite Nat2Z.id.
  destruct (table !! i) as [a|] eqn:Ha.
  2:{ apply lookup_ge_None in Ha. lia. }
  destruct (Hlinked i a Ha) as [[n Hn] Hnext].
  rewrite (drop_S _ _ _ Ha). cbn [find_named]. rewrite Hn.
  destruct (streq n name) eqn:Hs.
  - apply streq_true in Hs. subst n.
    rewrite bool_decide_eq_true_2 by reflexivity. reflexivity.
  - apply streq_false in Hs.
    rewrite bool_decide_eq_false_2 by congruence.
    rewrite Hnext. destruct (decide (S i < length table)%nat) as [Hlt|Hge].
    + rewrite (IH (S i) fuel) by lia. do 3 f_equal. lia.
    + rewrite drop_ge by lia. destruct fuel; reflexivity.
Qed.

Lemma find_named_Some (rows : list activation) (name : string) (i : Z) (j : nat)
  (a : activation) :
  rows !! j = Some a -> act_name a = Some name ->
  (forall (j' : nat) (b : activation),
     (j' < j)%nat -> rows !! j' = Some b -> act_name b <> Some name) ->
  find_named rows name i = Some (i + Z.of_nat j).
Proof.
  revert i j. induction rows as [|r rows IH]; intros i j Hj Ha Hbefore; [discriminate|].
  cbn [find_named]. destruct j as [|j].
  - simpl in Hj. inversion Hj; subst r.
    rewrite bool_decide_eq_true_2 by exact Ha. f_equal. lia.
  - rewrite bool_decide_eq_false_2 by (apply (Hbefore 0%nat r); [lia|reflexivity]).
    rewrite (IH (i + 1) j Hj Ha); [f_equal; lia|].
    intros j' b Hlt Hb. apply (Hbefore (S j') b); [lia|exact Hb].
Qed.

Lemma find_named_None (rows : list activation) (name : string) (i : Z) :
  Forall (fun a => act_name a <> Some name) rows -> find_named rows name i = None.
Proof.
  intros H. revert i. induction H as [|a rows Ha H IH]; intros i; [reflexivity|].
  cbn [find_named]. rewrite bool_decide_eq_false_2 by exact Ha. apply IH.
Qed.

(** ** The dummy object kind, when it cannot be made *)




(** ** The dummy kinds and the numbering of the svals *)

Lemma svals_numbered_add (kb_info : list object_base) (keys : list (Z * Z))
  (t : Z) (base : object_base) :
  svals_numbered kb_info keys ->
  array_get kb_info t = Some base ->
  svals_numbered
    (array_set kb_info t (set_kb_num_svals (kb_num_svals base + 1) base))
    (keys ++ [(t, kb_num_svals base + 1)]).
Proof.
  intros (Hpos & Hle & Hne) Hbase.
  pose proof (array_get_Some _ _ _ Hbase) as [Ht Hbase'].
  assert (Hn : 0 <= kb_num_svals base).
  { rewrite Forall_forall in Hpos.
    apply Hpos. eapply list_elem_of_lookup_2. exact Hbase'. }
  assert (Hfresh : (t, kb_num_svals base + 1) ∉ keys).
  { intros Hin. pose proof (Hle t _ base Hin Hbase). lia. }
  split; [|split].
  - unfold array_set.
    replace ((0 <=? t) && (t <? Z.of_nat (length kb_info))) with true
      by (symmetry; apply andb_true_intro; split; [apply Z.leb_le|apply Z.ltb_lt]; lia).
    apply Forall_insert; [exact Hpos|]. simpl. lia.
  - intros t' s b Hin Hb. rewrite array_get_array_set in Hb by exact Ht.
    apply elem_of_app in Hin as [Hin|Hin].
    + destruct (decide (t = t')) as [<-|Htt].
      * inversion Hb; subst b. simpl. pose proof (Hle t s base Hin Hbase). lia.
      * apply (Hle t' s b Hin Hb).
    + apply list_elem_of_singleton in Hin. inversion Hin; subst t' s.
      destruct (decide (t = t)); [|contradiction].
      inversion Hb; subst b. simpl. lia.
  - intros i j t' s Hij Hi Hj.
    destruct (decide (i < length keys)%nat) as [Hil|Hil];
      destruct (decide (j < length keys)%nat) as [Hjl|Hjl].
    + rewrite lookup_app_l in Hi, Hj by assumption. eapply Hne; eassumption.
    + rewrite lookup_app_l in Hi by assumption.
      rewrite lookup_app_r in Hj by lia.
      destruct (j - length keys)%nat; [|discriminate]. inversion Hj; subst.
      exfalso. apply Hfresh. eapply list_elem_of_lookup_2. exact Hi.
    + rewrite lookup_app_l in Hj by assumption.
      rewrite lookup_app_r in Hi by lia.
      destruct (i - length keys)%nat; [|discriminate]. inversion Hi; subst.
      exfalso. apply Hfresh. eapply list_elem_of_lookup_2. exact Hj.
    + rewrite lookup_app_r in Hi, Hj by lia.
      destruct (i - length keys)%nat eqn:Ei; [|destruct n; discriminate].
      destruct (j - length keys)%nat eqn:Ej; [|destruct n; discriminate].
      lia.
Qed.

Lemma svals_numbered_add_untyped (kb_info : list object_base) (keys : list (Z * Z))
  (t : Z) :
  svals_numbered kb_info keys -> svals_numbered kb_info (keys ++ [(t, 0)]).
Proof.
  intros (Hpos & Hle & Hne). split; [exact Hpos|]. split.
  - intros t' s b Hin Hb. apply elem_of_app in Hin as [Hin|Hin].
    + apply (Hle t' s b Hin Hb).
    + apply list_elem_of_singleton in Hin. inversion Hin; subst.
      apply array_get_Some in Hb as [_ Hb]. rewrite Forall_forall in Hpos.
      pose proof (Hpos b (list_elem_of_lookup_2 _ _ _ Hb)). lia.
  - intros i j t' s Hij Hi Hj.
    destruct (decide (i < length keys)%nat) as [Hil|Hil].
    + destruct (decide (j < length keys)%nat) as [Hjl|Hjl].
      * rewrite lookup_app_l in Hi, Hj by assumption. eapply Hne; eassumption.
      * rewrite lookup_app_r in Hj by lia.
        destruct (j - length keys)%nat; [|discriminate]. inversion Hj; reflexivity.
    + rewrite lookup_app_r in Hi by lia.
      destruct (i - length keys)%nat; [|discriminate]. inversion Hi; reflexivity.
Qed.

(** In a table with the bases in the row of their tval, the loop of the
    dummy kind stops at the row of the tval. *)
Lemma dummy_sval_loop_by_tval_from (rows : list object_base) (tval : Z)
  (start i : nat) (n : Z) :
  tval <> 0 ->
  (forall (j : nat) (base : object_base),
     rows !! j = Some base ->
     kb_tval base = Z.of_nat (start + j) \/ kb_tval base = 0) ->
  dummy_sval_loop rows tval start = Some (i, n) ->
  exists base,
    rows !! (i - start)%nat = Some base /\ (start <= i)%nat
    /\ n = kb_num_svals base + 1 /\ tval = Z.of_nat i.
Proof.
  intros Htval. revert start. induction rows as [|b rows IH]; intros start Hby H;
    [discriminate|].
  cbn [dummy_sval_loop] in H. destruct (kb_tval b =? tval) eqn:Hb.
  - apply Z.eqb_eq in Hb. inversion H; subst i n. exists b.
    rewrite Nat.sub_diag. split; [reflexivity|]. split; [lia|].
    split; [reflexivity|].
    destruct (Hby 0%nat b eq_refl) as [Hk|Hk]; [|congruence].
    rewrite Nat.add_0_r in Hk. congruence.
  - destruct (IH (S start)) as (base & Hrow & Hle & Hn & Ht).
    { intros j base Hj. destruct (Hby (S j) base Hj) as [Hk|Hk]; [left|right; exact Hk].
      rewrite Hk. f_equal. lia. }
    { exact H. }
    exists base. replace (i - start)%nat with (S (i - S start)) by lia.
    split; [exact Hrow|]. split; [lia|]. split; [exact Hn|exact Ht].
Qed.

Lemma dummy_sval_loop_by_tval (rows : list object_base) (tval : Z) (i : nat) (n : Z) :
  bases_by_tval rows ->
  dummy_sval_loop rows tval 0 = Some (i, n) ->
  exists base,
    rows !! i = Some base /\ n = kb_num_svals base + 1 /\ tval = Z.of_nat i.
Proof.
  intros Hby H. destruct (decide (tval = 0)) as [->|Htval].
  - destruct rows as [|b rows]; [discriminate|]. cbn [dummy_sval_loop] in H.
    replace (kb_tval b =? 0) with true in H.
    + inversion H; subst. exists b. split; [reflexivity|]. split; reflexivity.
    + symmetry. apply Z.eqb_eq. destruct (Hby 0%nat b eq_refl); assumption.
  - destruct (dummy_sval_loop_by_tval_from rows tval 0 i n Htval) as (base & Hr & _ & Hn & Ht).
    + intros j base Hj. apply (Hby j base Hj).
    + exact H.
    + exists base. rewrite Nat.sub_0_r in Hr. split; [exact Hr|]. split; assumption.
Qed.

Lemma alter_array_set {A : Type} (f : A -> A) (l : list A) (i : nat) (x : A) :
  l !! i = Some x -> alter f i l = array_set l (Z.of_nat i) (f x).
Proof.
  intros Hx. rewrite array_set_insert. apply list_eq. intros j.
  destruct (decide (j = i)) as [->|Hne].
  - rewrite list_lookup_alter_eq, Hx, list_lookup_insert_eq; [reflexivity|].
    eapply lookup_lt_Some. exact Hx.
  - rewrite list_lookup_alter_ne, list_lookup_insert_ne by congruence. reflexivity.
Qed.

Lemma bases_by_tval_array_set (kb_info : list object_base) (t : Z)
  (base base' : object_base) :
  bases_by_tval kb_info ->
  array_get kb_info t = Some base -> kb_tval base' = kb_tval base ->
  bases_by_tval (array_set kb_info t base').
Proof.
  intros Hby Hbase Ht i b Hb.
  pose proof (array_get_Some _ _ _ Hbase) as [Hin Hbase'].
  rewrite array_set_lookup in Hb by exact Hin.
  destruct (decide (Z.to_nat t = i)) as [<-|Hne].
  - inversion Hb; subst b. rewrite Ht. apply (Hby _ _ Hbase').
  - apply (Hby _ _ Hb).
Qed.

(** ** A refused directive of the object file *)



(** ** The type multipliers of an object property *)

Lemma fill_loop_spec {A : Type} (x : A) (n start : nat) (l : list A) :
  length l = (start + n)%nat ->
  foldl (fun l i => <[i := x]> l) l (seq start n) = take start l ++ replicate n x.
Proof.
  revert start l. induction n as [|n IH]; intros start l Hlen; simpl.
  - rewrite take_ge by lia. rewrite app_nil_r. reflexivity.
  - rewrite IH by (rewrite length_insert; lia).
    rewrite (take_S_r _ _ x) by (apply list_lookup_insert_eq; lia).
    rewrite take_insert_ge by lia. rewrite <- app_assoc. reflexivity.
Qed.

Lemma parse_object_property_name_ones (name : string) (priv : list obj_property) :
  parse_object_property_name name priv
  = Returned PARSE_ERROR_NONE
      (mk_obj_property (Some name) 0 0 (replicate (Z.to_nat TV_MAX) 1)
         None None None None None :: priv).
Proof.
  unfold parse_object_property_name. cbn [prop_type_mult].
  rewrite fill_loop_spec by (rewrite length_replicate; reflexivity).
  reflexivity.
Qed.

Lemma property_field_line_step (l : object_property_line) (p : obj_property)
  (next : list obj_property) :
  property_field_line l ->
  length (prop_type_mult p) = Z.to_nat TV_MAX ->
  exists p',
    object_property_callback l (p :: next) = Returned PARSE_ERROR_NONE (p' :: next)
    /\ prop_name p' = prop_name p
    /\ length (prop_type_mult p') = Z.to_nat TV_MAX
    /\ forall t, array_get (prop_type_mult p') t
                 = match says_type_mult t l with
                   | Some m => Some m
                   | None => array_get (prop_type_mult p) t
                   end.
Proof.
  intros Hl Hlen.
  destruct l as [name|power|mult|type mult|adj|neg_adj|msg|desc|desc]; cbn in Hl;
    try contradiction;
    try (eexists; split; [reflexivity|]; cbn; split; [reflexivity|];
         split; [exact Hlen|]; intros t; reflexivity).
  cbn [object_property_callback]. unfold parse_object_property_type_mult.
  destruct (tval_find_idx type <? 0) eqn:Hneg; [apply Z.ltb_lt in Hneg; lia|].
  assert (Hin : 0 <= tval_find_idx type < Z.of_nat (length (prop_type_mult p)))
    by (rewrite Hlen; lia).
  destruct (array_get (prop_type_mult p) (tval_find_idx type)) as [old|] eqn:Hget.
  - eexists. split; [reflexivity|]. cbn. split; [reflexivity|].
    split.
    + unfold array_set. destruct (_ && _); [rewrite length_insert|]; exact Hlen.
    + intros t. rewrite array_get_array_set by exact Hin.
      destruct (decide (tval_find_idx type = t)) as [E|E].
      * apply Z.eqb_eq in E. rewrite E. reflexivity.
      * apply Z.eqb_neq in E. rewrite E. reflexivity.
  - exfalso. unfold array_get in Hget.
    destruct (0 <=? tval_find_idx type) eqn:H0; [|apply Z.leb_gt in H0; lia].
    apply lookup_ge_None in Hget. lia.
Qed.

Lemma property_block_type_mult (blk : list object_property_line) :
  forall (p : obj_property) (next : list obj_property),
  Forall property_field_line blk ->
  length (prop_type_mult p) = Z.to_nat TV_MAX ->
  exists p',
    run_lines object_property_callback blk (p :: next)
    = Returned PARSE_ERROR_NONE (p' :: next)
    /\ prop_name p' = prop_name p
    /\ length (prop_type_mult p') = Z.to_nat TV_MAX
    /\ forall t, array_get (prop_type_mult p') t
                 = match last_set (says_type_mult t) blk with
                   | Some m => Some m
                   | None => array_get (prop_type_mult p) t
                   end.
Proof.
  induction blk as [|l blk IH]; intros p next Hblk Hlen.
  - exists p. split; [reflexivity|]. split; [reflexivity|]. split; [exact Hlen|].
    intros t. reflexivity.
  - inversion Hblk as [|? ? Hl Hrest]; subst.
    destruct (property_field_line_step l p next Hl Hlen)
      as (p1 & Hstep & Hname1 & Hlen1 & Hget1).
    destruct (IH p1 next Hrest Hlen1) as (p' & Hrun & Hname & Hlen' & Hget).
    exists p'. simpl. rewrite Hstep. split; [exact Hrun|].
    split; [congruence|]. split; [exact Hlen'|].
    intros t. rewrite Hget, Hget1.
    destruct (last_set (says_type_mult t) blk); reflexivity.
Qed.

(** * The properties of the specification *)


(** C9.  In a projection file accepted without error, the code of every
    record at a position i below ELEM_MAX is the i-th element name, and the
    finished table holds that record in row i with index i; a [code]
    directive arriving at a position below ELEM_MAX with another name returns
    the element-name-mismatch error. *)
Theorem C9_projection_codes_follow_elements (file : list projection_line)
  (priv : list projection) :
  run_lines projection_callback file [] = Returned PARSE_ERROR_NONE priv ->
  (forall (i : nat) (code : string) (blk : list projection_line),
     projection_records file !! i = Some (code, blk) ->
     Z.of_nat i < ELEM_MAX ->
     list_element_names !! i = Some code
     /\ exists r, snd (finish_parse_projection priv) !! i = Some r
                  /\ proj_index r = Z.of_nat i)
  /\ (forall code : string,
        Z.of_nat (length priv) < ELEM_MAX ->
        list_element_names !! length priv <> Some code ->
        parse_projection_code code priv
        = Returned PARSE_ERROR_ELEMENT_NAME_MISMATCH
            (set_proj_index (Z.of_nat (length priv)) projection_zero :: priv)).
Proof.
  intros Hrun. split.
  - intros i code blk Hrec Hi.
    unfold finish_parse_projection, projection_records in *.
    rewrite finish_plain. cbn [snd].
    pose proof (Forall2_reverse _ _ _ (code_after_run file priv Hrun)) as Hcode.
    destruct (Forall2_lookup_r _ _ _ i (code, blk) Hcode Hrec) as (r & Hr & Hname).
    assert (Hidx : proj_index r = Z.of_nat i).
    { apply reverse_lookup_Some in Hr as [Hr Hlt].
      rewrite (index_after_run file priv Hrun _ r Hr). lia. }
    split; [|exists r; split; assumption].
    rewrite Hidx, Nat2Z.id in Hname. apply Hname. exact Hi.
  - intros code Hlt Hne. unfold parse_projection_code.
    assert (Hindex : match priv with
                     | h :: _ => proj_index h + 1
                     | [] => 0
                     end = Z.of_nat (length priv)).
    { destruct priv as [|h next]; [reflexivity|].
      rewrite (index_after_run file _ Hrun 0%nat h eq_refl). simpl length. lia. }
    rewrite Hindex.
    replace (Z.of_nat (length priv) <? ELEM_MAX) with true
      by (symmetry; apply Z.ltb_lt; exact Hlt).
    unfold array_get.
    replace (0 <=? Z.of_nat (length priv)) with true by (symmetry; apply Z.leb_le; lia).
    rewrite Nat2Z.id.
    destruct (list_element_names !! length priv) as [n|] eqn:Hn.
    + simpl. replace (streq code n) with false; [reflexivity|].
      symmetry. apply streq_false. intros ->. apply Hne. reflexivity.
    + apply lookup_ge_None in Hn. unfold ELEM_MAX in Hlt. lia.
Qed.

(** C10.  After the object-kind finish phase (every kind having its tval
    inside kb_info), row i of the table has kidx i, every kind flag of the
    object base of its tval among its own kind flags, and a next link to row
    i + 1, or none for the last row. *)
Theorem C10_finished_object_kinds (kb_info : list object_base)
  (priv : list object_kind) :
  Forall (fun k => 0 <= k_tval k < table_max kb_info) priv ->
  exists (k_max : Z) (k_info : list object_kind),
    finish_parse_object kb_info priv = Returned PARSE_ERROR_NONE (k_max, k_info)
    /\ k_max = Z.of_nat (length k_info)
    /\ forall (i : nat) (k : object_kind),
         k_info !! i = Some k ->
         k_kidx k = Z.of_nat i
         /\ (exists base,
               array_get kb_info (k_tval k) = Some base
               /\ forall flag : nat,
                    flag_has (kb_kind_flags base) flag = true ->
                    flag_has (k_kind_flags k) flag = true)
         /\ k_next k = if decide (S i < length k_info)%nat
                       then Some (Z.of_nat (S i)) else None.
Proof.
  intros Hpriv. unfold finish_parse_object.
  replace (forallb (tval_in_table kb_info) priv) with true.
  2:{ symmetry. apply forallb_forall. intros k Hk.
      rewrite Forall_forall in Hpriv. apply list_elem_of_In, Hpriv in Hk.
      unfold tval_in_table. apply andb_true_intro.
      split; [apply Z.leb_le|apply Z.ltb_lt]; lia. }
  rewrite finish_list_spec.
  eexists _, _. split; [reflexivity|]. split.
  { rewrite patched_length. reflexivity. }
  intros i k Hk. rewrite patched_length. rewrite patched_lookup in Hk.
  destruct (reverse priv !! i) as [node|] eqn:Hnode; [|discriminate].
  injection Hk as <-.
  pose proof (lookup_lt_Some _ _ _ Hnode) as Hlt. rewrite length_reverse in Hlt.
  assert (Hin : 0 <= k_tval node < table_max kb_info).
  { rewrite Forall_forall in Hpriv. apply Hpriv.
    apply elem_of_reverse. eapply list_elem_of_lookup_2. exact Hnode. }
  unfold finish_object_row. simpl. split; [reflexivity|]. split.
  - unfold array_get, table_max in *.
    replace (0 <=? k_tval node) with true by (symmetry; apply Z.leb_le; lia).
    destruct (kb_info !! Z.to_nat (k_tval node)) as [base|] eqn:Hbase.
    + exists base. split; [reflexivity|]. simpl.
      intros flag Hflag. unfold flag_has, kf_union in *.
      rewrite Z.lor_spec, Hflag. apply orb_true_r.
    + apply lookup_ge_None in Hbase. lia.
  - destruct (decide (S i < length priv)%nat) as [Hs|Hs].
    + replace (Z.of_nat i <? Z.of_nat (length priv) - 1) with true
        by (symmetry; apply Z.ltb_lt; lia).
      f_equal. lia.
    + replace (Z.of_nat i <? Z.of_nat (length priv) - 1) with false
        by (symmetry; apply Z.ltb_ge; lia).
      reflexivity.
Qed.


(** C2 (amended).  For an artifact whose [base-object] directive names a tval
    that exists and has an object base, with an sval name lookup_sval_silent
    does not find, the callback (the reallocation succeeding) appends exactly
    one new row to the object-kind table, which grows by one; the row has the
    INSTA_ART kind flag, the index (kidx) of the old table size, the level and
    weight -1, and as sval the sval count of its tval raised by one; the artifact's sval is made
    equal to that sval of the new row, not to the row's index. *)
Theorem C2_dummy_kind_appended (tval_name sval_name : string) (st : artifact_state)
  (a : artifact) (next : list artifact) :
  st_priv st = a :: next ->
  0 <= tval_find_idx tval_name ->
  lookup_sval_silent (st_k_max st) (st_k_info st) (tval_find_idx tval_name) sval_name < 0 ->
  st_k_max st = table_max (st_k_info st) ->
  (exists j base, take (Z.to_nat TV_MAX) (st_kb_info st) !! j = Some base
                  /\ kb_tval base = tval_find_idx tval_name) ->
  exists (st' : artifact_state) (dummy : object_kind) (a' : artifact)
         (j0 : nat) (base0 : object_base),
    parse_artifact_base_object true tval_name sval_name st
    = Returned PARSE_ERROR_NONE st'
    /\ st_k_info st' = st_k_info st ++ [dummy]
    /\ st_k_max st' = st_k_max st + 1
    /\ st_k_max st' = table_max (st_k_info st')
    /\ k_kidx dummy = table_max (st_k_info st)
    /\ flag_has (k_kind_flags dummy) KF_INSTA_ART = true
    /\ k_tval dummy = tval_find_idx tval_name
    /\ k_level dummy = -1
    /\ k_weight dummy = -1
    /\ st_kb_info st !! j0 = Some base0
    /\ kb_tval base0 = tval_find_idx tval_name
    /\ k_sval dummy = kb_num_svals base0 + 1
    /\ st_kb_info st' !! j0 = Some (set_kb_num_svals (kb_num_svals base0 + 1) base0)
    /\ st_priv st' = a' :: next
    /\ a_tval a' = k_tval dummy
    /\ a_sval a' = k_sval dummy.
Proof. apply dummy_created. Qed.

(** C8.  An artifact [level] (or [weight]) directive stores its value in the
    artifact; when the object kind lookup_kind finds for the artifact carries
    the sentinel -1 it stores the value there too, and leaves the object-kind
    table as it is otherwise.  Right after the base object kind of the
    artifact was created as a dummy, that kind is the one found and it
    carries the sentinel, so the directive fills both records. *)
Theorem C8_level_weight_fill_dummy_kind (v : Z) :
  (forall (st : artifact_state) (a : artifact) (next : list artifact) (row : Z)
          (k : object_kind),
     st_priv st = a :: next ->
     lookup_kind (st_k_max st) (st_k_info st) (a_tval a) (a_sval a) = Some row ->
     array_get (st_k_info st) row = Some k ->
     (exists st',
        parse_artifact_level v st = Returned PARSE_ERROR_NONE st'
        /\ st_priv st' = set_a_level v a :: next
        /\ (k_level k = -1 ->
            array_get (st_k_info st') row = Some (set_k_level v k)
            /\ forall j, j <> row ->
                 array_get (st_k_info st') j = array_get (st_k_info st) j)
        /\ (k_level k <> -1 -> st_k_info st' = st_k_info st))
     /\ (exists st',
           parse_artifact_weight v st = Returned PARSE_ERROR_NONE st'
           /\ st_priv st' = set_a_weight v a :: next
           /\ (k_weight k = -1 ->
               array_get (st_k_info st') row = Some (set_k_weight v k)
               /\ forall j, j <> row ->
                    array_get (st_k_info st') j = array_get (st_k_info st) j)
           /\ (k_weight k <> -1 -> st_k_info st' = st_k_info st)))
  /\ (forall (tval_name sval_name : string) (st : artifact_state) (a : artifact)
             (next : list artifact),
        st_priv st = a :: next ->
        0 <= tval_find_idx tval_name ->
        lookup_sval_silent (st_k_max st) (st_k_info st) (tval_find_idx tval_name)
          sval_name < 0 ->
        st_k_max st = table_max (st_k_info st) ->
        (exists j base, take (Z.to_nat TV_MAX) (st_kb_info st) !! j = Some base
                        /\ kb_tval base = tval_find_idx tval_name) ->
        (forall kind j base,
           kind ∈ st_k_info st -> k_tval kind = tval_find_idx tval_name ->
           st_kb_info st !! j = Some base -> kb_tval base = tval_find_idx tval_name ->
           k_sval kind <= kb_num_svals base) ->
        exists (st1 : artifact_state) (a1 : artifact) (dummy : object_kind),
          parse_artifact_base_object true tval_name sval_name st
          = Returned PARSE_ERROR_NONE st1
          /\ st_priv st1 = a1 :: next
          /\ array_get (st_k_info st1) (table_max (st_k_info st)) = Some dummy
          /\ k_level dummy = -1 /\ k_weight dummy = -1
          /\ (exists st2,
                parse_artifact_level v st1 = Returned PARSE_ERROR_NONE st2
                /\ st_priv st2 = set_a_level v a1 :: next
                /\ array_get (st_k_info st2) (table_max (st_k_info st))
                   = Some (set_k_level v dummy))
          /\ (exists st2,
                parse_artifact_weight v st1 = Returned PARSE_ERROR_NONE st2
                /\ st_priv st2 = set_a_weight v a1 :: next
                /\ array_get (st_k_info st2) (table_max (st_k_info st))
                   = Some (set_k_weight v dummy))).
Proof.
  split.
  - intros st a next row k Hpriv Hrow Hk. split.
    + destruct (artifact_level_spec v st a next row k Hpriv Hrow Hk)
        as (st' & Hrun & Hp & _ & _ & Hs & Hn).
      exists st'. auto.
    + destruct (artifact_weight_spec v st a next row k Hpriv Hrow Hk)
        as (st' & Hrun & Hp & _ & _ & Hs & Hn).
      exists st'. auto.
  - intros tval_name sval_name st a next Hpriv Htval Hsval Hmax Hbase Hsvals.
    destruct (dummy_found tval_name sval_name st a next Hpriv Htval Hsval Hmax Hbase
                Hsvals)
      as (st1 & dummy & a1 & Hrun & Hp1 & Hfind & Hrow & Hlevel & Hweight & _).
    exists st1, a1, dummy.
    split; [exact Hrun|]. split; [exact Hp1|]. split; [exact Hrow|].
    split; [exact Hlevel|]. split; [exact Hweight|]. split.
    + destruct (artifact_level_spec v st1 a1 next _ dummy Hp1 Hfind Hrow)
        as (st2 & Hrun2 & Hp2 & _ & _ & Hs & _).
      exists st2. split; [exact Hrun2|]. split; [exact Hp2|]. apply Hs, Hlevel.
    + destruct (artifact_weight_spec v st1 a1 next _ dummy Hp1 Hfind Hrow)
        as (st2 & Hrun2 & Hp2 & _ & _ & Hs & _).
      exists st2. split; [exact Hrun2|]. split; [exact Hp2|]. apply Hs, Hweight.
Qed.



(** C5.  A [dice] directive given to an existing record with no effect yet,
    and an [expr] directive given to an existing record with no effect yet or
    with no dice yet, return PARSE_ERROR_NONE and leave the parser's list, so
    the record, exactly as it was.  This holds for object kinds, curses and
    activations; for power calculations the dice hang off the record itself,
    and [expr] with no dice yet is skipped the same way. *)
Theorem C5_dice_expr_skipped_without_effect (string name base expr : string) :
  (forall (k : object_kind) next,
     (k_effect k = [] ->
      parse_object_dice string (k :: next) = Returned PARSE_ERROR_NONE (k :: next)
      /\ parse_object_expr name base expr (k :: next)
         = Returned PARSE_ERROR_NONE (k :: next))
     /\ (forall effect0 effects,
           k_effect k = effect0 :: effects -> eff_dice effect0 = None ->
           parse_object_expr name base expr (k :: next)
           = Returned PARSE_ERROR_NONE (k :: next)))
  /\ (forall (c : curse) next,
        (obj_effect (curse_obj c) = [] ->
         parse_curse_dice string (c :: next) = Returned PARSE_ERROR_NONE (c :: next)
         /\ parse_curse_expr name base expr (c :: next)
            = Returned PARSE_ERROR_NONE (c :: next))
        /\ (forall effect0 effects,
              obj_effect (curse_obj c) = effect0 :: effects ->
              eff_dice effect0 = None ->
              parse_curse_expr name base expr (c :: next)
              = Returned PARSE_ERROR_NONE (c :: next)))
  /\ (forall (act : activation) next,
        (act_effect act = [] ->
         parse_act_dice string (act :: next) = Returned PARSE_ERROR_NONE (act :: next)
         /\ parse_act_expr name base expr (act :: next)
            = Returned PARSE_ERROR_NONE (act :: next))
        /\ (forall effect0 effects,
              act_effect act = effect0 :: effects -> eff_dice effect0 = None ->
              parse_act_expr name base expr (act :: next)
              = Returned PARSE_ERROR_NONE (act :: next)))
  /\ (forall (c : power_calc) next,
        calc_dice c = None ->
        parse_object_power_expr name base expr (c :: next)
        = Returned PARSE_ERROR_NONE (c :: next)).
Proof.
  repeat split.
  - unfold parse_object_dice. rewrite H. reflexivity.
  - unfold parse_object_expr. rewrite H. reflexivity.
  - intros effect0 effects He Hd. unfold parse_object_expr. rewrite He, Hd.
    reflexivity.
  - unfold parse_curse_dice. rewrite H. reflexivity.
  - unfold parse_curse_expr. rewrite H. reflexivity.
  - intros effect0 effects He Hd. unfold parse_curse_expr. rewrite He, Hd.
    reflexivity.
  - unfold parse_act_dice. rewrite H. reflexivity.
  - unfold parse_act_expr. rewrite H. reflexivity.
  - intros effect0 effects He Hd. unfold parse_act_expr. rewrite He, Hd.
    reflexivity.
  - intros c next Hd. unfold parse_object_power_expr. rewrite Hd. reflexivity.
Qed.


(** C7 (amended).  For every table, the cleanup of a table that was never
    set up (a NULL pointer) is a no-op that leaves the heap as it is, and the
    cleanup of a finished table frees every block the rows own and the table
    itself, each once.  Cleanup does not reset the table pointer, so it is
    not idempotent: once a cleanup went through, the table block is gone, and
    a second cleanup in a row reads the freed table (or, for an empty table,
    frees it again) instead of returning cleanly. *)
Theorem C7_cleanup_null_safe_not_repeatable :
  (forall max (h : gmap loc (block projection_ptrs)),
     cleanup_projection None max h = HeapOk h)
  /\ (forall max (h : gmap loc (block object_kind_ptrs)),
        cleanup_object None max h = HeapOk h)
  /\ (forall (R : Type) (owned : R -> list (option loc)) max h,
        cleanup_table owned None max h = HeapOk h)
  /\ (forall (R : Type) (owned : R -> list (option loc)) table rows h,
        table_in_heap owned table rows h ->
        cleanup_table owned (Some table) (Z.of_nat (length rows)) h
        = HeapOk (without (owned_blocks owned rows ++ [table]) h))
  /\ (forall table max (h h' : gmap loc (block projection_ptrs)),
        cleanup_projection (Some table) max h = HeapOk h' ->
        h' !! table = None
        /\ (cleanup_projection (Some table) max h' = HeapFault UseAfterFree
            \/ cleanup_projection (Some table) max h' = HeapFault BadFree))
  /\ (forall table max (h h' : gmap loc (block object_kind_ptrs)),
        cleanup_object (Some table) max h = HeapOk h' ->
        h' !! table = None
        /\ (cleanup_object (Some table) max h' = HeapFault UseAfterFree
            \/ cleanup_object (Some table) max h' = HeapFault BadFree))
  /\ (forall (R : Type) (owned : R -> list (option loc)) table max h h',
        cleanup_table owned (Some table) max h = HeapOk h' ->
        h' !! table = None
        /\ (cleanup_table owned (Some table) max h' = HeapFault UseAfterFree
            \/ cleanup_table owned (Some table) max h' = HeapFault BadFree)).
Proof.
  split; [reflexivity|]. split; [reflexivity|]. split; [reflexivity|].
  split; [intros; apply cleanup_table_ok; assumption|].
  split; [intros table max h h'; apply cleanup_table_again|].
  split; [intros table max h h'; apply cleanup_table_again|].
  intros R owned table max h h'. apply cleanup_table_again.
Qed.

(** * Further properties of the loader *)

(** X1.  The flag names of the elements: for the element whose name stands
    first at position [i] of the element table (a name without white space
    that fits the 20-byte buffer of the sscanf), grab_element_flag takes
    IGNORE_name and HATES_name, and sets the ignore bits, respectively the
    hate bits, in the flags of entry [i] of the element information, and
    nothing else. *)
Theorem X1_element_flag_names (info : list element_info) (name : string) (i : nat) :
  name_index list_element_names name = Some i ->
  is_word name = true ->
  (String.length name < 20)%nat ->
  grab_element_flag info ("IGNORE_" +:+ name)
  = Some (alter (el_flags_or EL_INFO_IGNORE) i info)
  /\ grab_element_flag info ("HATES_" +:+ name)
     = Some (alter (el_flags_or EL_INFO_HATES) i info).
Proof.
  intros Hi Hw _.
  assert (Hne : name <> "").
  { intros ->. discriminate. }
  unfold grab_element_flag, sscanf_prefix_suffix. split.
  - replace (scan_not_underscore ("IGNORE_" +:+ name))
      with ("IGNORE", String "_" name) by reflexivity.
    rewrite (skip_spaces_word _ Hw), (scan_word_word _ Hw).
    destruct name as [|c name]; [contradiction|].
    apply (grab_element_loop_first _ 0 i); auto.
  - replace (scan_not_underscore ("HATES_" +:+ name))
      with ("HATES", String "_" name) by reflexivity.
    rewrite (skip_spaces_word _ Hw), (scan_word_word _ Hw).
    destruct name as [|c name]; [contradiction|].
    apply (grab_element_loop_first _ 0 i); auto.
Qed.

(** X2.  What grab_element_flag changes when it takes a name (one that fits
    the 20-byte buffers of the sscanf): the flags of one entry of the element
    information, the entry of an element of the element table, by or-ing the
    ignore or the hate bits into them.  The number of entries, every
    resistance level and every flag bit that was set stay as they were. *)
Theorem X2_element_flag_frame (info info' : list element_info) (flag_name : string) :
  (String.length flag_name < 20)%nat ->
  grab_element_flag info flag_name = Some info' ->
  length info' = length info
  /\ exists (i : nat) (bits : Z),
       (bits = EL_INFO_IGNORE \/ bits = EL_INFO_HATES)
       /\ is_Some (list_element_names !! i)
       /\ info' = alter (el_flags_or bits) i info
       /\ forall (j : nat) (e : element_info),
            info !! j = Some e ->
            exists e',
              info' !! j = Some e'
              /\ res_level e' = res_level e
              /\ (j <> i -> e' = e)
              /\ forall b, Z.testbit (el_flags e) b = true ->
                           Z.testbit (el_flags e') b = true.
Proof.
  intros _. unfold grab_element_flag.
  destruct (sscanf_prefix_suffix flag_name) as [[prefix suffix]|]; [|discriminate].
  intros H. apply grab_element_loop_Some in H as (i & bits & Hb & Hn & ->).
  rewrite Nat.add_0_l. split; [apply length_alter|].
  exists i, bits. split; [exact Hb|]. split; [eexists; exact Hn|].
  split; [reflexivity|].
  intros j e Hj. destruct (decide (j = i)) as [->|Hji].
  - exists (el_flags_or bits e). rewrite list_lookup_alter_eq, Hj.
    split; [reflexivity|]. split; [reflexivity|]. split; [contradiction|].
    intros b Hbit. simpl. rewrite Z.lor_spec, Hbit. reflexivity.
  - exists e. rewrite list_lookup_alter_ne by congruence.
    split; [exact Hj|]. auto.
Qed.

(** X3.  A flags directive only adds flags.  For a flags string whose
    tokens fit the buffers of grab_element_flag, whatever parse_object_flags
    and parse_object_base_flags return (no error, or the invalid-flag error
    with the tokens before the failing one applied), the record under
    construction
    differs from what it was in its object flags, its kind flags and its
    element information only; every flag that was set is still set, the
    element information has the same resistance levels and every flag bit it
    had, and the older records are untouched. *)
Theorem X3_flags_directive_only_adds (flags : string) :
  tokens_fit flags ->
  (forall (k : object_kind) (next priv' : list object_kind) (e : parser_error),
     parse_object_flags flags (k :: next) = Returned e priv' ->
     exists k',
       priv' = k' :: next
       /\ k' = set_k_el_info (k_el_info k')
                 (set_k_kind_flags (k_kind_flags k') (set_k_flags (k_flags k') k))
       /\ flags_grow (k_flags k) (k_flags k')
       /\ flags_grow (k_kind_flags k) (k_kind_flags k')
       /\ el_info_grows (k_el_info k) (k_el_info k'))
  /\ (forall (d d' : kb_parsedata) (kb0 : object_base) (next : list object_base)
             (e : parser_error),
        kb d = kb0 :: next ->
        parse_object_base_flags flags d = Returned e d' ->
        exists kb1,
          d' = mk_kb_parsedata (defaults d) (kb1 :: next)
          /\ kb1 = set_kb_el_info (kb_el_info kb1)
                     (set_kb_kind_flags (kb_kind_flags kb1)
                        (set_kb_flags (kb_flags kb1) kb0))
          /\ flags_grow (kb_flags kb0) (kb_flags kb1)
          /\ flags_grow (kb_kind_flags kb0) (kb_kind_flags kb1)
          /\ el_info_grows (kb_el_info kb0) (kb_el_info kb1)).
Proof.
  intros _. split.
  - intros k next priv' e. unfold parse_object_flags.
    pose proof (token_loop_respects object_flags_step object_flags_step_refl
                  object_flags_step_trans object_flag_matchers (strtok_all flags) k
                  (fun m t r1 r2 => object_flag_matchers_step m t r1 r2)) as Hq.
    destruct (token_loop object_flag_matchers (strtok_all flags) k) as [t k'].
    intros H. inversion H; subst. exists k'. split; [reflexivity|exact Hq].
  - intros d d' kb0 next e Hkb. unfold parse_object_base_flags. rewrite Hkb.
    pose proof (token_loop_respects object_base_flags_step
                  object_base_flags_step_refl object_base_flags_step_trans
                  object_base_flag_matchers (strtok_all flags) kb0
                  (fun m t r1 r2 => object_base_flag_matchers_step m t r1 r2)) as Hq.
    destruct (token_loop object_base_flag_matchers (strtok_all flags) kb0) as [t kb1].
    intros H. inversion H; subst. exists kb1. split; [reflexivity|exact Hq].
Qed.

(** X6.  The svals of an object file.  Reading object.txt (its flags
    tokens fitting the buffers of grab_element_flag) from object bases that
    count no negative number of svals, whatever the file and wherever it
    stops: two distinct records with the same tval and the same sval both
    have sval 0 (neither was given a [type]); and the sval of every record is
    between 0 and the sval count of the object base of its tval.  So the
    kinds of one tval that were given a type can be told apart by their
    sval. *)
Theorem X6_object_svals_distinct (slays : list slay) (brands : list brand)
  (curses : list curse) (file : list object_line)
  (kb_info kb_info' : list object_base) (priv : list object_kind) (e : parser_error) :
  Forall object_line_fits file ->
  Forall (fun base => 0 <= kb_num_svals base) kb_info ->
  run_lines (object_callback slays brands curses) file (kb_info, [])
  = Returned e (kb_info', priv) ->
  (forall (i j : nat) (ki kj : object_kind),
     i <> j -> priv !! i = Some ki -> priv !! j = Some kj ->
     k_tval ki = k_tval kj -> k_sval ki = k_sval kj -> k_sval ki = 0)
  /\ (forall (k : object_kind) (base : object_base),
        k ∈ priv -> array_get kb_info' (k_tval k) = Some base ->
        0 <= k_sval k <= kb_num_svals base).
Proof.
  intros _ Hpos Hrun.
  assert (Hinv : svals_numbered kb_info (kind_key <$> [])).
  { split; [exact Hpos|]. split.
    - intros t s base Hin. inversion Hin.
    - intros i j t s _ Hi. destruct i; discriminate. }
  pose proof (object_file_numbered slays brands curses file (kb_info, [])
                (kb_info', priv) e Hinv Hrun) as (_ & Hle & Hne).
  simpl in Hle, Hne. split.
  - intros i j ki kj Hij Hi Hj Ht Hs.
    apply (Hne i j (k_tval ki) (k_sval ki) Hij).
    + rewrite list_lookup_fmap, Hi. reflexivity.
    + rewrite list_lookup_fmap, Hj. unfold kind_key. simpl. rewrite Ht, Hs. reflexivity.
  - intros k base Hin Hbase. apply (Hle (k_tval k) (k_sval k) base); [|exact Hbase].
    apply (list_elem_of_fmap_2 kind_key) in Hin. exact Hin.
Qed.

(** X4.  The defaults of object_base.txt.  A [default] directive for the
    break chance or the stack size changes no record read so far; the record
    the next [name] directive creates (for a known tval) starts from the
    defaults: it has the value of the directive, the other default as it
    was, no sval counted yet, and it is put in front of the records read so
    far. *)
Theorem X4_object_base_defaults_inherited (label tval : string) (value : Z)
  (name : option string) (d : kb_parsedata) :
  label = "break-chance" \/ label = "max-stack" ->
  tval_find_idx tval <> -1 ->
  exists (d1 : kb_parsedata) (kb1 : object_base),
    parse_object_base_defaults label value d = Returned PARSE_ERROR_NONE d1
    /\ kb d1 = kb d
    /\ parse_object_base_name tval name d1
       = Returned PARSE_ERROR_NONE (mk_kb_parsedata (defaults d1) (kb1 :: kb d))
    /\ kb_tval kb1 = tval_find_idx tval
    /\ kb_num_svals kb1 = 0
    /\ kb_break_perc kb1
       = (if streq label "break-chance" then value else kb_break_perc (defaults d))
    /\ kb_max_stack kb1
       = (if streq label "break-chance" then kb_max_stack (defaults d) else value)
    /\ kb_flags kb1 = kb_flags (defaults d)
    /\ kb_kind_flags kb1 = kb_kind_flags (defaults d)
    /\ kb_el_info kb1 = kb_el_info (defaults d).
Proof.
  intros Hlabel Htval.
  assert (Hne : (tval_find_idx tval =? -1) = false) by (apply Z.eqb_neq; exact Htval).
  unfold parse_object_base_defaults, parse_object_base_name.
  destruct Hlabel as [-> | ->]; simpl; rewrite Hne;
    eexists _, _; (split; [reflexivity|]); (split; [reflexivity|]);
    (split; [reflexivity|]); destruct name; simpl; repeat split; reflexivity.
Qed.

(** X5.  The finish phase of the object bases and a tval of TV_MAX or more.
    The loop skips such a record with [continue], which does not advance to
    the next node.  When the record is the newest one (the head of the
    list), the loop ends there: the table is TV_MAX zeroed rows, and every
    record of the file is left out of it.  When records with tvals below
    TV_MAX come before it in the list, the loop comes back to the same node
    for ever: the finish phase does not return. *)
Theorem X5_object_base_oversized_tval (d : kb_parsedata) (pre rest : list object_base)
  (kb0 : object_base) :
  kb d = pre ++ kb0 :: rest ->
  Forall (fun base => 0 <= kb_tval base < TV_MAX) pre ->
  TV_MAX <= kb_tval kb0 ->
  (pre = [] ->
   finish_parse_object_base d
   = Finished (replicate (Z.to_nat TV_MAX) object_base_zero))
  /\ (pre <> [] -> finish_parse_object_base d = Diverges).
Proof.
  intros Hkb Hpre Hbig. unfold finish_parse_object_base.
  assert (Hpre' : Forall (fun base => kb_tval base < TV_MAX) pre).
  { eapply Forall_impl; [exact Hpre|]. simpl. intros base Hb. lia. }
  rewrite Hkb, (kb_copy_loop_oversized pre rest kb0 true _ Hpre' Hbig).
  split; intros H; destruct pre; try reflexivity; try contradiction; discriminate.
Qed.

(** X7.  A [slay] or [brand] directive whose code is in the finished table,
    first in row [i].  The callback of the object kinds, of the ego items and
    of the artifacts returns no error; the record gets its array of marks if
    it had none (one mark for each row of the table, none set), and mark [i]
    is set; the other marks, the other fields and the older records are as
    they were.  Giving the same directive once more changes nothing. *)
Theorem X7_slay_brand_directive_marks_row (s : string) (i : nat) :
  (forall slays : list slay,
     first_with_code slay_code slays s i ->
     (forall k next,
        let marks := <[i := true]> (default (replicate (length slays) false) (k_slays k)) in
        parse_object_slay s slays (k :: next)
        = Returned PARSE_ERROR_NONE (set_k_slays (Some marks) k :: next)
        /\ parse_object_slay s slays (set_k_slays (Some marks) k :: next)
           = Returned PARSE_ERROR_NONE (set_k_slays (Some marks) k :: next))
     /\ (forall e next,
           let marks := <[i := true]> (default (replicate (length slays) false) (e_slays e)) in
           parse_ego_slay s slays (e :: next)
           = Returned PARSE_ERROR_NONE (set_e_slays (Some marks) e :: next))
     /\ (forall a next,
           let marks := <[i := true]> (default (replicate (length slays) false) (a_slays a)) in
           parse_artifact_slay s slays (a :: next)
           = Returned PARSE_ERROR_NONE (set_a_slays (Some marks) a :: next)))
  /\ (forall brands : list brand,
        first_with_code brand_code brands s i ->
        (forall k next,
           let marks := <[i := true]> (default (replicate (length brands) false) (k_brands k)) in
           parse_object_brand s brands (k :: next)
           = Returned PARSE_ERROR_NONE (set_k_brands (Some marks) k :: next)
           /\ parse_object_brand s brands (set_k_brands (Some marks) k :: next)
              = Returned PARSE_ERROR_NONE (set_k_brands (Some marks) k :: next))
        /\ (forall e next,
              let marks := <[i := true]> (default (replicate (length brands) false) (e_brands e)) in
              parse_ego_brand s brands (e :: next)
              = Returned PARSE_ERROR_NONE (set_e_brands (Some marks) e :: next))
        /\ (forall a next,
              let marks := <[i := true]> (default (replicate (length brands) false) (a_brands a)) in
              parse_artifact_brand s brands (a :: next)
              = Returned PARSE_ERROR_NONE (set_a_brands (Some marks) a :: next))).
Proof.
  split.
  - intros slays Hfirst.
    pose proof (find_code_first slay_code slays s 0 i Hfirst) as Hfind.
    pose proof (first_with_code_lt _ _ _ _ Hfirst) as Hlt.
    rewrite Z.add_0_l in Hfind.
    assert (Hne : (Z.of_nat i =? table_max slays) = false) by (apply Z.eqb_neq; exact Hlt).
    split; [|split]; intros r next marks; subst marks;
      unfold parse_object_slay, parse_ego_slay, parse_artifact_slay;
      rewrite ?Hfind, ?Hne, ?array_set_insert; [|reflexivity..].
    split; [reflexivity|]. cbn [k_slays set_k_slays default]. unfold id.
    rewrite list_insert_insert_eq. destruct r; reflexivity.
  - intros brands Hfirst.
    pose proof (find_code_first brand_code brands s 0 i Hfirst) as Hfind.
    pose proof (first_with_code_lt _ _ _ _ Hfirst) as Hlt.
    rewrite Z.add_0_l in Hfind.
    assert (Hne : (Z.of_nat i =? table_max brands) = false) by (apply Z.eqb_neq; exact Hlt).
    split; [|split]; intros r next marks; subst marks;
      unfold parse_object_brand, parse_ego_brand, parse_artifact_brand;
      rewrite ?Hfind, ?Hne, ?array_set_insert; [|reflexivity..].
    split; [reflexivity|]. cbn [k_brands set_k_brands default]. unfold id.
    rewrite list_insert_insert_eq. destruct r; reflexivity.
Qed.

(** X8.  The [type] directive of an ego item, for a known tval.  The indices
    of the object kinds of that tval, among the z_info->k_max rows of k_info,
    are put in front of the possible items of the ego, each once; the
    callback returns the no-kind-for-ego-type error when there is none, and
    the ego is then as it was. *)
Theorem X8_ego_type_lists_kinds (tval_name : string) (k_max : Z)
  (k_info : list object_kind) (e : ego_item) (next : list ego_item) :
  0 <= tval_find_idx tval_name ->
  exists added : list Z,
    parse_ego_type tval_name k_max k_info (e :: next)
    = Returned (match added with
                | [] => PARSE_ERROR_NO_KIND_FOR_EGO_TYPE
                | _ :: _ => PARSE_ERROR_NONE
                end)
        (set_e_poss_items (added ++ e_poss_items e) e :: next)
    /\ NoDup added
    /\ (forall x : Z,
          x ∈ added
          <-> 0 <= x < k_max
              /\ exists kind, array_get k_info x = Some kind
                              /\ k_tval kind = tval_find_idx tval_name)
    /\ (added = [] -> set_e_poss_items (added ++ e_poss_items e) e = e).
Proof.
  intros Htval.
  exists (reverse (kinds_of_tval (take (Z.to_nat k_max) k_info) (tval_find_idx tval_name) 0)).
  split; [|split; [|split]].
  - unfold parse_ego_type.
    replace (tval_find_idx tval_name <? 0) with false by (symmetry; apply Z.ltb_ge; lia).
    rewrite ego_type_loop_spec. simpl.
    destruct (kinds_of_tval _ _ _) as [|x xs] eqn:Hk; simpl; [reflexivity|].
    rewrite reverse_cons. destruct (reverse xs); reflexivity.
  - rewrite reverse_Permutation. apply kinds_of_tval_NoDup.
  - intros x. rewrite elem_of_reverse, kinds_of_tval_elem, Z.sub_0_r.
    unfold array_get. split.
    + intros (Hx & kind & Hk & Ht).
      apply lookup_take_Some in Hk as [Hk Hlt].
      split; [lia|]. exists kind.
      replace (0 <=? x) with true by (symmetry; apply Z.leb_le; lia).
      split; assumption.
    + intros ((Hx0 & Hx1) & kind & Hk & Ht). split; [lia|]. exists kind.
      replace (0 <=? x) with true in Hk by (symmetry; apply Z.leb_le; lia).
      split; [|exact Ht]. apply lookup_take_Some. split; [exact Hk|lia].
  - intros ->. destruct e; reflexivity.
Qed.

(** X9.  The [alloc] directive of an ego item with a record at hand.  The
    allocation probability is written before the range is looked at, so it
    has the new value also when the directive is refused.  The directive is
    accepted exactly when the range reads as "min to max" with both numbers
    from 0 to 255 (the two are not compared with each other); the record
    then holds them; when it is refused the two levels are as they were. *)
Theorem X9_ego_alloc_range (common : Z) (minmax : string) (e : ego_item)
  (next : list ego_item) :
  exists (err : parser_error) (e' : ego_item),
    parse_ego_alloc common minmax (e :: next) = Returned err (e' :: next)
    /\ e_alloc_prob e' = common
    /\ (err = PARSE_ERROR_NONE
        <-> exists amin amax,
              sscanf_d_to_d minmax = Some (amin, amax)
              /\ 0 <= amin <= 255 /\ 0 <= amax <= 255)
    /\ (err = PARSE_ERROR_NONE ->
        sscanf_d_to_d minmax = Some (e_alloc_min e', e_alloc_max e'))
    /\ (err <> PARSE_ERROR_NONE ->
        e' = set_e_alloc_prob common e
        /\ (err = PARSE_ERROR_INVALID_ALLOCATION <-> sscanf_d_to_d minmax = None)
        /\ (err = PARSE_ERROR_OUT_OF_BOUNDS <-> sscanf_d_to_d minmax <> None)).
Proof.
  unfold parse_ego_alloc.
  destruct (sscanf_d_to_d minmax) as [[amin amax]|].
  - destruct ((255 <? amin) || (255 <? amax) || (amin <? 0) || (amax <? 0)) eqn:Hout.
    + eexists _, _. split; [reflexivity|]. split; [reflexivity|].
      split; [|split; [discriminate|]].
      * split; [discriminate|]. intros (amin' & amax' & Heq & Hmin & Hmax).
        inversion Heq; subst. exfalso.
        repeat (apply orb_true_iff in Hout as [Hout|Hout]);
          (apply Z.ltb_lt in Hout; lia).
      * intros _. split; [reflexivity|].
        split; (split; [discriminate|]); [discriminate|reflexivity].
    + eexists _, _. split; [reflexivity|]. split; [reflexivity|].
      split; [|split; [reflexivity|intros H; contradiction]].
      split; [|reflexivity]. intros _. exists amin, amax. split; [reflexivity|].
      repeat (apply orb_false_iff in Hout as [Hout ?]).
      rewrite !Z.ltb_ge in *. lia.
  - eexists _, _. split; [reflexivity|]. split; [reflexivity|].
    split; [|split; [discriminate|]].
    + split; [discriminate|]. intros (? & ? & ? & _). discriminate.
    + intros _. split; [reflexivity|].
      split; (split; [|]); try reflexivity; try discriminate.
      intros H. contradiction.
Qed.

(** X10.  The [item] directive of an ego item against a finished object-kind
    table.  When lookup_kind finds the kind in row [row], the index of the
    row is put in front of the possible items of the ego, and only then
    tested: for row 0, the first kind of object.txt, the callback returns the
    invalid-item-number error with the item already linked in; for every
    other row it returns no error. *)
Theorem X10_ego_item_of_finished_kinds (tval_name sval_name : string)
  (kb_info : list object_base) (priv : list object_kind) (k_max row : Z)
  (k_info : list object_kind) (e : ego_item) (next : list ego_item) :
  finish_parse_object kb_info priv = Returned PARSE_ERROR_NONE (k_max, k_info) ->
  0 <= tval_find_idx tval_name ->
  lookup_kind k_max k_info (tval_find_idx tval_name)
    (lookup_sval k_max k_info (tval_find_idx tval_name) sval_name) = Some row ->
  0 <= row < k_max
  /\ parse_ego_item tval_name sval_name k_max k_info (e :: next)
     = Returned (if row =? 0 then PARSE_ERROR_INVALID_ITEM_NUMBER else PARSE_ERROR_NONE)
         (set_e_poss_items (row :: e_poss_items e) e :: next).
Proof.
  intros Hfin Htval Hrow. unfold finish_parse_object in Hfin.
  destruct (forallb _ _); [|discriminate].
  rewrite finish_list_spec in Hfin. inversion Hfin; subst k_max k_info. clear Hfin.
  unfold lookup_kind in Hrow. rewrite Nat2Z.id in Hrow.
  rewrite firstn_all2 in Hrow by (rewrite patched_length; lia).
  pose proof (lookup_kind_from_Some _ _ _ _ _ Hrow) as (j & kind & -> & Hj & _ & _).
  rewrite Z.add_0_l.
  pose proof (lookup_lt_Some _ _ _ Hj) as Hlt. rewrite patched_length in Hlt.
  split; [lia|].
  unfold parse_ego_item, lookup_kind.
  replace (tval_find_idx tval_name <? 0) with false by (symmetry; apply Z.ltb_ge; lia).
  rewrite Nat2Z.id, firstn_all2 by (rewrite patched_length; lia).
  rewrite Hrow. unfold array_get.
  replace (0 <=? 0 + Z.of_nat j) with true by (symmetry; apply Z.leb_le; lia).
  rewrite Z.add_0_l, Nat2Z.id, Hj.
  rewrite patched_lookup in Hj.
  destruct (reverse priv !! j) as [node|]; [|discriminate].
  inversion Hj; subst kind. simpl.
  destruct j as [|j]; reflexivity.
Qed.


(** X12.  A new artifact ignores the base elements.  The [name] directive
    puts a new artifact in front of the parser's list and leaves the
    object-kind table and the object bases alone; the element information of
    the new artifact has one entry for each element, every resistance level
    0, the ignore bits as the only flags of the entries ELEM_BASE_MIN to
    ELEM_HIGH_MIN - 1 and no flag in the other entries. *)
Theorem X12_artifact_name_ignores_base_elements (name : string) (st : artifact_state) :
  exists a : artifact,
    parse_artifact_name name st
    = Returned PARSE_ERROR_NONE
        (mk_artifact_state (st_k_max st) (st_k_info st) (st_kb_info st)
           (a :: st_priv st))
    /\ a_name a = Some name
    /\ length (a_el_info a) = length list_element_names
    /\ forall (i : nat) (info : element_info),
         a_el_info a !! i = Some info ->
         res_level info = 0
         /\ el_flags info
            = if decide (ELEM_BASE_MIN <= i < ELEM_HIGH_MIN)%nat
              then EL_INFO_IGNORE else 0.
Proof.
  eexists. split; [reflexivity|]. split; [reflexivity|]. simpl. split.
  - unfold ignore_base_elements. rewrite foldl_alter_seq_length.
    apply length_replicate.
  - intros i info. unfold ignore_base_elements. rewrite foldl_alter_seq_lookup.
    unfold el_info_zero.
    destruct (decide (ELEM_BASE_MIN <= i < ELEM_BASE_MIN + (ELEM_HIGH_MIN - ELEM_BASE_MIN))%nat)
      as [Hin|Hout].
    + intros H. destruct (replicate _ _ !! i) as [e0|] eqn:He; [|discriminate].
      apply lookup_replicate in He as [-> _]. inversion H; subst info. simpl.
      split; [reflexivity|]. destruct (decide _); [reflexivity|lia].
    + intros H. apply lookup_replicate in H as [-> _]. simpl.
      split; [reflexivity|]. destruct (decide _); [lia|reflexivity].
Qed.

(** X13.  The rows of the finished activation, ego-item and artifact tables
    know their place: row [i] holds [i] as its index (index, eidx, aidx) and
    its next link goes to row [i + 1], or nowhere from the last record.  The
    nine rows the artifact table has after the records are empty but for
    their aidx, which is the index of the row. *)
Theorem X13_finished_rows_know_their_index :
  (forall (priv : list activation) (i : nat) (act : activation),
     snd (finish_parse_act priv) !! i = Some act ->
     act_index act = Z.of_nat i
     /\ act_next act = if decide (S i < length priv)%nat
                       then Some (Z.of_nat (S i)) else None)
  /\ (forall (priv : list ego_item) (i : nat) (e : ego_item),
        snd (finish_parse_ego priv) !! i = Some e ->
        e_eidx e = Z.of_nat i
        /\ e_next e = if decide (S i < length priv)%nat
                      then Some (Z.of_nat (S i)) else None)
  /\ (forall (priv : list artifact) (i : nat) (a : artifact),
        snd (finish_parse_artifact priv) !! i = Some a ->
        a_aidx a = Z.of_nat i
        /\ ((i < length priv)%nat ->
            a_next a = if decide (S i < length priv)%nat
                       then Some (Z.of_nat (S i)) else None)
        /\ ((length priv <= i)%nat ->
            (i < length priv + 9)%nat
            /\ a = set_a_aidx (Z.of_nat i) artifact_zero)).
Proof.
  assert (Hnext : forall (n i : nat),
            (if Z.of_nat i <? Z.of_nat n - 1 then Some (Z.of_nat i + 1) else None)
            = if decide (S i < n)%nat then Some (Z.of_nat (S i)) else None).
  { intros n i. destruct (decide (S i < n)%nat).
    - replace (Z.of_nat i <? Z.of_nat n - 1) with true
        by (symmetry; apply Z.ltb_lt; lia).
      f_equal. lia.
    - replace (Z.of_nat i <? Z.of_nat n - 1) with false
        by (symmetry; apply Z.ltb_ge; lia).
      reflexivity. }
  split; [|split].
  - intros priv i act. unfold finish_parse_act.
    rewrite finish_list_spec. cbn [snd]. rewrite patched_lookup.
    destruct (reverse priv !! i) as [node|]; [|discriminate].
    intros H. inversion H; subst act. simpl. split; [reflexivity|apply Hnext].
  - intros priv i e. unfold finish_parse_ego.
    rewrite finish_list_spec. cbn [snd]. rewrite patched_lookup.
    destruct (reverse priv !! i) as [node|]; [|discriminate].
    intros H. inversion H; subst e. simpl. split; [reflexivity|apply Hnext].
  - intros priv i a Ha.
    destruct (finish_parse_artifact_spec priv) as ([Hmax Hrows] & Hlen & Hshelves).
    destruct (decide (i < length priv)%nat) as [Hi|Hi].
    + rewrite (Hrows i Hi), Hmax in Ha.
      destruct (reverse priv !! i) as [node|]; [|discriminate].
      inversion Ha; subst a. simpl.
      split; [reflexivity|]. split; [intros _; apply Hnext|lia].
    + pose proof (lookup_lt_Some _ _ _ Ha) as Hlt. rewrite Hlen in Hlt.
      rewrite (Hshelves i) in Ha by lia. inversion Ha; subst a.
      split; [reflexivity|]. split; [lia|]. intros _. split; [lia|reflexivity].
Qed.

(** X14.  findact over the finished activation table.  With at least one
    activation read, every one of them named, and fuel for one read of each
    row, the walk along the next links ends: it returns the first row, in
    file order, of an activation with the name asked for, and NULL when no
    activation has the name. *)
Theorem X14_findact_first_in_file_order (priv : list activation) (name : string)
  (fuel : nat) :
  priv <> [] ->
  Forall (fun a => is_Some (act_name a)) priv ->
  (length priv <= fuel)%nat ->
  (forall (i : nat) (a : activation),
     snd (finish_parse_act priv) !! i = Some a ->
     act_name a = Some name ->
     (forall (j : nat) (b : activation),
        (j < i)%nat -> snd (finish_parse_act priv) !! j = Some b ->
        act_name b <> Some name) ->
     findact_from fuel (snd (finish_parse_act priv)) (Some 0) name
     = Some (inr (Some (Z.of_nat i))))
  /\ ((forall a : activation, a ∈ priv -> act_name a <> Some name) ->
      findact_from fuel (snd (finish_parse_act priv)) (Some 0) name
      = Some (inr None)).
Proof.
  intros Hne Hnames Hfuel.
  assert (Hlen : length (snd (finish_parse_act priv)) = length priv).
  { unfold finish_parse_act. rewrite finish_list_spec. apply patched_length. }
  assert (Hrow : forall (i : nat) (a : activation),
            snd (finish_parse_act priv) !! i = Some a ->
            exists node, reverse priv !! i = Some node
                         /\ a = finish_act_row (Z.of_nat (length priv)) (Z.of_nat i) node).
  { intros i a. unfold finish_parse_act. rewrite finish_list_spec. cbn [snd].
    rewrite patched_lookup. destruct (reverse priv !! i) as [node|]; [|discriminate].
    intros H. inversion H. exists node. split; reflexivity. }
  assert (Hlinked : forall (i : nat) (a : activation),
            snd (finish_parse_act priv) !! i = Some a ->
            is_Some (act_name a)
            /\ act_next a = if decide (S i < length (snd (finish_parse_act priv)))%nat
                            then Some (Z.of_nat (S i)) else None).
  { intros i a Ha. destruct (Hrow i a Ha) as (node & Hnode & ->). split.
    - simpl. rewrite Forall_forall in Hnames. apply Hnames.
      apply elem_of_reverse. eapply list_elem_of_lookup_2. exact Hnode.
    - rewrite Hlen. simpl. destruct (decide (S i < length priv)%nat).
      + replace (Z.of_nat i <? Z.of_nat (length priv) - 1) with true
          by (symmetry; apply Z.ltb_lt; lia).
        f_equal. lia.
      + replace (Z.of_nat i <? Z.of_nat (length priv) - 1) with false
          by (symmetry; apply Z.ltb_ge; lia).
        reflexivity. }
  assert (Hpos : (1 <= length priv)%nat).
  { destruct priv; [contradiction|simpl; lia]. }
  pose proof (findact_from_linked _ name Hlinked (length priv) 0 fuel) as Hwalk.
  rewrite Hlen in Hwalk. specialize (Hwalk eq_refl (conj Hpos Hfuel)).
  change (Z.of_nat 0) with 0 in Hwalk. rewrite drop_0 in Hwalk. split.
  - intros i a Ha Hname Hbefore. rewrite Hwalk.
    rewrite (find_named_Some _ name 0 i a Ha Hname Hbefore). reflexivity.
  - intros Hnone. rewrite Hwalk, find_named_None; [reflexivity|].
    apply Forall_forall. intros a Ha.
    apply list_elem_of_lookup_1 in Ha as [i Ha].
    destruct (Hrow i a Ha) as (node & Hnode & ->). simpl.
    apply Hnone. apply elem_of_reverse. eapply list_elem_of_lookup_2. exact Hnode.
Qed.



(** X21.  The dummy kinds keep the svals numbered.  Take a state of the
    artifact file in which kb_info has its TV_MAX rows with the object bases
    in the row of their tval, and the svals of the object kinds are numbered
    per tval.  Whatever a [base-object] directive returns, the state it
    leaves is of the same kind; and when it has added a row to the
    object-kind table and returns no error, the tval and sval of the new row
    are those of no older row. *)
Theorem X21_dummy_kinds_keep_svals_numbered (realloc_ok : bool)
  (tval_name sval_name : string) (st st' : artifact_state) (e : parser_error) :
  length (st_kb_info st) = Z.to_nat TV_MAX ->
  bases_by_tval (st_kb_info st) ->
  svals_numbered (st_kb_info st) (kind_key <$> st_k_info st) ->
  parse_artifact_base_object realloc_ok tval_name sval_name st = Returned e st' ->
  length (st_kb_info st') = Z.to_nat TV_MAX
  /\ bases_by_tval (st_kb_info st')
  /\ svals_numbered (st_kb_info st') (kind_key <$> st_k_info st')
  /\ (forall dummy : object_kind,
        st_k_info st' = st_k_info st ++ [dummy] ->
        e = PARSE_ERROR_NONE ->
        forall k : object_kind, k ∈ st_k_info st -> kind_key k <> kind_key dummy).
Proof.
  intros Hlen Hby Hinv. unfold parse_artifact_base_object.
  assert (Hsame : forall (k_info : list object_kind) (dummy : object_kind),
            k_info = k_info ++ [dummy] -> False).
  { intros k_info dummy Heq. apply (f_equal length) in Heq.
    rewrite length_app in Heq. simpl in Heq. lia. }
  destruct (st_priv st) as [|a next]; [discriminate|].
  destruct (tval_find_idx tval_name <? 0) eqn:Htval.
  { intros H. inversion H; subst.
    split; [exact Hlen|]. split; [exact Hby|]. split; [exact Hinv|].
    intros dummy Heq. exfalso. eapply Hsame, Heq. }
  apply Z.ltb_ge in Htval. cbn [a_tval set_a_tval].
  destruct (lookup_sval_silent _ _ _ _ <? 0).
  2:{ intros H. inversion H; subst. cbn [st_kb_info st_k_info].
      split; [exact Hlen|]. split; [exact Hby|]. split; [exact Hinv|].
      intros dummy Heq. exfalso. eapply Hsame, Heq. }
  unfold write_dummy_object_record. destruct realloc_ok; cbn [negb].
  2:{ intros H. inversion H; subst. cbn [st_kb_info st_k_info].
      split; [exact Hlen|]. split; [exact Hby|]. split; [exact Hinv|].
      intros dummy Heq. exfalso. eapply Hsame, Heq. }
  cbn [k_tval set_k_kidx set_k_name set_k_tval a_tval set_a_tval].
  rewrite <- Hlen, firstn_all.
  destruct (dummy_sval_loop (st_kb_info st) (tval_find_idx tval_name) 0)
    as [[i n]|] eqn:Hloop.
  - destruct (dummy_sval_loop_by_tval _ _ _ _ Hby Hloop) as (base & Hrow & -> & Ht).
    assert (Hbase : array_get (st_kb_info st) (tval_find_idx tval_name) = Some base).
    { unfold array_get. rewrite Ht, Nat2Z.id.
      replace (0 <=? Z.of_nat i) with true by (symmetry; apply Z.leb_le; lia).
      exact Hrow. }
    rewrite (alter_array_set _ _ _ _ Hrow), <- Ht.
    intros H. inversion H; subst e st'. clear H.
    cbn [st_kb_info st_k_info].
    split; [rewrite array_set_length; reflexivity|].
    split; [eapply bases_by_tval_array_set; [exact Hby|exact Hbase|reflexivity]|].
    split.
    + rewrite fmap_app. cbn [fmap list_fmap]. unfold kind_key at 2. simpl.
      apply svals_numbered_add; assumption.
    + intros dummy Heq _ k Hk Hkey.
      apply app_inv_head in Heq. inversion Heq; subst dummy. clear Heq.
      destruct Hinv as (Hpos & Hle & _).
      pose proof (Hle (k_tval k) (k_sval k) base) as Hbound.
      unfold kind_key in Hkey. simpl in Hkey. inversion Hkey as [[Hkt Hks]].
      rewrite Hkt in Hbound. specialize (Hbound).
      assert (Hin : (tval_find_idx tval_name, k_sval k) ∈ kind_key <$> st_k_info st).
      { rewrite <- Hkt. apply (list_elem_of_fmap_2 kind_key) in Hk. exact Hk. }
      specialize (Hbound Hin Hbase). lia.
  - intros H. inversion H; subst e st'. clear H. cbn [st_kb_info st_k_info].
    split; [reflexivity|]. split; [exact Hby|]. split.
    + rewrite fmap_app. cbn [fmap list_fmap]. unfold kind_key at 2. simpl.
      apply svals_numbered_add_untyped, Hinv.
    + intros dummy _ Hne. discriminate.
Qed.


(** X23. Object properties: the [name] directive starts a record whose type
    multiplier is 1 for every tval. After a block of field directives whose
    [type-mult] lines name known tvals below TV_MAX, the file is accepted, the
    record keeps its name, and its multiplier for a tval is the one of the
    last [type-mult] line of the block naming that tval, or 1 when there is
    none. The directive tests the tval against 0 only: an unknown tval is
    refused with the list unchanged, and a tval of TV_MAX or more is written
    past the end of the array. *)
Theorem X23_property_type_multipliers (name : string) (blk : list object_property_line)
  (priv : list obj_property) (Hblk : Forall property_field_line blk) :
  (exists p : obj_property,
     run_lines object_property_callback (OPL_name name :: blk) priv
     = Returned PARSE_ERROR_NONE (p :: priv)
     /\ prop_name p = Some name
     /\ forall t : Z, 0 <= t < TV_MAX ->
          array_get (prop_type_mult p) t
          = Some (default 1 (last_set (says_type_mult t) blk)))
  /\ (forall (type : string) (mult : Z),
        tval_find_idx type < 0 ->
        run_lines object_property_callback [OPL_name name; OPL_type_mult type mult] priv
        = Returned PARSE_ERROR_UNRECOGNISED_TVAL
            (mk_obj_property (Some name) 0 0 (replicate (Z.to_nat TV_MAX) 1)
               None None None None None :: priv))
  /\ (forall (type : string) (mult : Z),
        TV_MAX <= tval_find_idx type -> 0 <= tval_find_idx type ->
        run_lines object_property_callback [OPL_name name; OPL_type_mult type mult] priv
        = Stopped OutOfBounds).
Proof.
  split; [|split].
  - cbn [run_lines object_property_callback].
    rewrite parse_object_property_name_ones.
    set (p0 := mk_obj_property (Some name) 0 0 (replicate (Z.to_nat TV_MAX) 1)
                 None None None None None).
    destruct (property_block_type_mult blk p0 priv Hblk) as (p & Hrun & Hname & _ & Hget).
    { apply length_replicate. }
    exists p. split; [exact Hrun|]. split; [exact Hname|].
    intros t Ht. rewrite Hget.
    destruct (last_set (says_type_mult t) blk); [reflexivity|].
    unfold array_get, p0. cbn [prop_type_mult default].
    destruct (0 <=? t) eqn:H0; [|apply Z.leb_gt in H0; lia].
    apply lookup_replicate_2. lia.
  - intros type mult Hneg. cbn [run_lines object_property_callback].
    rewrite parse_object_property_name_ones.
    unfold parse_object_property_type_mult.
    apply Z.ltb_lt in Hneg. rewrite Hneg. reflexivity.
  - intros type mult Hbig Hpos. cbn [run_lines object_property_callback].
    rewrite parse_object_property_name_ones.
    unfold parse_object_property_type_mult. cbn [prop_type_mult].
    destruct (tval_find_idx type <? 0) eqn:Hneg; [apply Z.ltb_lt in Hneg; lia|].
    unfold array_get.
    destruct (0 <=? tval_find_idx type) eqn:H0; [|reflexivity].
    rewrite (proj2 (lookup_ge_None _ _)); [reflexivity|].
    rewrite length_replicate. lia.
Qed.

End obj_init.

Arguments BData {R}.
Arguments BTable {R} rows.
Arguments HeapOk {H} h.
Arguments HeapFault {H} f.
Arguments Finished {A} a.
Arguments Diverges {A}.

(** * SDL sound support of the client (src/client/snd-sdl.c)

    The calls into SDL and SDL_mixer are kept as a log, oldest first (without
    the constant arguments SDL_INIT_AUDIO, AUDIO_S16 and MIX_INIT_OGG); what
    a call into the library returns is an argument of the function that
    makes the call.  A pointer to a chunk or to music is a [positive]. *)
Section snd_sdl.

(** Supported file types *)
Definition SDL_NULL : Z := 0.
Definition SDL_CHUNK : Z := 1.
Definition SDL_MUSIC : Z := 2.

(** supported_sound_files *)
Definition supported_files_sdl : list (string * Z) :=
  [ (".ogg", SDL_CHUNK); (".mp3", SDL_MUSIC); ("", SDL_NULL) ].

Inductive sdl_call : Type :=
| SDL_Init
| SDL_Quit
| Mix_OpenAudio (rate channels chunksize : Z)
| Mix_CloseAudio
| Mix_Init
| Mix_Quit
| Mix_Volume (channel volume : Z)
| Mix_LoadWAV (filename : string)
| Mix_LoadMUS (filename : string)
| Mix_FreeChunk (chunk : positive)
| Mix_FreeMusic (music : positive)
| Mix_PlayChannel (channel : Z) (chunk : positive) (loops : Z)
| Mix_PlayMusic (music : positive) (loops : Z)
| mem_zalloc_sample
| mem_free_sample
| plog (msg : string).

(** The static [use_init] and the calls made so far. *)
Record sdl_world : Type := mk_sdl_world {
  use_init : bool;
  calls : list sdl_call }.

Definition call (c : sdl_call) (w : sdl_world) : sdl_world :=
  mk_sdl_world (use_init w) (calls w ++ [c]).

(** sdl_sample: [sample_data] is the union of the chunk and the music
    pointer, one pointer read under either name. *)
Record sdl_sample : Type := mk_sdl_sample {
  sample_data : option positive;
  sample_type : Z }.

(** The two fields of struct sound_data the module uses; [plat_data] points
    to the sample ([None]: NULL). *)
Record sound_data : Type := mk_sound_data {
  loaded : bool;
  plat_data : option sdl_sample }.

Variable MIX_MAX_VOLUME : Z.               (* SDL_mixer.h *)

(** set_volume: the volume returned and the world after the call. *)
Definition set_volume (volume : Z) (w : sdl_world) : Z * sdl_world :=
  let volume := if volume <? 0 then 0 else volume in
  let volume := if 100 <? volume then 100 else volume in
  (volume, call (Mix_Volume (-1) (Z.quot (volume * MIX_MAX_VOLUME) 100)) w).

(** open_audio_sdl; [sdl_init] and [mix_open] are what SDL_Init and
    Mix_OpenAudio return, [volume] is get_sound_config()->volume. *)
Definition open_audio_sdl (sdl_init mix_open : Z) (volume : Z) (w : sdl_world)
  : bool * sdl_world :=
  let audio_rate := 22050 in
  let audio_channels := 2 in
  let w := call SDL_Init w in
  if sdl_init <? 0 then (false, call (plog "Couldn't initialize SDL: %s") w)
  else
    let w := call (Mix_OpenAudio audio_rate audio_channels 4096) w in
    if mix_open <? 0 then (false, call (plog "Couldn't open mixer: %s") w)
    else (true, snd (set_volume volume w)).

(** load_sample_sdl; [lib] is what Mix_LoadWAV, or Mix_LoadMUS, returns. *)
Definition load_sample_sdl (lib : option positive) (filename : string) (file_type : Z)
  (sample : sdl_sample) (w : sdl_world) : bool * sdl_sample * sdl_world :=
  if file_type =? SDL_CHUNK then
    let w := if use_init w then w
             else mk_sdl_world true (calls (call Mix_Init w)) in
    let w := call (Mix_LoadWAV filename) w in
    let sample := mk_sdl_sample lib (sample_type sample) in
    (bool_decide (is_Some lib), sample, w)
  else if file_type =? SDL_MUSIC then
    let w := match sample_data sample with
             | Some music => call (Mix_FreeMusic music) w
             | None => w
             end in
    let w := call (Mix_LoadMUS filename) w in
    let sample := mk_sdl_sample lib (sample_type sample) in
    (bool_decide (is_Some lib), sample, w)
  else (false, sample, call (plog "Oops - Unsupported file type") w).

(** load_sound_sdl *)
Definition load_sound_sdl (lib : option positive) (filename : string) (file_type : Z)
  (data : sound_data) (w : sdl_world) : bool * sound_data * sdl_world :=
  let '(sample, w) := match plat_data data with
                      | Some sample => (sample, w)
                      | None => (mk_sdl_sample None 0, call mem_zalloc_sample w)
                      end in
  let '(ok, sample, w) := load_sample_sdl lib filename file_type sample w in
  if ok then
    (true, mk_sound_data true (Some (mk_sdl_sample (sample_data sample) file_type)), w)
  else
    (false, mk_sound_data false None, call mem_free_sample w).

(** play_sound_sdl; [lib] is what Mix_PlayChannel, or Mix_PlayMusic,
    returns. *)
Definition play_sound_sdl (lib : Z) (data : sound_data) (w : sdl_world)
  : bool * sound_data * sdl_world :=
  match plat_data data with
  | None => (false, data, w)
  | Some sample =>
      if sample_type sample =? SDL_CHUNK then
        match sample_data sample with
        | Some chunk => (lib =? 0, data, call (Mix_PlayChannel (-1) chunk 0) w)
        | None => (false, data, w)
        end
      else if sample_type sample =? SDL_MUSIC then
        let data := mk_sound_data false (plat_data data) in
        match sample_data sample with
        | Some music => (lib =? 0, data, call (Mix_PlayMusic music 1) w)
        | None => (false, data, w)
        end
      else (false, data, w)
  end.

(** unload_sound_sdl *)
Definition unload_sound_sdl (data : sound_data) (w : sdl_world)
  : bool * sound_data * sdl_world :=
  match plat_data data with
  | None => (true, data, w)
  | Some sample =>
      let w :=
        if sample_type sample =? SDL_CHUNK then
          match sample_data sample with
          | Some chunk => call (Mix_FreeChunk chunk) w
          | None => w
          end
        else if sample_type sample =? SDL_MUSIC then
          match sample_data sample with
          | Some music => call (Mix_FreeMusic music) w
          | None => w
          end
        else w in
      (true, mk_sound_data false None, call mem_free_sample w)
  end.

(** close_audio_sdl *)
Definition close_audio_sdl (w : sdl_world) : bool * sdl_world :=
  let w := if use_init w then call Mix_Quit w else w in
  (true, call SDL_Quit (call Mix_CloseAudio w)).

(** X17.  set_volume clamps.  The volume returned is the one asked for
    brought into 0 .. 100, the mixer is given that volume scaled into
    0 .. MIX_MAX_VOLUME on all channels, and nothing else is called; setting
    the volume returned once more returns it again. *)
Theorem X17_set_volume_clamps (volume : Z) (w : sdl_world) :
  0 <= MIX_MAX_VOLUME ->
  exists mixed : Z,
    set_volume volume w
    = (Z.max 0 (Z.min 100 volume), call (Mix_Volume (-1) mixed) w)
    /\ 0 <= fst (set_volume volume w) <= 100
    /\ 0 <= mixed <= MIX_MAX_VOLUME
    /\ (volume <= 0 -> mixed = 0)
    /\ (100 <= volume -> mixed = MIX_MAX_VOLUME)
    /\ forall w', fst (set_volume (fst (set_volume volume w)) w')
                  = fst (set_volume volume w).
Proof.
  intros Hmax. unfold set_volume. cbn [fst].
  set (v := if 100 <? (if volume <? 0 then 0 else volume) then 100
            else if volume <? 0 then 0 else volume).
  assert (Hv : v = Z.max 0 (Z.min 100 volume)).
  { subst v. destruct (volume <? 0) eqn:E1.
    - apply Z.ltb_lt in E1. simpl. lia.
    - apply Z.ltb_ge in E1. destruct (100 <? volume) eqn:E2;
        [apply Z.ltb_lt in E2|apply Z.ltb_ge in E2]; lia. }
  exists (Z.quot (v * MIX_MAX_VOLUME) 100).
  split; [rewrite Hv; reflexivity|]. split; [lia|]. split; [|split; [|split]].
  - split.
    + apply Z.quot_pos; nia.
    + apply Z.quot_le_upper_bound; nia.
  - intros Hle. replace v with 0 by lia. reflexivity.
  - intros Hge. replace v with 100 by lia.
    rewrite Z.mul_comm. apply Z.quot_mul. lia.
  - intros w'. destruct (Z.ltb_spec v 0); [lia|].
    destruct (Z.ltb_spec 100 v); [lia|]. reflexivity.
Qed.

(** X18.  What load_sound_sdl answers.  Whatever the sound data held, the
    value returned is the loaded flag it leaves, and it is true exactly when
    the sound data is left with a sample; that is the case exactly when the
    file type is a chunk or music and the library loaded the file.  A sample
    that is kept has the file type as its type and the pointer the library
    gave; when the load fails the sample (the old one or the one just
    allocated) is freed as the last call. *)
Theorem X18_load_sound_answer (lib : option positive) (filename : string)
  (file_type : Z) (data : sound_data) (w : sdl_world) :
  exists (ok : bool) (data' : sound_data) (w' : sdl_world),
    load_sound_sdl lib filename file_type data w = (ok, data', w')
    /\ loaded data' = ok
    /\ (ok = true <-> is_Some (plat_data data'))
    /\ (ok = true
        <-> is_Some lib /\ (file_type = SDL_CHUNK \/ file_type = SDL_MUSIC))
    /\ (ok = true -> plat_data data' = Some (mk_sdl_sample lib file_type))
    /\ (ok = false ->
        plat_data data' = None
        /\ exists before, calls w' = before ++ [mem_free_sample]).
Proof.
  unfold load_sound_sdl, load_sample_sdl.
  destruct (plat_data data) as [sample|];
    (destruct (file_type =? SDL_CHUNK) eqn:Hc;
     [apply Z.eqb_eq in Hc
     |destruct (file_type =? SDL_MUSIC) eqn:Hm;
      [apply Z.eqb_eq in Hm|apply Z.eqb_neq in Hc, Hm]]);
    try (destruct lib as [p|];
         [rewrite bool_decide_eq_true_2 by (eexists; reflexivity)
         |rewrite bool_decide_eq_false_2 by (intros [? ?]; discriminate)]);
    eexists _, _, _; (split; [reflexivity|]); cbn [loaded plat_data sample_data];
    (split; [reflexivity|]);
    repeat split; try discriminate; try (eexists; reflexivity); auto;
    try (intros [? ?]; discriminate);
    try (intros [[? ?] _]; discriminate);
    try (intros [_ [?|?]]; contradiction).
Qed.

(** X19.  Loading and unloading a sound.  From sound data without a sample,
    a load of a chunk or of music the library loads to the pointer [p],
    followed by an unload: the sample is allocated once and freed once, [p]
    is freed once, by Mix_FreeChunk for a chunk and by Mix_FreeMusic for
    music, after the load and before the sample is freed; the sound data
    ends without sample and not loaded.  One more unload calls nothing and
    changes nothing. *)
Theorem X19_load_then_unload (p : positive) (filename : string) (file_type : Z)
  (data : sound_data) (w : sdl_world) :
  plat_data data = None ->
  file_type = SDL_CHUNK \/ file_type = SDL_MUSIC ->
  exists (data1 : sound_data) (w1 w2 : sdl_world),
    load_sound_sdl (Some p) filename file_type data w = (true, data1, w1)
    /\ unload_sound_sdl data1 w1 = (true, mk_sound_data false None, w2)
    /\ calls w2
       = calls w ++ [mem_zalloc_sample]
         ++ (if (file_type =? SDL_CHUNK) && negb (use_init w) then [Mix_Init] else [])
         ++ [if file_type =? SDL_CHUNK then Mix_LoadWAV filename
             else Mix_LoadMUS filename;
             if file_type =? SDL_CHUNK then Mix_FreeChunk p else Mix_FreeMusic p;
             mem_free_sample]
    /\ unload_sound_sdl (mk_sound_data false None) w2
       = (true, mk_sound_data false None, w2).
Proof.
  intros Hdata [-> | ->]; unfold load_sound_sdl, load_sample_sdl; rewrite Hdata;
    cbn [Z.eqb SDL_CHUNK SDL_MUSIC Pos.eqb];
    rewrite bool_decide_eq_true_2 by (eexists; reflexivity).
  - eexists _, _, _. split; [reflexivity|].
    unfold unload_sound_sdl. cbn. split; [reflexivity|]. split; [|reflexivity].
    destruct (use_init w); cbn; rewrite <- !app_assoc; reflexivity.
  - eexists _, _, _. split; [reflexivity|].
    unfold unload_sound_sdl. cbn. split; [reflexivity|]. split; [|reflexivity].
    unfold call. cbn. rewrite <- !app_assoc. reflexivity.
Qed.

(** X20.  Playing and reloading.  Playing sound data whose sample is music
    marks it as not loaded and leaves the sample in place; loading music
    into sound data that has a sample frees the pointer of the sample with
    Mix_FreeMusic first, whatever the type of the sample (a chunk is freed as
    music), and loading a chunk into it frees nothing: the pointer of the old
    sample is overwritten. *)
Theorem X20_play_and_reload (old : positive) (old_type : Z) (lib : option positive)
  (result : Z) (filename : string) (is_loaded : bool) (w : sdl_world) :
  (play_sound_sdl result
     (mk_sound_data is_loaded (Some (mk_sdl_sample (Some old) SDL_MUSIC))) w
   = (result =? 0,
      mk_sound_data false (Some (mk_sdl_sample (Some old) SDL_MUSIC)),
      call (Mix_PlayMusic old 1) w))
  /\ (exists (ok : bool) (data' : sound_data) (w' : sdl_world),
        load_sound_sdl lib filename SDL_MUSIC
          (mk_sound_data is_loaded (Some (mk_sdl_sample (Some old) old_type))) w
        = (ok, data', w')
        /\ calls w'
           = calls w ++ [Mix_FreeMusic old; Mix_LoadMUS filename]
             ++ (if ok then [] else [mem_free_sample]))
  /\ (exists (ok : bool) (data' : sound_data) (w' : sdl_world),
        load_sound_sdl lib filename SDL_CHUNK
          (mk_sound_data is_loaded (Some (mk_sdl_sample (Some old) old_type))) w
        = (ok, data', w')
        /\ calls w'
           = calls w ++ (if use_init w then [] else [Mix_Init])
             ++ [Mix_LoadWAV filename]
             ++ (if ok then [] else [mem_free_sample])
        /\ (ok = true -> plat_data data' = Some (mk_sdl_sample lib SDL_CHUNK))).
Proof.
  split; [|split].
  - reflexivity.
  - unfold load_sound_sdl, load_sample_sdl. cbn.
    destruct lib as [p|];
      [rewrite bool_decide_eq_true_2 by (eexists; reflexivity)
      |rewrite bool_decide_eq_false_2 by (intros [? ?]; discriminate)];
      eexists _, _, _; (split; [reflexivity|]);
      unfold call; cbn; rewrite <- ?app_assoc; reflexivity.
  - unfold load_sound_sdl, load_sample_sdl. cbn.
    destruct lib as [p|];
      [rewrite bool_decide_eq_true_2 by (eexists; reflexivity)
      |rewrite bool_decide_eq_false_2 by (intros [? ?]; discriminate)];
      eexists _, _, _; (split; [reflexivity|]);
      (split; [|try discriminate; intros _; reflexivity]);
      destruct (use_init w); unfold call; cbn; rewrite <- ?app_assoc; reflexivity.
Qed.

(** ** Sequences of calls into the module

    init_sound_sdl hands the functions above to the sound core as hooks; a
    [sound_call] is one call of the core through a hook, or of set_volume,
    with the sound data it passes and what the library answers. *)
Inductive sound_call : Type :=
| Call_open_audio (sdl_init mix_open volume : Z)
| Call_close_audio
| Call_load_sound (lib : option positive) (filename : string) (file_type : Z)
    (data : sound_data)
| Call_unload_sound (data : sound_data)
| Call_play_sound (lib : Z) (data : sound_data)
| Call_set_volume (volume : Z).

Definition sound_call_step (c : sound_call) (w : sdl_world) : sdl_world :=
  match c with
  | Call_open_audio sdl_init mix_open volume =>
      snd (open_audio_sdl sdl_init mix_open volume w)
  | Call_close_audio => snd (close_audio_sdl w)
  | Call_load_sound lib filename file_type data =>
      snd (load_sound_sdl lib filename file_type data w)
  | Call_unload_sound data => snd (unload_sound_sdl data w)
  | Call_play_sound lib data => snd (play_sound_sdl lib data w)
  | Call_set_volume volume => snd (set_volume volume w)
  end.

Definition run_sound_calls (cs : list sound_call) (w : sdl_world) : sdl_world :=
  foldl (fun w c => sound_call_step c w) w cs.

Definition is_chunk_load (c : sound_call) : bool :=
  match c with
  | Call_load_sound _ _ file_type _ => file_type =? SDL_CHUNK
  | _ => false
  end.

Definition is_Mix_Init (c : sdl_call) : bool :=
  match c with Mix_Init => true | _ => false end.

(** Reading a log from the oldest call on, with whether the mixer has been
    initialised: [None] when Mix_Init is called again, or a chunk is loaded
    before it; otherwise whether the mixer is initialised at the end. *)
Fixpoint init_scan (inited : bool) (cs : list sdl_call) : option bool :=
  match cs with
  | [] => Some inited
  | Mix_Init :: rest => if inited then None else init_scan true rest
  | Mix_LoadWAV _ :: rest => if inited then init_scan inited rest else None
  | _ :: rest => init_scan inited rest
  end.

Lemma init_scan_app (inited : bool) (a b : list sdl_call) :
  init_scan inited (a ++ b)
  = match init_scan inited a with
    | Some inited' => init_scan inited' b
    | None => None
    end.
Proof.
  revert inited. induction a as [|c a IH]; intros inited; [reflexivity|].
  destruct c; simpl; try apply IH; destruct inited; try reflexivity; apply IH.
Qed.

Lemma init_scan_true (cs : list sdl_call) (b : bool) :
  init_scan true cs = Some b -> b = true /\ List.filter is_Mix_Init cs = [].
Proof.
  induction cs as [|c cs IH]; simpl.
  - intros [= <-]. split; reflexivity.
  - destruct c; simpl; try exact IH. discriminate.
Qed.

Lemma init_scan_false (cs : list sdl_call) (b : bool) :
  init_scan false cs = Some b ->
  (length (List.filter is_Mix_Init cs) <= 1)%nat
  /\ (b = true <-> In Mix_Init cs)
  /\ forall pre f post, cs = pre ++ Mix_LoadWAV f :: post -> In Mix_Init pre.
Proof.
  induction cs as [|c cs IH]; simpl.
  - intros [= <-]. split; [lia|]. split; [split; [discriminate|contradiction]|].
    intros [|? ?] f post H; discriminate.
  - assert (Hother : c <> Mix_Init -> (forall f, c <> Mix_LoadWAV f) ->
                     is_Mix_Init c = false ->
                     init_scan false cs = Some b ->
                     (length (if is_Mix_Init c then c :: List.filter is_Mix_Init cs
                              else List.filter is_Mix_Init cs) <= 1)%nat
                     /\ (b = true <-> c = Mix_Init \/ In Mix_Init cs)
                     /\ forall pre f post, c :: cs = pre ++ Mix_LoadWAV f :: post ->
                                           In Mix_Init pre).
    { intros Hc1 Hc2 Hc3 Hscan. rewrite Hc3.
      destruct (IH Hscan) as (Hcount & Hb & Hpre).
      split; [exact Hcount|]. split.
      - rewrite Hb. split; [intros H; right; exact H|intros [H|H]; [congruence|exact H]].
      - intros [|c' pre] f post Heq; simpl in Heq.
        + injection Heq as Heq _. exfalso. exact (Hc2 f Heq).
        + injection Heq as _ Heq. right. exact (Hpre pre f post Heq). }
    destruct c; try (apply Hother; [discriminate|discriminate|reflexivity]).
    + intros Hscan. apply init_scan_true in Hscan as [-> Hnone].
      simpl. rewrite Hnone. simpl. split; [lia|].
      split; [split; [intros _; left; reflexivity|reflexivity]|].
      intros [|c' pre] f post Heq; simpl in Heq; [discriminate|].
      injection Heq as <- _. left. reflexivity.
    + discriminate.
Qed.

Ltac log_grows :=
  unfold call; cbn [calls use_init]; rewrite <- ?app_assoc; try reflexivity.

Lemma sound_call_step_log (c : sound_call) (w : sdl_world) :
  exists extra : list sdl_call,
    calls (sound_call_step c w) = calls w ++ extra
    /\ init_scan (use_init w) extra = Some (use_init (sound_call_step c w))
    /\ use_init (sound_call_step c w) = use_init w || is_chunk_load c.
Proof.
  destruct c as [sdl_init mix_open volume| |lib filename file_type data|data|lib data
                |volume]; cbn [sound_call_step is_chunk_load].
  - unfold open_audio_sdl, set_volume.
    destruct (sdl_init <? 0); [|destruct (mix_open <? 0)]; cbn [snd];
      (eexists; split; [log_grows|]); cbn [use_init call]; rewrite orb_false_r;
      split; reflexivity.
  - unfold close_audio_sdl. cbn [snd].
    destruct (use_init w) eqn:Hu; (eexists; split; [log_grows|]);
      cbn [use_init call]; rewrite ?Hu; split; reflexivity.
  - unfold load_sound_sdl, load_sample_sdl.
    assert (Hlib : bool_decide (is_Some lib)
                   = match lib with Some _ => true | None => false end)
      by (destruct lib; reflexivity).
    rewrite Hlib.
    destruct (plat_data data) as [[[old|] st]|]; unfold call;
      cbn [sample_data sample_type use_init calls];
      (destruct (file_type =? SDL_CHUNK);
       [destruct (use_init w) eqn:Hu|destruct (file_type =? SDL_MUSIC)]);
      destruct lib as [p|]; cbn [snd use_init calls];
      (eexists; split; [rewrite <- ?app_assoc; reflexivity|]);
      cbn [init_scan app];
      rewrite ?Hu, ?orb_false_r, ?orb_true_r; split; reflexivity.
  - unfold unload_sound_sdl.
    destruct (plat_data data) as [[[old|] st]|]; unfold call;
      cbn [sample_data sample_type use_init calls];
      try (destruct (st =? SDL_CHUNK); [|destruct (st =? SDL_MUSIC)]);
      cbn [snd use_init calls];
      (eexists; split; [rewrite <- ?app_assoc; try reflexivity;
                        symmetry; apply app_nil_r|]);
      cbn [init_scan app]; rewrite ?orb_false_r; split; reflexivity.
  - unfold play_sound_sdl.
    destruct (plat_data data) as [[[old|] st]|]; unfold call;
      cbn [sample_data sample_type use_init calls];
      try (destruct (st =? SDL_CHUNK); [|destruct (st =? SDL_MUSIC)]);
      cbn [snd use_init calls];
      (eexists; split; [rewrite <- ?app_assoc; try reflexivity;
                        symmetry; apply app_nil_r|]);
      cbn [init_scan app]; rewrite ?orb_false_r; split; reflexivity.
  - unfold set_volume, call. cbn [snd use_init calls].
    eexists; split; [reflexivity|]. cbn [init_scan app]. rewrite orb_false_r.
    split; reflexivity.
Qed.

Lemma run_sound_calls_log (cs : list sound_call) (w : sdl_world) :
  exists extra : list sdl_call,
    calls (run_sound_calls cs w) = calls w ++ extra
    /\ init_scan (use_init w) extra = Some (use_init (run_sound_calls cs w))
    /\ use_init (run_sound_calls cs w) = use_init w || existsb is_chunk_load cs.
Proof.
  revert w. induction cs as [|c cs IH]; intros w.
  - exists []. cbn. rewrite app_nil_r, orb_false_r. repeat split.
  - destruct (sound_call_step_log c w) as (e1 & Hc1 & Hs1 & Hu1).
    destruct (IH (sound_call_step c w)) as (e2 & Hc2 & Hs2 & Hu2).
    exists (e1 ++ e2). cbn [run_sound_calls foldl existsb].
    fold (run_sound_calls cs (sound_call_step c w)).
    split; [rewrite Hc2, Hc1, app_assoc; reflexivity|].
    split; [rewrite init_scan_app, Hs1; exact Hs2|].
    rewrite Hu2, Hu1, orb_assoc. reflexivity.
Qed.

(** X24.  The mixer is initialised once.  Over any sequence of calls into
    the module (open, close, load, unload, play, set_volume, with any sound
    data and any answers of the library), the log of library calls only
    grows; Mix_Init is called at most once, and not at all when [use_init]
    was set before; it is called exactly when [use_init] was clear and the
    sequence loads a chunk, and then before the first Mix_LoadWAV.
    [use_init] is never cleared, not even by close_audio_sdl, so the mixer
    is not initialised again for a chunk loaded after a close; and
    close_audio_sdl calls Mix_Quit exactly when [use_init] is set. *)
Theorem X24_mixer_initialised_once (cs : list sound_call) (w : sdl_world) :
  exists extra : list sdl_call,
    calls (run_sound_calls cs w) = calls w ++ extra
    /\ use_init (run_sound_calls cs w) = use_init w || existsb is_chunk_load cs
    /\ (length (List.filter is_Mix_Init extra) <= 1)%nat
    /\ (In Mix_Init extra <-> use_init w = false /\ existsb is_chunk_load cs = true)
    /\ (use_init w = false ->
        forall pre f post, extra = pre ++ Mix_LoadWAV f :: post -> In Mix_Init pre)
    /\ close_audio_sdl (run_sound_calls cs w)
       = (true,
          mk_sdl_world (use_init w || existsb is_chunk_load cs)
            (calls w ++ extra
             ++ (if use_init w || existsb is_chunk_load cs then [Mix_Quit] else [])
             ++ [Mix_CloseAudio; SDL_Quit])).
Proof.
  destruct (run_sound_calls_log cs w) as (extra & Hcalls & Hscan & Huse).
  exists extra. split; [exact Hcalls|]. split; [exact Huse|].
  assert (Hclose : close_audio_sdl (run_sound_calls cs w)
                   = (true,
                      mk_sdl_world (use_init w || existsb is_chunk_load cs)
                        (calls w ++ extra
                         ++ (if use_init w || existsb is_chunk_load cs
                             then [Mix_Quit] else [])
                         ++ [Mix_CloseAudio; SDL_Quit]))).
  { unfold close_audio_sdl. rewrite Huse.
    destruct (use_init w || existsb is_chunk_load cs) eqn:Hu;
      unfold call; cbn [calls use_init]; rewrite Hcalls, ?Huse, ?Hu, <- ?app_assoc;
      reflexivity. }
  destruct (use_init w) eqn:Hw.
  - apply init_scan_true in Hscan as [_ Hnone].
    split; [rewrite Hnone; simpl; lia|]. split; [|split; [discriminate|exact Hclose]].
    split; [|intros [? _]; discriminate].
    intros Hin. exfalso.
    assert (Hf : In Mix_Init (List.filter is_Mix_Init extra))
      by (apply List.filter_In; split; [exact Hin|reflexivity]).
    rewrite Hnone in Hf. exact Hf.
  - apply init_scan_false in Hscan as (Hcount & Hb & Hpre).
    split; [exact Hcount|]. split; [|split; [intros _; exact Hpre|exact Hclose]].
    rewrite <- Hb, Huse. simpl. split; [intros H; split; [reflexivity|exact H]|].
    intros [_ H]. exact H.
Qed.
End snd_sdl.

(** * A small world

    Concrete tables and helpers for the parameters of the development, and
    concrete files and states, on which the theorems are exercised and the
    properties the code does not have are shown to fail. *)

Definition ex_elements : list string := ["ACID"; "ELEC"; "FIRE"].
Definition ex_obj_flags : list string := ["PROT_FEAR"; "SLOW_DIGEST"; "FEATHER"].
Definition ex_kind_flags : list string := ["INSTA_ART"; "EASY_KNOW"].
Definition ex_obj_mods : list string := ["STR"; "INT"].
Definition ex_TV_MAX : Z := 4.
Definition ex_KF_INSTA_ART : nat := 0.
Definition ex_EL_INFO_HATES : Z := 1.
Definition ex_EL_INFO_IGNORE : Z := 2.
Definition ex_COLOUR_RED : Z := 4.

Definition ex_tval_find_idx (name : string) : Z :=
  if streq name "none" then 0
  else if streq name "sword" then 1
  else if streq name "shield" then 2
  else if streq name "light" then 3
  else -1.

Definition ex_message_lookup_by_name (name : string) : Z :=
  if streq name "BR_ACID" then 7 else -1.
Definition ex_color_text_to_attr (name : string) : Z :=
  if streq name "Slate" then 2 else -1.
Definition ex_color_char_to_attr (c : ascii) : Z :=
  if Ascii.eqb c "s"%char then 2 else -1.
Definition ex_lookup_flag_r_info (name : string) : Z :=
  if streq name "IM_ACID" then 3 else 0.

(** The projection callbacks and what a line says, in this world. *)
Definition ex_projection_callback
  : projection_line -> list projection -> outcome (list projection) :=
  projection_callback ex_elements 1 2 4 8 0 ex_message_lookup_by_name
    ex_color_text_to_attr ex_color_char_to_attr ex_lookup_flag_r_info.


(** A projection file of two records; the name of the first is set twice. *)
Definition ex_projection_file : list projection_line :=
  [ PL_code "ACID"; PL_name "acid"; PL_numerator 1; PL_msgt "BR_ACID";
    PL_name "corrosion"; PL_pvp_flags (Some "SAVE | DAMAGE");
    PL_code "ELEC"; PL_name "lightning"; PL_obvious 1 ].

(** The parser's list after the file, newest record first. *)
Definition ex_projection_priv : list projection :=
  [ mk_projection 1 (Some "lightning") None None None None 0 random_zero 0 0 0 true
      0 0 None 0;
    mk_projection 0 (Some "corrosion") None None None None 1 random_zero 0 0 7 false
      0 3 None 0 ].



(** Object bases and kinds as the object files leave them: two swords and a
    shield. *)
Definition ex_base (tval : Z) (name : string) (num_svals : Z) : object_base :=
  mk_object_base (Some name) tval 0 0 0 (el_info_zero ex_elements) 0 0 num_svals.

Definition ex_kb_info : list object_base :=
  [ object_base_zero ex_elements; ex_base 1 "Sword" 2; ex_base 2 "Shield" 1;
    object_base_zero ex_elements ].

Definition ex_kind (name : string) (tval sval kidx : Z) : object_kind unit :=
  set_k_kidx unit kidx
    (set_k_sval unit sval
       (set_k_tval unit tval
          (set_k_name unit (Some name) (object_kind_zero ex_elements ex_obj_mods unit)))).

Definition ex_k_info : list (object_kind unit) :=
  [ ex_kind "Dagger" 1 1 0; ex_kind "Leather Shield" 2 1 1; ex_kind "Rapier" 1 2 2 ].

(** lookup_sval and lookup_sval_silent for names no kind has. *)
Definition ex_lookup_sval_absent (k_max : Z) (k_info : list (object_kind unit))
  (tval : Z) (name : string) : Z := -1.

(** The artifact state when the first artifact was named. *)
Definition ex_artifact : artifact :=
  set_a_name (Some "of Thorin") (artifact_zero ex_elements).

Definition ex_artifact_state : artifact_state unit :=
  mk_artifact_state unit 3 ex_k_info ex_kb_info [ex_artifact].

Definition ex_parse_artifact_base_object
  : bool -> string -> string -> artifact_state unit -> outcome (artifact_state unit) :=
  parse_artifact_base_object ex_elements ex_obj_mods ex_TV_MAX ex_KF_INSTA_ART
    ex_COLOUR_RED ex_tval_find_idx unit ex_lookup_sval_absent.

(** Finished slay, brand and curse tables. *)
Definition ex_slays : list slay := [mk_slay "EVIL_2" (Some "evil") 2 0].
Definition ex_brands : list brand := [mk_brand "ACID_3" (Some "acid") 3 0].
Definition ex_curses : list (curse unit) :=
  [mk_curse unit (Some "vulnerability") (object_new ex_elements ex_obj_mods unit) [] 0].

(** A heap with a projection table of one row that owns its name. *)
Definition ex_projection_row : projection_ptrs :=
  mk_projection_ptrs (Some 2%positive) None None None None None.

Definition ex_heap : gmap loc (block projection_ptrs) :=
  <[1%positive := BTable [ex_projection_row]]> (<[2%positive := BData]> ∅).


(** Object kinds before the finish phase, newest first. *)
Definition ex_object_priv : list (object_kind unit) :=
  [ set_k_kind_flags unit 2 (ex_kind "Rapier" 1 0 0); ex_kind "Leather Shield" 2 0 0 ].

Definition ex_kb_info_flagged : list object_base :=
  [ object_base_zero ex_elements; set_kb_kind_flags 1 (ex_base 1 "Sword" 2);
    ex_base 2 "Shield" 1; object_base_zero ex_elements ].

(** The artifact state after [base-object shield <unknown name>]. *)
Definition ex_dummy : object_kind unit :=
  set_k_kind_flags unit 1
    (set_k_weight unit (-1)
       (set_k_level unit (-1)
          (set_k_d_attr unit ex_COLOUR_RED
             (set_k_d_char unit "*"%char (ex_kind "& Thorin~" 2 2 3))))).

Definition ex_artifact_state_dummy : artifact_state unit :=
  mk_artifact_state unit 4 (ex_k_info ++ [ex_dummy])
    [ object_base_zero ex_elements; ex_base 1 "Sword" 2; ex_base 2 "Shield" 2;
      object_base_zero ex_elements ]
    [ set_a_sval 2 (set_a_tval 2 ex_artifact) ].

(** An ego item and an object kind under construction. *)
Definition ex_ego : ego_item := set_e_name (Some "of Resistance") ego_item_zero.




(** ** The theorems at work *)


Lemma C9_witness :
  run_lines ex_projection_callback ex_projection_file []
  = Returned PARSE_ERROR_NONE ex_projection_priv
  /\ ((forall (i : nat) (code : string) (blk : list projection_line),
         projection_records ex_projection_file !! i = Some (code, blk) ->
         Z.of_nat i < ELEM_MAX ex_elements ->
         ex_elements !! i = Some code
         /\ exists r, snd (finish_parse_projection ex_projection_priv) !! i = Some r
                      /\ proj_index r = Z.of_nat i)
      /\ (forall code : string,
            Z.of_nat (length ex_projection_priv) < ELEM_MAX ex_elements ->
            ex_elements !! length ex_projection_priv <> Some code ->
            parse_projection_code ex_elements code ex_projection_priv
            = Returned PARSE_ERROR_ELEMENT_NAME_MISMATCH
                (set_proj_index (Z.of_nat (length ex_projection_priv)) projection_zero
                   :: ex_projection_priv))).
Proof.
  split; [vm_compute; reflexivity|].
  apply (C9_projection_codes_follow_elements ex_elements 1 2 4 8 0
           ex_message_lookup_by_name ex_color_text_to_attr ex_color_char_to_attr
           ex_lookup_flag_r_info ex_projection_file ex_projection_priv).
  vm_compute. reflexivity.
Defined.

Lemma C10_witness :
  Forall (fun k => 0 <= k_tval unit k < table_max ex_kb_info_flagged) ex_object_priv
  /\ exists (k_max : Z) (k_info : list (object_kind unit)),
       finish_parse_object ex_elements ex_obj_mods unit ex_kb_info_flagged
         ex_object_priv
       = Returned PARSE_ERROR_NONE (k_max, k_info)
       /\ k_max = Z.of_nat (length k_info)
       /\ forall (i : nat) (k : object_kind unit),
            k_info !! i = Some k ->
            k_kidx unit k = Z.of_nat i
            /\ (exists base,
                  array_get ex_kb_info_flagged (k_tval unit k) = Some base
                  /\ forall flag : nat,
                       flag_has (kb_kind_flags base) flag = true ->
                       flag_has (k_kind_flags unit k) flag = true)
            /\ k_next unit k = if decide (S i < length k_info)%nat
                               then Some (Z.of_nat (S i)) else None.
Proof.
  assert (Hin : Forall (fun k => 0 <= k_tval unit k < table_max ex_kb_info_flagged)
                  ex_object_priv).
  { repeat constructor; vm_compute; congruence. }
  split; [exact Hin|].
  apply (C10_finished_object_kinds ex_elements ex_obj_mods unit ex_kb_info_flagged
           ex_object_priv Hin).
Defined.

Lemma C2_witness :
  (st_priv unit ex_artifact_state = [ex_artifact]
   /\ 0 <= ex_tval_find_idx "shield"
   /\ ex_lookup_sval_absent (st_k_max unit ex_artifact_state)
        (st_k_info unit ex_artifact_state) (ex_tval_find_idx "shield") "Thorin" < 0
   /\ st_k_max unit ex_artifact_state = table_max (st_k_info unit ex_artifact_state)
   /\ (exists j base,
         take (Z.to_nat ex_TV_MAX) (st_kb_info unit ex_artifact_state) !! j = Some base
         /\ kb_tval base = ex_tval_find_idx "shield"))
  /\ exists (st' : artifact_state unit) (dummy : object_kind unit) (a' : artifact)
            (j0 : nat) (base0 : object_base),
       ex_parse_artifact_base_object true "shield" "Thorin" ex_artifact_state
       = Returned PARSE_ERROR_NONE st'
       /\ st_k_info unit st' = st_k_info unit ex_artifact_state ++ [dummy]
       /\ st_k_max unit st' = st_k_max unit ex_artifact_state + 1
       /\ st_k_max unit st' = table_max (st_k_info unit st')
       /\ k_kidx unit dummy = table_max (st_k_info unit ex_artifact_state)
       /\ flag_has (k_kind_flags unit dummy) ex_KF_INSTA_ART = true
       /\ k_tval unit dummy = ex_tval_find_idx "shield"
       /\ k_level unit dummy = -1
       /\ k_weight unit dummy = -1
       /\ st_kb_info unit ex_artifact_state !! j0 = Some base0
       /\ kb_tval base0 = ex_tval_find_idx "shield"
       /\ k_sval unit dummy = kb_num_svals base0 + 1
       /\ st_kb_info unit st' !! j0
          = Some (set_kb_num_svals (kb_num_svals base0 + 1) base0)
       /\ st_priv unit st' = [a']
       /\ a_tval a' = k_tval unit dummy
       /\ a_sval a' = k_sval unit dummy.
Proof.
  assert (H1 : st_priv unit ex_artifact_state = [ex_artifact]) by reflexivity.
  assert (H2 : 0 <= ex_tval_find_idx "shield") by (vm_compute; congruence).
  assert (H3 : ex_lookup_sval_absent (st_k_max unit ex_artifact_state)
                 (st_k_info unit ex_artifact_state) (ex_tval_find_idx "shield")
                 "Thorin" < 0) by reflexivity.
  assert (H4 : st_k_max unit ex_artifact_state
               = table_max (st_k_info unit ex_artifact_state)) by reflexivity.
  assert (H5 : exists j base,
             take (Z.to_nat ex_TV_MAX) (st_kb_info unit ex_artifact_state) !! j
             = Some base
             /\ kb_tval base = ex_tval_find_idx "shield").
  { exists 2%nat, (ex_base 2 "Shield" 1). split; reflexivity. }
  split; [repeat split; assumption|].
  exact (C2_dummy_kind_appended ex_elements ex_obj_mods ex_TV_MAX ex_KF_INSTA_ART
           ex_COLOUR_RED ex_tval_find_idx unit ex_lookup_sval_absent "shield" "Thorin"
           ex_artifact_state ex_artifact [] H1 H2 H3 H4 H5).
Defined.

Lemma C8_witness :
  ((st_priv unit ex_artifact_state_dummy = [set_a_sval 2 (set_a_tval 2 ex_artifact)]
    /\ lookup_kind unit (st_k_max unit ex_artifact_state_dummy)
         (st_k_info unit ex_artifact_state_dummy) 2 2 = Some 3
    /\ array_get (st_k_info unit ex_artifact_state_dummy) 3 = Some ex_dummy
    /\ k_level unit ex_dummy = -1)
   /\ exists st',
        parse_artifact_level unit 30 ex_artifact_state_dummy
        = Returned PARSE_ERROR_NONE st'
        /\ st_priv unit st'
           = [set_a_level 30 (set_a_sval 2 (set_a_tval 2 ex_artifact))]
        /\ (k_level unit ex_dummy = -1 ->
            array_get (st_k_info unit st') 3 = Some (set_k_level unit 30 ex_dummy)
            /\ forall j, j <> 3 ->
                 array_get (st_k_info unit st') j
                 = array_get (st_k_info unit ex_artifact_state_dummy) j)
        /\ (k_level unit ex_dummy <> -1 ->
            st_k_info unit st' = st_k_info unit ex_artifact_state_dummy))
  /\ ((st_priv unit ex_artifact_state = [ex_artifact]
       /\ 0 <= ex_tval_find_idx "shield"
       /\ ex_lookup_sval_absent (st_k_max unit ex_artifact_state)
            (st_k_info unit ex_artifact_state) (ex_tval_find_idx "shield") "Thorin" < 0
       /\ st_k_max unit ex_artifact_state
          = table_max (st_k_info unit ex_artifact_state)
       /\ (exists j base,
             take (Z.to_nat ex_TV_MAX) (st_kb_info unit ex_artifact_state) !! j
             = Some base
             /\ kb_tval base = ex_tval_find_idx "shield")
       /\ (forall kind j base,
             kind ∈ st_k_info unit ex_artifact_state ->
             k_tval unit kind = ex_tval_find_idx "shield" ->
             st_kb_info unit ex_artifact_state !! j = Some base ->
             kb_tval base = ex_tval_find_idx "shield" ->
             k_sval unit kind <= kb_num_svals base))
      /\ exists (st1 : artifact_state unit) (a1 : artifact) (dummy : object_kind unit),
           ex_parse_artifact_base_object true "shield" "Thorin" ex_artifact_state
           = Returned PARSE_ERROR_NONE st1
           /\ st_priv unit st1 = [a1]
           /\ array_get (st_k_info unit st1)
                (table_max (st_k_info unit ex_artifact_state)) = Some dummy
           /\ k_level unit dummy = -1 /\ k_weight unit dummy = -1
           /\ (exists st2,
                 parse_artifact_level unit 30 st1 = Returned PARSE_ERROR_NONE st2
                 /\ st_priv unit st2 = [set_a_level 30 a1]
                 /\ array_get (st_k_info unit st2)
                      (table_max (st_k_info unit ex_artifact_state))
                    = Some (set_k_level unit 30 dummy))
           /\ (exists st2,
                 parse_artifact_weight unit 30 st1 = Returned PARSE_ERROR_NONE st2
                 /\ st_priv unit st2 = [set_a_weight 30 a1]
                 /\ array_get (st_k_info unit st2)
                      (table_max (st_k_info unit ex_artifact_state))
                    = Some (set_k_weight unit 30 dummy))).
Proof.
  pose proof (C8_level_weight_fill_dummy_kind ex_elements ex_obj_mods ex_TV_MAX
                ex_KF_INSTA_ART ex_COLOUR_RED ex_tval_find_idx unit
                ex_lookup_sval_absent 30) as [Hfill Hdummy].
  split.
  - split; [repeat split; reflexivity|].
    exact (proj1 (Hfill ex_artifact_state_dummy
                    (set_a_sval 2 (set_a_tval 2 ex_artifact)) [] 3 ex_dummy
                    eq_refl eq_refl eq_refl)).
  - assert (H1 : st_priv unit ex_artifact_state = [ex_artifact]) by reflexivity.
    assert (H2 : 0 <= ex_tval_find_idx "shield") by (vm_compute; congruence).
    assert (H3 : ex_lookup_sval_absent (st_k_max unit ex_artifact_state)
                   (st_k_info unit ex_artifact_state) (ex_tval_find_idx "shield")
                   "Thorin" < 0) by reflexivity.
    assert (H4 : st_k_max unit ex_artifact_state
                 = table_max (st_k_info unit ex_artifact_state)) by reflexivity.
    assert (H5 : exists j base,
               take (Z.to_nat ex_TV_MAX) (st_kb_info unit ex_artifact_state) !! j
               = Some base
               /\ kb_tval base = ex_tval_find_idx "shield").
    { exists 2%nat, (ex_base 2 "Shield" 1). split; reflexivity. }
    assert (H6 : forall kind j base,
               kind ∈ st_k_info unit ex_artifact_state ->
               k_tval unit kind = ex_tval_find_idx "shield" ->
               st_kb_info unit ex_artifact_state !! j = Some base ->
               kb_tval base = ex_tval_find_idx "shield" ->
               k_sval unit kind <= kb_num_svals base).
    { intros kind j base Hin Htval Hj Hbase.
      assert (Hb : base = ex_base 2 "Shield" 1).
      { destruct j as [|[|[|[|j]]]]; simpl in Hj; inversion Hj; subst base;
          try reflexivity; vm_compute in Hbase; discriminate. }
      subst base.
      apply list_elem_of_In in Hin. simpl in Hin.
      destruct Hin as [<-|[<-|[<-|[]]]];
        [vm_compute in Htval; discriminate | vm_compute; discriminate
        | vm_compute in Htval; discriminate]. }
    split; [repeat split; assumption|].
    exact (Hdummy "shield" "Thorin" ex_artifact_state ex_artifact [] H1 H2 H3 H4 H5 H6).
Defined.



Lemma C5_witness :
  k_effect unit (ex_kind "Rapier" 1 2 2) = []
  /\ (parse_object_dice unit (Some tt) (fun _ _ => Some tt) "2d6"
        [ex_kind "Rapier" 1 2 2]
      = Returned PARSE_ERROR_NONE [ex_kind "Rapier" 1 2 2]
      /\ parse_object_expr unit unit unit (Some tt) (fun _ => tt) (fun _ _ => tt)
           (fun _ _ => (0, tt)) (fun _ _ _ => (0, tt)) "B" "PLAYER_LEVEL" "+ 1"
           [ex_kind "Rapier" 1 2 2]
         = Returned PARSE_ERROR_NONE [ex_kind "Rapier" 1 2 2]).
Proof.
  split; [reflexivity|].
  exact (proj1 (proj1 (C5_dice_expr_skipped_without_effect unit unit unit (Some tt)
                         (fun _ _ => Some tt) (Some tt) (fun _ => tt) (fun _ => tt)
                         (fun _ _ => tt) (fun _ _ => (0, tt)) (fun _ _ _ => (0, tt))
                         "2d6" "B" "PLAYER_LEVEL" "+ 1")
                  (ex_kind "Rapier" 1 2 2) []) eq_refl).
Defined.

Lemma C7_witness :
  table_in_heap
    (fun r => [pp_name r; pp_type r; pp_desc r; pp_blind_desc r; pp_lash_desc r;
               pp_threat r])
    1%positive [ex_projection_row] ex_heap
  /\ cleanup_projection (Some 1%positive) 1 ex_heap
     = HeapOk (without ([2%positive] ++ [1%positive]) ex_heap).
Proof.
  assert (Hin : table_in_heap
                  (fun r => [pp_name r; pp_type r; pp_desc r; pp_blind_desc r;
                             pp_lash_desc r; pp_threat r])
                  1%positive [ex_projection_row] ex_heap).
  { split; [reflexivity|]. split.
    - apply (bool_decide_unpack _). vm_compute. exact I.
    - intros p Hp. apply elem_of_cons in Hp as [->|Hp]; [|inversion Hp].
      eexists. reflexivity. }
  split; [exact Hin|].
  exact (proj1 (proj2 (proj2 (proj2 C7_cleanup_null_safe_not_repeatable)))
           projection_ptrs _ 1%positive [ex_projection_row] ex_heap Hin).
Defined.

(** ** Where the wording of the specification fails *)


(** C2 as stated fails on the artifact's sval: the new row is row 3 of the
    object-kind table, and the artifact's sval is made 2, the sval of the new
    row (the second shield), not 3. *)
Lemma C2_counterexample :
  exists (st' : artifact_state unit) (a' : artifact),
    ex_parse_artifact_base_object true "shield" "Thorin" ex_artifact_state
    = Returned PARSE_ERROR_NONE st'
    /\ length (st_k_info unit st') = 4%nat
    /\ k_name unit <$> st_k_info unit st' !! 3%nat = Some (Some "& Thorin~")
    /\ k_kidx unit <$> st_k_info unit st' !! 3%nat = Some 3
    /\ st_priv unit st' = [a']
    /\ a_sval a' = 2
    /\ a_sval a' <> 3.
Proof.
  eexists _, _. split; [vm_compute; reflexivity|].
  repeat split; try reflexivity. simpl. discriminate.
Qed.



(** C7 as stated fails on the second cleanup: the first cleanup of a
    projection table of one row frees the name and the table; the second one
    in a row, the pointer being what it was, reads the freed table. *)
Lemma C7_counterexample :
  cleanup_projection (Some 1%positive) 1 ex_heap = HeapOk ∅
  /\ cleanup_projection (Some 1%positive) 1 ∅ = HeapFault UseAfterFree.
Proof. split; vm_compute; reflexivity. Qed.

(** ** The further properties at work *)

(** A world for the object file: a line source that knows no value names. *)
Definition ex_object_callback
  : object_line -> list object_base * list (object_kind unit)
    -> outcome (list object_base * list (object_kind unit)) :=
  object_callback ex_elements ex_obj_flags ex_kind_flags ex_obj_mods ex_EL_INFO_HATES
    ex_EL_INFO_IGNORE ex_tval_find_idx unit unit unit (Some tt) (fun _ _ => Some tt)
    (Some tt) (fun _ => tt) (fun _ _ => tt) (fun _ _ => (0, tt)) (fun _ _ _ => (0, tt))
    (fun _ _ _ => None) (fun _ _ _ => None) ex_slays ex_brands ex_curses.

Definition ex_object_file : list object_line :=
  [ OL_name "Dagger"; OL_type "sword"; OL_flags "FEATHER | IGNORE_FIRE";
    OL_name "Rapier"; OL_type "sword" ].

(** lookup_sval for the two swords. *)
Definition ex_lookup_sval (k_max : Z) (k_info : list (object_kind unit)) (tval : Z)
  (name : string) : Z :=
  if streq name "Dagger" then 1 else if streq name "Rapier" then 2 else -1.

Definition ex_activations : list (activation unit) :=
  [ mk_activation unit (Some "HEAL") 0 [] None;
    mk_activation unit (Some "LIGHT") 0 [] None ].

Lemma X1_witness :
  (name_index ex_elements "FIRE" = Some 2%nat
   /\ is_word "FIRE" = true
   /\ (String.length "FIRE" < 20)%nat)
  /\ grab_element_flag ex_elements ex_EL_INFO_HATES ex_EL_INFO_IGNORE
       (el_info_zero ex_elements) ("IGNORE_" +:+ "FIRE")
     = Some (alter (el_flags_or ex_EL_INFO_IGNORE) 2%nat (el_info_zero ex_elements))
  /\ grab_element_flag ex_elements ex_EL_INFO_HATES ex_EL_INFO_IGNORE
       (el_info_zero ex_elements) ("HATES_" +:+ "FIRE")
     = Some (alter (el_flags_or ex_EL_INFO_HATES) 2%nat (el_info_zero ex_elements)).
Proof.
  assert (H1 : name_index ex_elements "FIRE" = Some 2%nat) by reflexivity.
  assert (H2 : is_word "FIRE" = true) by reflexivity.
  assert (H3 : (String.length "FIRE" < 20)%nat) by (simpl; lia).
  split; [repeat split; assumption|].
  exact (X1_element_flag_names ex_elements ex_EL_INFO_HATES ex_EL_INFO_IGNORE
           (el_info_zero ex_elements) "FIRE" 2%nat H1 H2 H3).
Defined.

Lemma X2_witness :
  ((String.length "HATES_ELEC" < 20)%nat
   /\ grab_element_flag ex_elements ex_EL_INFO_HATES ex_EL_INFO_IGNORE
        (el_info_zero ex_elements) "HATES_ELEC"
      = Some [element_info_zero; mk_element_info 0 1; element_info_zero])
  /\ length [element_info_zero; mk_element_info 0 1; element_info_zero]
     = length (el_info_zero ex_elements).
Proof.
  assert (H1 : (String.length "HATES_ELEC" < 20)%nat) by (simpl; lia).
  assert (H2 : grab_element_flag ex_elements ex_EL_INFO_HATES ex_EL_INFO_IGNORE
                 (el_info_zero ex_elements) "HATES_ELEC"
               = Some [element_info_zero; mk_element_info 0 1; element_info_zero])
    by reflexivity.
  split; [split; assumption|].
  exact (proj1 (X2_element_flag_frame ex_elements ex_EL_INFO_HATES ex_EL_INFO_IGNORE
                  _ _ "HATES_ELEC" H1 H2)).
Defined.

Lemma X3_witness :
  tokens_fit "FEATHER | IGNORE_FIRE"
  /\ forall (k : object_kind unit) (next priv' : list (object_kind unit))
            (e : parser_error),
       parse_object_flags ex_elements ex_obj_flags ex_kind_flags ex_EL_INFO_HATES
         ex_EL_INFO_IGNORE unit "FEATHER | IGNORE_FIRE" (k :: next)
       = Returned e priv' ->
       exists k',
         priv' = k' :: next
         /\ k' = set_k_el_info unit (k_el_info unit k')
                   (set_k_kind_flags unit (k_kind_flags unit k')
                      (set_k_flags unit (k_flags unit k') k))
         /\ flags_grow (k_flags unit k) (k_flags unit k')
         /\ flags_grow (k_kind_flags unit k) (k_kind_flags unit k')
         /\ el_info_grows (k_el_info unit k) (k_el_info unit k').
Proof.
  assert (H1 : tokens_fit "FEATHER | IGNORE_FIRE").
  { unfold tokens_fit. simpl. repeat constructor; simpl; lia. }
  split; [exact H1|].
  exact (proj1 (X3_flags_directive_only_adds ex_elements ex_obj_flags ex_kind_flags
                  ex_EL_INFO_HATES ex_EL_INFO_IGNORE unit "FEATHER | IGNORE_FIRE" H1)).
Defined.

Lemma X4_witness :
  (("break-chance" = "break-chance" \/ "break-chance" = "max-stack")
   /\ ex_tval_find_idx "sword" <> -1)
  /\ exists (d1 : kb_parsedata) (kb1 : object_base),
       parse_object_base_defaults "break-chance" 50 (init_parse_object_base ex_elements)
       = Returned PARSE_ERROR_NONE d1
       /\ parse_object_base_name ex_tval_find_idx "sword" (Some "Sword") d1
          = Returned PARSE_ERROR_NONE (mk_kb_parsedata (defaults d1) [kb1])
       /\ kb_break_perc kb1 = 50.
Proof.
  assert (H1 : "break-chance" = "break-chance" \/ "break-chance" = "max-stack")
    by (left; reflexivity).
  assert (H2 : ex_tval_find_idx "sword" <> -1) by (vm_compute; discriminate).
  split; [split; assumption|].
  destruct (X4_object_base_defaults_inherited ex_tval_find_idx "break-chance" "sword"
              50 (Some "Sword") (init_parse_object_base ex_elements) H1 H2)
    as (d1 & kb1 & Hd & _ & Hn & _ & _ & Hb & _).
  exists d1, kb1. split; [exact Hd|]. split; [exact Hn|exact Hb].
Defined.

Lemma X5_witness :
  (kb (mk_kb_parsedata (object_base_zero ex_elements)
         [ex_base 1 "Sword" 0; ex_base 7 "Staff" 0; ex_base 2 "Shield" 0])
   = [ex_base 1 "Sword" 0] ++ ex_base 7 "Staff" 0 :: [ex_base 2 "Shield" 0]
   /\ Forall (fun base => 0 <= kb_tval base < ex_TV_MAX) [ex_base 1 "Sword" 0]
   /\ ex_TV_MAX <= kb_tval (ex_base 7 "Staff" 0))
  /\ finish_parse_object_base ex_elements ex_TV_MAX
       (mk_kb_parsedata (object_base_zero ex_elements)
          [ex_base 1 "Sword" 0; ex_base 7 "Staff" 0; ex_base 2 "Shield" 0])
     = Diverges.
Proof.
  assert (H2 : Forall (fun base => 0 <= kb_tval base < ex_TV_MAX) [ex_base 1 "Sword" 0]).
  { repeat constructor; vm_compute; congruence. }
  assert (H3 : ex_TV_MAX <= kb_tval (ex_base 7 "Staff" 0)) by (vm_compute; congruence).
  split; [split; [reflexivity|split; assumption]|].
  apply (X5_object_base_oversized_tval ex_elements ex_TV_MAX
           (mk_kb_parsedata (object_base_zero ex_elements)
              [ex_base 1 "Sword" 0; ex_base 7 "Staff" 0; ex_base 2 "Shield" 0])
           [ex_base 1 "Sword" 0] [ex_base 2 "Shield" 0] (ex_base 7 "Staff" 0)
           eq_refl H2 H3).
  discriminate.
Defined.

Lemma X6_witness :
  Forall object_line_fits ex_object_file
  /\ Forall (fun base => 0 <= kb_num_svals base) ex_kb_info
  /\ exists (kb_info' : list object_base) (priv : list (object_kind unit)),
       run_lines ex_object_callback ex_object_file (ex_kb_info, [])
       = Returned PARSE_ERROR_NONE (kb_info', priv)
       /\ forall (i j : nat) (ki kj : object_kind unit),
            i <> j -> priv !! i = Some ki -> priv !! j = Some kj ->
            k_tval unit ki = k_tval unit kj -> k_sval unit ki = k_sval unit kj ->
            k_sval unit ki = 0.
Proof.
  assert (H1 : Forall object_line_fits ex_object_file).
  { repeat constructor. }
  assert (H2 : Forall (fun base => 0 <= kb_num_svals base) ex_kb_info).
  { repeat constructor; vm_compute; congruence. }
  split; [exact H1|]. split; [exact H2|].
  eexists _, _. split; [vm_compute; reflexivity|].
  refine (proj1 (X6_object_svals_distinct ex_elements ex_obj_flags ex_kind_flags
                   ex_obj_mods ex_EL_INFO_HATES ex_EL_INFO_IGNORE ex_tval_find_idx
                   unit unit unit (Some tt) (fun _ _ => Some tt) (Some tt)
                   (fun _ => tt) (fun _ _ => tt) (fun _ _ => (0, tt))
                   (fun _ _ _ => (0, tt)) (fun _ _ _ => None) (fun _ _ _ => None)
                   ex_slays ex_brands ex_curses ex_object_file ex_kb_info _ _
                   PARSE_ERROR_NONE H1 H2 _)).
  vm_compute. reflexivity.
Defined.

Lemma X7_witness :
  first_with_code slay_code ex_slays "EVIL_2" 0
  /\ parse_ego_slay "EVIL_2" ex_slays [ex_ego]
     = Returned PARSE_ERROR_NONE [set_e_slays (Some [true]) ex_ego].
Proof.
  assert (H1 : first_with_code slay_code ex_slays "EVIL_2" 0).
  { split; [eexists; split; reflexivity|]. intros j row Hj. lia. }
  split; [exact H1|].
  exact (proj1 (proj2 (proj1 (X7_slay_brand_directive_marks_row unit "EVIL_2" 0)
                         ex_slays H1)) ex_ego []).
Defined.

Lemma X8_witness :
  0 <= ex_tval_find_idx "sword"
  /\ exists added : list Z,
       parse_ego_type ex_tval_find_idx unit "sword" 3 ex_k_info [ex_ego]
       = Returned (match added with
                   | [] => PARSE_ERROR_NO_KIND_FOR_EGO_TYPE
                   | _ :: _ => PARSE_ERROR_NONE
                   end)
           [set_e_poss_items (added ++ e_poss_items ex_ego) ex_ego]
       /\ NoDup added.
Proof.
  assert (H1 : 0 <= ex_tval_find_idx "sword") by (vm_compute; congruence).
  split; [exact H1|].
  destruct (X8_ego_type_lists_kinds ex_tval_find_idx unit "sword" 3 ex_k_info ex_ego []
              H1) as (added & Hrun & Hnd & _).
  exists added. split; [exact Hrun|exact Hnd].
Defined.

Lemma X10_witness :
  exists (k_max : Z) (k_info : list (object_kind unit)),
    (finish_parse_object ex_elements ex_obj_mods unit ex_kb_info
       [ex_kind "Rapier" 1 2 0; ex_kind "Dagger" 1 1 0]
     = Returned PARSE_ERROR_NONE (k_max, k_info)
     /\ 0 <= ex_tval_find_idx "sword"
     /\ lookup_kind unit k_max k_info (ex_tval_find_idx "sword")
          (ex_lookup_sval k_max k_info (ex_tval_find_idx "sword") "Dagger") = Some 0)
    /\ (0 <= 0 < k_max
        /\ parse_ego_item ex_tval_find_idx unit ex_lookup_sval "sword" "Dagger" k_max
             k_info [ex_ego]
           = Returned PARSE_ERROR_INVALID_ITEM_NUMBER
               [set_e_poss_items (0 :: e_poss_items ex_ego) ex_ego]).
Proof.
  eexists _, _.
  assert (H2 : 0 <= ex_tval_find_idx "sword") by (vm_compute; congruence).
  refine ((fun H1 H3 =>
             conj (conj H1 (conj H2 H3))
               (X10_ego_item_of_finished_kinds ex_elements ex_obj_mods
                  ex_tval_find_idx unit ex_lookup_sval "sword" "Dagger" ex_kb_info
                  [ex_kind "Rapier" 1 2 0; ex_kind "Dagger" 1 1 0] _ 0 _ ex_ego []
                  H1 H2 H3)) _ _).
  - vm_compute. reflexivity.
  - vm_compute. reflexivity.
Defined.

Lemma X14_witness :
  (ex_activations <> []
   /\ Forall (fun a => is_Some (act_name unit a)) ex_activations
   /\ (length ex_activations <= 2)%nat
   /\ forall a, a ∈ ex_activations -> act_name unit a <> Some "BLESS")
  /\ findact_from unit 2 (snd (finish_parse_act unit ex_activations)) (Some 0) "BLESS"
     = Some (inr None).
Proof.
  assert (H1 : ex_activations <> []) by discriminate.
  assert (H2 : Forall (fun a => is_Some (act_name unit a)) ex_activations).
  { repeat constructor; eexists; reflexivity. }
  assert (H3 : (length ex_activations <= 2)%nat) by (simpl; lia).
  assert (H4 : forall a, a ∈ ex_activations -> act_name unit a <> Some "BLESS").
  { intros a Ha. unfold ex_activations in Ha.
    apply elem_of_cons in Ha as [->|Ha]; [discriminate|].
    apply elem_of_cons in Ha as [->|Ha]; [discriminate|inversion Ha]. }
  split; [repeat split; assumption|].
  exact (proj2 (X14_findact_first_in_file_order unit ex_activations "BLESS" 2
                  H1 H2 H3) H4).
Defined.



Lemma X17_witness :
  0 <= 128
  /\ exists mixed : Z,
       set_volume 128 150 (mk_sdl_world false [])
       = (Z.max 0 (Z.min 100 150), call (Mix_Volume (-1) mixed) (mk_sdl_world false []))
       /\ 0 <= mixed <= 128.
Proof.
  assert (H1 : 0 <= 128) by lia.
  split; [exact H1|].
  destruct (X17_set_volume_clamps 128 150 (mk_sdl_world false []) H1)
    as (mixed & Hset & _ & Hmixed & _).
  exists mixed. split; [exact Hset|exact Hmixed].
Defined.

Lemma X19_witness :
  (plat_data (mk_sound_data false None) = None
   /\ (SDL_CHUNK = SDL_CHUNK \/ SDL_CHUNK = SDL_MUSIC))
  /\ exists (data1 : sound_data) (w1 w2 : sdl_world),
       load_sound_sdl (Some 1%positive) "hit.ogg" SDL_CHUNK (mk_sound_data false None)
         (mk_sdl_world false [])
       = (true, data1, w1)
       /\ unload_sound_sdl data1 w1 = (true, mk_sound_data false None, w2)
       /\ unload_sound_sdl (mk_sound_data false None) w2
          = (true, mk_sound_data false None, w2).
Proof.
  assert (H1 : plat_data (mk_sound_data false None) = None) by reflexivity.
  assert (H2 : SDL_CHUNK = SDL_CHUNK \/ SDL_CHUNK = SDL_MUSIC) by (left; reflexivity).
  split; [split; assumption|].
  destruct (X19_load_then_unload 1%positive "hit.ogg" SDL_CHUNK
              (mk_sound_data false None) (mk_sdl_world false []) H1 H2)
    as (data1 & w1 & w2 & Hload & Hunload & _ & Hagain).
  exists data1, w1, w2. split; [exact Hload|]. split; [exact Hunload|exact Hagain].
Defined.

Lemma X21_witness :
  exists st' : artifact_state unit,
    (length (st_kb_info unit ex_artifact_state) = Z.to_nat ex_TV_MAX
     /\ bases_by_tval (st_kb_info unit ex_artifact_state)
     /\ svals_numbered (st_kb_info unit ex_artifact_state)
          (kind_key unit <$> st_k_info unit ex_artifact_state)
     /\ ex_parse_artifact_base_object true "shield" "Thorin" ex_artifact_state
        = Returned PARSE_ERROR_NONE st')
    /\ svals_numbered (st_kb_info unit st') (kind_key unit <$> st_k_info unit st').
Proof.
  eexists.
  assert (H1 : length (st_kb_info unit ex_artifact_state) = Z.to_nat ex_TV_MAX)
    by reflexivity.
  assert (H2 : bases_by_tval (st_kb_info unit ex_artifact_state)).
  { intros i base Hi. simpl in Hi.
    destruct i as [|[|[|[|i]]]]; simpl in Hi; inversion Hi; subst base;
      vm_compute; auto. }
  assert (H3 : svals_numbered (st_kb_info unit ex_artifact_state)
                 (kind_key unit <$> st_k_info unit ex_artifact_state)).
  { split; [|split].
    - repeat constructor; vm_compute; congruence.
    - intros t s base Hin Hbase. simpl in Hin.
      apply list_elem_of_In in Hin. simpl in Hin.
      destruct Hin as [Hk|[Hk|[Hk|[]]]]; inversion Hk; subst t s;
        vm_compute in Hbase; inversion Hbase; subst base; vm_compute;
        split; congruence.
    - intros i j t s Hij Hi Hj. simpl in Hi, Hj.
      destruct i as [|[|[|i]]]; simpl in Hi; inversion Hi; subst t s;
        destruct j as [|[|[|j]]]; simpl in Hj; inversion Hj; congruence. }
  refine ((fun H4 =>
             conj (conj H1 (conj H2 (conj H3 H4)))
               (proj1 (proj2 (proj2
                  (X21_dummy_kinds_keep_svals_numbered ex_elements ex_obj_mods
                     ex_TV_MAX ex_KF_INSTA_ART ex_COLOUR_RED ex_tval_find_idx unit
                     ex_lookup_sval_absent true "shield" "Thorin" ex_artifact_state _
                     PARSE_ERROR_NONE H1 H2 H3 H4))))) _).
  vm_compute. reflexivity.
Defined.


(** An object property whose block sets the multiplier of swords twice. *)
Definition ex_property_block : list object_property_line :=
  [ OPL_power 5; OPL_type_mult "sword" 3; OPL_type_mult "shield" 2;
    OPL_desc "strength"; OPL_type_mult "sword" 4 ].

Lemma X23_witness :
  Forall (property_field_line ex_TV_MAX ex_tval_find_idx) ex_property_block
  /\ exists p : obj_property,
       run_lines (object_property_callback ex_TV_MAX ex_tval_find_idx)
         (OPL_name "STR" :: ex_property_block) []
       = Returned PARSE_ERROR_NONE [p]
       /\ array_get (prop_type_mult p) 1 = Some 4
       /\ array_get (prop_type_mult p) 2 = Some 2
       /\ array_get (prop_type_mult p) 3 = Some 1.
Proof.
  assert (H : Forall (property_field_line ex_TV_MAX ex_tval_find_idx) ex_property_block).
  { repeat constructor; vm_compute; discriminate. }
  split; [exact H|].
  destruct (X23_property_type_multipliers ex_TV_MAX ex_tval_find_idx "STR"
              ex_property_block [] H) as [(p & Hrun & _ & Hget) _].
  exists p. split; [exact Hrun|].
  split; [apply (Hget 1); unfold ex_TV_MAX; lia|].
  split; [apply (Hget 2)|apply (Hget 3)]; unfold ex_TV_MAX; lia.
Defined.
